(** * sw-tools: the service worker of src/sw.js, embedded and verified

    The development follows the source file function by function.  JavaScript
    strings are modelled as [string] (sequences of 8-bit characters, which is
    exact for ASCII markup), numbers as [Z], promise chains as a small
    state-and-rejection monad over the cache storage and the network log,
    the worker from event to event as a step function on its state.  Of the
    page script src/swTools.js the test that selects the links to prefetch
    is embedded. *)

From Stdlib Require Import String Ascii List ZArith Bool Arith Lia.
From Stdlib Require Import Numbers.DecimalString.
Import ListNotations.
Open Scope string_scope.
Open Scope list_scope.
Set Warnings "-register-all".

(* ================================================================== *)
(** * Part I: definitions *)
(* ================================================================== *)

(** ** JavaScript values (the configuration objects of [mergeDeep])

    An object keeps its own enumerable properties in the order [Object.keys]
    lists them.  [VObject] is an object whose prototype is
    [Object.prototype], as the objects of a literal, of [JSON.parse] and of
    the structured clone of a message are; [VBare] is an object whose
    prototype is [null], which is what the setter of [__proto__] makes of an
    object when it is given [null].  Values are trees: the configuration
    objects are literals or structured clones of a message, so no two
    properties share a mutable object.  Of [Object.prototype] the model
    holds the names of its properties, as every browser provides them; a
    merge that writes to [Object.prototype], or that puts an array in the
    place of a prototype, has no result here. *)

Inductive value : Type :=
| VUndefined
| VNull
| VBool (b : bool)
| VNumber (n : Z)
| VString (s : string)
| VArray (items : list value)
| VObject (props : list (string * value))
| VBare (props : list (string * value)).

(** The own property of that name, if the object has one. *)
Fixpoint own (props : list (string * value)) (key : string) : option value :=
  match props with
  | [] => None
  | (k, v) :: rest => if String.eqb k key then Some v else own rest key
  end.

(** The functions every object inherits from [Object.prototype]. *)
Definition object_methods : list string :=
  [ "constructor"; "__defineGetter__"; "__defineSetter__"; "hasOwnProperty";
    "__lookupGetter__"; "__lookupSetter__"; "isPrototypeOf"; "propertyIsEnumerable";
    "toString"; "valueOf"; "toLocaleString" ].

Definition inherited (key : string) : bool := existsb (String.eqb key) object_methods.

(** What [target[key]] finds: an own property, a function of
    [Object.prototype], [Object.prototype] itself (which the getter of
    [__proto__] returns), or nothing ([undefined]). *)
Inductive Found : Type :=
| Own (v : value)
| Method
| ObjectPrototype
| Nothing.

(** [target[key]] for an object [target], given by whether its prototype is
    [null] ([bare]) and by its own properties. *)
Definition get (bare : bool) (props : list (string * value)) (key : string) : Found :=
  match own props key with
  | Some v => Own v
  | None =>
      if bare then Nothing
      else if String.eqb key "__proto__" then ObjectPrototype
      else if inherited key then Method
      else Nothing
  end.

(** The number a property name stands for when it is an array index: a
    decimal numeral without a leading zero, below [2^32 - 1]. *)
Definition array_index (key : string) : option N :=
  match key with
  | EmptyString => None
  | String c rest =>
      if Ascii.eqb c "0" && negb (String.eqb rest "") then None
      else
        match NilEmpty.uint_of_string key with
        | Some digits =>
            if (N.of_uint digits <? 4294967295)%N then Some (N.of_uint digits) else None
        | None => None
        end
  end.

(** The order of the own properties: array indices first, in ascending
    order, then the other names in the order of their creation. *)
Definition listed_before (key k : string) : bool :=
  match array_index key, array_index k with
  | Some i, Some j => (i <? j)%N
  | Some _, None => true
  | None, _ => false
  end.

(** A new own property takes its place in that order. *)
Fixpoint insert (props : list (string * value)) (key : string) (v : value)
  : list (string * value) :=
  match props with
  | [] => [(key, v)]
  | (k, old) :: rest =>
      if listed_before key k then (key, v) :: props else (k, old) :: insert rest key v
  end.

(** An own property that is there gets its new value in place. *)
Fixpoint update (props : list (string * value)) (key : string) (v : value)
  : list (string * value) :=
  match props with
  | [] => []
  | (k, old) :: rest =>
      if String.eqb k key then (k, v) :: rest else (k, old) :: update rest key v
  end.

(** [Object.assign(target, { [key]: v })], which sets [target[key]]: an own
    property is overwritten; the name [__proto__], when the object inherits
    it, goes to the setter of [Object.prototype], which makes [null] or an
    object the prototype of [target] and ignores any other value; every
    other name becomes a new own property.  [None]: [target] gets a
    prototype that is neither [Object.prototype] nor [null]. *)
Definition assign (bare : bool) (props : list (string * value)) (key : string) (v : value)
  : option (bool * list (string * value)) :=
  match own props key with
  | Some _ => Some (bare, update props key v)
  | None =>
      if negb bare && String.eqb key "__proto__" then
        match v with
        | VNull => Some (true, props)
        | VArray _ | VObject _ | VBare _ => None
        | _ => Some (bare, props)
        end
      else Some (bare, insert props key v)
  end.

(** JavaScript truthiness, as [!target[key]] tests it. *)
Definition truthy (v : value) : bool :=
  match v with
  | VUndefined | VNull => false
  | VBool b => b
  | VNumber n => negb (Z.eqb n 0)
  | VString s => negb (String.eqb s "")
  | VArray _ | VObject _ | VBare _ => true
  end.

Definition found_truthy (found : Found) : bool :=
  match found with
  | Own v => truthy v
  | Method | ObjectPrototype => true
  | Nothing => false
  end.

(** sw.js, [isObject]:
    [item && 'object' === typeof item && !Array.isArray(item) && null !== item]. *)
Definition isObject (item : value) : bool :=
  match item with
  | VObject _ | VBare _ => true
  | _ => false
  end.

(** An object, from whether its prototype is [null] and its own properties;
    and back. *)
Definition object (bare : bool) (props : list (string * value)) : value :=
  if bare then VBare props else VObject props.

Definition is_bare (v : value) : bool :=
  match v with
  | VBare _ => true
  | _ => false
  end.

(** The own properties of an object (none for other values). *)
Definition props_of (v : value) : list (string * value) :=
  match v with
  | VObject props | VBare props => props
  | _ => []
  end.

(** sw.js, [mergeDeep].  The source mutates [target] in place and returns it;
    here the updated target is returned.  [mergeDeep(target[key], source[key])]
    mutates the object held at [target[key]]: an own property of [target]
    holds the merged object afterwards; a function of [Object.prototype] is
    no object, and the call changes nothing; [Object.prototype] itself is an
    object, and the call writes the properties of [source[key]] into it,
    which has no result here ([None]) unless there is none to write. *)
Fixpoint mergeDeep (target source : value) {struct source} : option value :=
  match source with
  | VObject s | VBare s =>
      if isObject target then
        (fix each (s : list (string * value)) (bare : bool) (t : list (string * value))
           {struct s} : option value :=
           match s with
           | [] => Some (object bare t)
           | (key, sv) :: s' =>
               match
                 (if isObject sv then
                    match
                      (if found_truthy (get bare t key) then Some (bare, t)
                       else assign bare t key (VObject []))
                    with
                    | Some (bare1, t1) =>
                        match get bare1 t1 key with
                        | Own v =>
                            match mergeDeep v sv with
                            | Some merged => Some (bare1, update t1 key merged)
                            | None => None
                            end
                        | ObjectPrototype =>
                            match props_of sv with
                            | [] => Some (bare1, t1)
                            | _ :: _ => None
                            end
                        | Method | Nothing => Some (bare1, t1)
                        end
                    | None => None
                    end
                  else assign bare t key sv)
               with
               | Some (bare', t') => each s' bare' t'
               | None => None
               end
           end) s (is_bare target) (props_of target)
      else Some target
  | _ => Some target
  end.

(** One iteration of the [forEach] of [mergeDeep], and the whole loop. *)
Definition mergeKey (o : bool * list (string * value)) (kv : string * value)
  : option (bool * list (string * value)) :=
  let (bare, t) := o in
  let (key, sv) := kv in
  if isObject sv then
    match
      (if found_truthy (get bare t key) then Some (bare, t)
       else assign bare t key (VObject []))
    with
    | Some (bare1, t1) =>
        match get bare1 t1 key with
        | Own v =>
            match mergeDeep v sv with
            | Some merged => Some (bare1, update t1 key merged)
            | None => None
            end
        | ObjectPrototype =>
            match props_of sv with
            | [] => Some (bare1, t1)
            | _ :: _ => None
            end
        | Method | Nothing => Some (bare1, t1)
        end
    | None => None
    end
  else assign bare t key sv.

Fixpoint mergeKeys (s : list (string * value)) (o : bool * list (string * value))
  : option (bool * list (string * value)) :=
  match s with
  | [] => Some o
  | kv :: s' =>
      match mergeKey o kv with
      | Some o' => mergeKeys s' o'
      | None => None
      end
  end.



(** [v[key]] for an object [v]. *)
Definition property (v : value) (key : string) : Found :=
  get (is_bare v) (props_of v) key.

(** sw.js, the editable default [config] literal. *)
Definition config_literal : value :=
  VObject
    [ ("cache", VObject [("enabled", VBool true)]);
      ("prefetch", VObject [("enabled", VBool true)]);
      ("defer",
        VObject
          [ ("images", VObject [("color", VString "#D8D8D8")]);
            ("youtube", VObject [("enabled", VBool true)]) ]);
      ("analytics",
        VObject [("enabled", VBool true); ("maxTime", VNumber (24 * 60 * 60 * 1000))]) ].

(** An override in the shape of the README's configuration example. *)
Definition example_override : value :=
  VObject
    [ ("cache",
        VObject
          [ ("enabled", VBool false); ("maxItems", VNumber 40);
            ("noCacheItems", VArray [VString "/no-cache-page"]) ]);
      ("prefetch", VObject [("enabled", VBool false); ("items", VArray [VString "offline"])]);
      ("saveDataItems", VArray [VString "fonts.googleapis.com"]);
      ("offline", VObject [("page", VString "offline")]);
      ("defer", VObject [("youtube", VObject [("enabled", VBool false)])]);
      ("analytics", VObject [("maxTime", VNumber 3600000)]) ].

Open Scope string_scope.

(** ** JavaScript strings

    Markup is full of double quotes, which a string literal would have to
    double; it is written with apostrophes instead, and [q] turns each
    apostrophe into a double quote: [q "src='a.png'"] is the text
    [src="a.png"].  None of the texts of the source holds an apostrophe. *)

Definition dquote : ascii := ascii_of_nat 34.

Fixpoint q (s : string) : string :=
  match s with
  | EmptyString => EmptyString
  | String c s' => String (if Ascii.eqb c "'" then dquote else c) (q s')
  end.

Fixpoint drop (n : nat) (s : string) : string :=
  match n, s with
  | S n', String _ s' => drop n' s'
  | _, _ => s
  end.

Fixpoint take (n : nat) (s : string) : string :=
  match n, s with
  | S n', String c s' => String c (take n' s')
  | _, _ => EmptyString
  end.

(** Position of the first occurrence of [pat] in [s]. *)
Fixpoint find (pat s : string) : option nat :=
  if prefix pat s then Some 0
  else match s with
       | EmptyString => None
       | String _ s' => option_map S (find pat s')
       end.

(** [s.indexOf(pat)]: [-1] when [pat] does not occur. *)
Definition indexOf (s pat : string) : Z :=
  match find pat s with
  | Some i => Z.of_nat i
  | None => (-1)%Z
  end.

(** [s.includes(pat)]. *)
Definition includes (s pat : string) : bool :=
  match find pat s with
  | Some _ => true
  | None => false
  end.

(** [s.substr(start, len)]: a negative [start] counts from the end. *)
Definition substr (s : string) (start len : Z) : string :=
  let size := Z.of_nat (String.length s) in
  let from := if (start <? 0)%Z then Z.max (size + start) 0 else start in
  take (Z.to_nat len) (drop (Z.to_nat from) s).

(** Numbers print in decimal ([String(n)] for an integer [n]). *)
Definition string_of_Z (n : Z) : string :=
  NilEmpty.string_of_int (Z.to_int n).

(** *** Replacement templates ([GetSubstitution])

    [ngroups] is the number of capturing groups of the pattern (0 for a string
    pattern), [caps] the captures that took part in the match. *)

Definition captures := list (nat * string).

Fixpoint capture (caps : captures) (n : nat) : option string :=
  match caps with
  | [] => None
  | (m, text) :: rest => if Nat.eqb m n then Some text else capture rest n
  end.

Definition capture_text (caps : captures) (n : nat) : string :=
  match capture caps n with
  | Some text => text
  | None => ""
  end.

Definition is_digit (c : ascii) : bool :=
  Nat.leb 48 (nat_of_ascii c) && Nat.leb (nat_of_ascii c) 57.

Definition digit_value (c : ascii) : nat := nat_of_ascii c - 48.

Fixpoint substitute (ngroups : nat) (caps : captures)
    (matched before after template : string) : string :=
  match template with
  | EmptyString => EmptyString
  | String c rest =>
      if negb (Ascii.eqb c "$") then
        String c (substitute ngroups caps matched before after rest)
      else
        match rest with
        | EmptyString => "$"
        | String d1 rest' =>
            if Ascii.eqb d1 "$" then
              String "$" (substitute ngroups caps matched before after rest')
            else if Ascii.eqb d1 "&" then
              matched ++ substitute ngroups caps matched before after rest'
            else if Ascii.eqb d1 "`" then
              before ++ substitute ngroups caps matched before after rest'
            else if Ascii.eqb d1 "'" then
              after ++ substitute ngroups caps matched before after rest'
            else
              let one :=
                if is_digit d1 && Nat.leb 1 (digit_value d1)
                   && Nat.leb (digit_value d1) ngroups
                then capture_text caps (digit_value d1)
                       ++ substitute ngroups caps matched before after rest'
                else String "$" (substitute ngroups caps matched before after rest) in
              match rest' with
              | String d2 rest'' =>
                  let index := 10 * digit_value d1 + digit_value d2 in
                  if is_digit d1 && is_digit d2 && Nat.leb 1 index && Nat.leb index ngroups
                  then capture_text caps index
                         ++ substitute ngroups caps matched before after rest''
                  else one
              | EmptyString => one
              end
        end
  end.

(** A template without [$] stands for itself. *)
Fixpoint plain (template : string) : bool :=
  match template with
  | EmptyString => true
  | String c rest => negb (Ascii.eqb c "$") && plain rest
  end.

(** [s.replace(pat, template)] with a string pattern: the first occurrence. *)
Definition replace_string (s pat template : string) : string :=
  match find pat s with
  | None => s
  | Some i =>
      let before := take i s in
      let after := drop (i + String.length pat) s in
      before ++ substitute 0 [] pat before after template ++ after
  end.

(** *** Regular expressions

    The fragment the source uses: literal characters, [.], [\d], character
    classes of ranges, sequence, greedy [*] (and [+] as one-then-star) and
    capturing groups; the flag [i] is the [ci] argument.  Matching is the
    backtracking search of the language definition, in continuation-passing
    style: a continuation that fails makes the matcher try the next choice. *)

Inductive regex : Type :=
| RChar (c : ascii)
| RAny
| RDigit
| RClass (ranges : list (ascii * ascii))
| REmpty
| RSeq (r1 r2 : regex)
| RStar (r : regex)
| RGroup (n : nat) (r : regex).

Definition plus (r : regex) : regex := RSeq r (RStar r).

Fixpoint lit (s : string) : regex :=
  match s with
  | EmptyString => REmpty
  | String c s' => RSeq (RChar c) (lit s')
  end.

Fixpoint seq (rs : list regex) : regex :=
  match rs with
  | [] => REmpty
  | r :: rs' => RSeq r (seq rs')
  end.

Fixpoint groups (r : regex) : list nat :=
  match r with
  | RSeq r1 r2 => groups r1 ++ groups r2
  | RStar r1 => groups r1
  | RGroup n r1 => n :: groups r1
  | _ => []
  end.

Definition upper (c : ascii) : ascii :=
  let n := nat_of_ascii c in
  if Nat.leb 97 n && Nat.leb n 122 then ascii_of_nat (n - 32) else c.

Definition lower (c : ascii) : ascii :=
  let n := nat_of_ascii c in
  if Nat.leb 65 n && Nat.leb n 90 then ascii_of_nat (n + 32) else c.

Definition char_matches (ci : bool) (c a : ascii) : bool :=
  if ci then Ascii.eqb (upper c) (upper a) else Ascii.eqb c a.

Definition in_ranges (ranges : list (ascii * ascii)) (a : ascii) : bool :=
  existsb (fun r => Nat.leb (nat_of_ascii (fst r)) (nat_of_ascii a)
                    && Nat.leb (nat_of_ascii a) (nat_of_ascii (snd r))) ranges.

Definition class_matches (ci : bool) (ranges : list (ascii * ascii)) (a : ascii) : bool :=
  in_ranges ranges a || (ci && (in_ranges ranges (upper a) || in_ranges ranges (lower a))).

Definition is_line_terminator (a : ascii) : bool :=
  Nat.eqb (nat_of_ascii a) 10 || Nat.eqb (nat_of_ascii a) 13.

Definition clear_captures (ns : list nat) (caps : captures) : captures :=
  filter (fun p => negb (existsb (Nat.eqb (fst p)) ns)) caps.

Definition one_char (test : ascii -> bool) (s : string) (caps : captures)
    (k : string -> captures -> option (string * captures))
  : option (string * captures) :=
  match s with
  | String a s' => if test a then k s' caps else None
  | EmptyString => None
  end.

(** [rmatch ci r s caps k]: match [r] at the start of [s], then continue with
    [k] on what is left.  An iteration of [*] that consumes nothing fails, and
    the groups inside a [*] are reset when an iteration starts. *)
Fixpoint rmatch (ci : bool) (r : regex) (s : string) (caps : captures)
    (k : string -> captures -> option (string * captures)) {struct r}
  : option (string * captures) :=
  match r with
  | RChar c => one_char (char_matches ci c) s caps k
  | RAny => one_char (fun a => negb (is_line_terminator a)) s caps k
  | RDigit => one_char is_digit s caps k
  | RClass ranges => one_char (class_matches ci ranges) s caps k
  | REmpty => k s caps
  | RSeq r1 r2 => rmatch ci r1 s caps (fun s1 c1 => rmatch ci r2 s1 c1 k)
  | RGroup n r1 =>
      rmatch ci r1 s caps
        (fun s1 c1 => k s1 ((n, take (String.length s - String.length s1) s) :: c1))
  | RStar r1 =>
      (fix loop (fuel : nat) (s : string) (caps : captures) {struct fuel}
         : option (string * captures) :=
         match fuel with
         | 0 => k s caps
         | S fuel' =>
             match rmatch ci r1 s (clear_captures (groups r1) caps)
                     (fun s1 c1 =>
                        if Nat.ltb (String.length s1) (String.length s)
                        then loop fuel' s1 c1
                        else None)
             with
             | Some result => Some result
             | None => k s caps
             end
         end) (String.length s) s caps
  end.

Record RegExp : Type := { pattern : regex; ignoreCase : bool }.

Record Match : Type := { index : nat; matched : string; groups_of : captures }.

(** [re.exec(s)] from position 0: the leftmost match, [i] counting the
    characters already skipped. *)
Fixpoint exec_from (re : RegExp) (s : string) (i : nat) : option Match :=
  match rmatch (ignoreCase re) (pattern re) s [] (fun rest caps => Some (rest, caps)) with
  | Some (rest, caps) =>
      Some {| index := i;
              matched := take (String.length s - String.length rest) s;
              groups_of := caps |}
  | None =>
      match s with
      | EmptyString => None
      | String _ s' => exec_from re s' (S i)
      end
  end.

Definition exec (re : RegExp) (s : string) : option Match := exec_from re s 0.

(** [re.test(s)]. *)
Definition test (re : RegExp) (s : string) : bool :=
  match exec re s with
  | Some _ => true
  | None => false
  end.

(** [s.replace(re, template)] with the flag [g]: every match, left to right;
    after an empty match the search resumes one character further. *)
Fixpoint replace_loop (fuel : nat) (re : RegExp) (before s template : string) : string :=
  match fuel with
  | 0 => s
  | S fuel' =>
      match exec re s with
      | None => s
      | Some m =>
          let pre := take (index m) s in
          let post := drop (index m + String.length (matched m)) s in
          pre
          ++ substitute (List.length (groups (pattern re))) (groups_of m) (matched m)
               (before ++ pre) post template
          ++ match matched m with
             | EmptyString =>
                 match post with
                 | EmptyString => EmptyString
                 | String c post' =>
                     String c
                       (replace_loop fuel' re (before ++ pre ++ String c "") post' template)
                 end
             | _ => replace_loop fuel' re (before ++ pre ++ matched m) post template
             end
      end
  end.

Definition replace_regexp (s : string) (re : RegExp) (template : string) : string :=
  replace_loop (S (String.length s)) re "" s template.

(** *** [btoa]: base64 of a string of 8-bit characters *)

Definition base64_alphabet : string :=
  "ABCDEFGHIJKLMNOPQRSTUVWXYZabcdefghijklmnopqrstuvwxyz0123456789+/".

Definition base64_digit (n : nat) : ascii :=
  match String.get n base64_alphabet with
  | Some c => c
  | None => "="%char
  end.

Fixpoint btoa (s : string) : string :=
  match s with
  | EmptyString => EmptyString
  | String a EmptyString =>
      let x := nat_of_ascii a in
      String (base64_digit (x / 4)) (String (base64_digit (x mod 4 * 16)) "==")
  | String a (String b EmptyString) =>
      let x := nat_of_ascii a in
      let y := nat_of_ascii b in
      String (base64_digit (x / 4))
        (String (base64_digit (x mod 4 * 16 + y / 16))
           (String (base64_digit (y mod 16 * 4)) "="))
  | String a (String b (String c rest)) =>
      let x := nat_of_ascii a in
      let y := nat_of_ascii b in
      let z := nat_of_ascii c in
      String (base64_digit (x / 4))
        (String (base64_digit (x mod 4 * 16 + y / 16))
           (String (base64_digit (y mod 16 * 4 + z / 64))
              (String (base64_digit (z mod 64)) (btoa rest))))
  end.

(** ** Configuration, requests and responses *)

Record Offline : Type := {
  offline_page : option string;
  offline_image : option string }.

(** The effective configuration, field by field as the worker reads it;
    [None] stands for a property that is not set. *)
Record Config : Type := {
  cache_enabled : bool;
  cache_maxItems : option nat;
  cache_noCacheItems : option (list string);
  cache_noCachePatterns : option (list RegExp);
  prefetch_enabled : bool;
  prefetch_items : option (list string);
  saveDataItems : option (list string);
  offline : option Offline;
  defer_images_color : string;
  defer_youtube_enabled : bool;
  analytics_enabled : bool;
  analytics_maxTime : Z }.

(** sw.js, the default [config] (see [config_literal]). *)
Definition config : Config := {|
  cache_enabled := true;
  cache_maxItems := None;
  cache_noCacheItems := None;
  cache_noCachePatterns := None;
  prefetch_enabled := true;
  prefetch_items := None;
  saveDataItems := None;
  offline := None;
  defer_images_color := "#D8D8D8";
  defer_youtube_enabled := true;
  analytics_enabled := true;
  analytics_maxTime := 24 * 60 * 60 * 1000 |}.

(** sw.js, [globalConfig.version]. *)
Definition version : string := "v1.0.0".

Record Response : Type := {
  status : Z;
  statusText : string;
  headers : list (string * string);
  body : string }.

(** [response.ok]: a status in the range 200-299. *)
Definition ok (r : Response) : bool := (200 <=? status r)%Z && (status r <=? 299)%Z.

(** The names of headers are compared without regard to case. *)
Fixpoint lowercase (s : string) : string :=
  match s with
  | EmptyString => EmptyString
  | String c s' => String (lower c) (lowercase s')
  end.

Definition has_header (name : string) (hs : list (string * string)) : bool :=
  existsb (fun h => String.eqb (lowercase (fst h)) name) hs.

(** The headers of a response constructed with a string for its body: the
    constructor adds the type of the text when the headers it is given name
    no content type.  The headers it is given keep their names as written. *)
Definition text_headers (hs : list (string * string)) : list (string * string) :=
  if has_header "content-type" hs then hs
  else (hs ++ [("content-type", "text/plain;charset=UTF-8")])%list.

(** [new Response(body, { headers })] for a body that is a string: the
    status defaults to 200. *)
Definition new_Response (text : string) (hs : list (string * string)) : Response :=
  {| status := 200; statusText := ""; headers := text_headers hs; body := text |}.

(** A request, with the parts of [new URL(request.url)] the worker reads. *)
Record Request : Type := {
  url : string;
  origin : string;
  hostname : string;
  pathname : string;
  method : string;
  accept : option string;
  save_data : option string }.

(** ** Content rewriting *)

(** sw.js, [getTextPart]. *)
Definition getTextPart (text start stop : string) : string :=
  let text := substr text (indexOf text start) (Z.of_nat (String.length text)) in
  substr text 0 (indexOf text stop + 1).

(** sw.js, [newBase64Image]. *)
Definition newBase64Image (cfg : Config) (width height : string) : string :=
  let element :=
    q "<svg role='img' aria-labelledby='offline-title' viewBox='0 0 " ++ width ++ " "
    ++ height
    ++ q "' xmlns='http://www.w3.org/2000/svg'><g fill='none' fill-rule='evenodd'><path fill='"
    ++ defer_images_color cfg ++ q "' d='M0 0h" ++ width ++ "v" ++ height
    ++ q "H0z'/></g></svg>" in
  "data:image/svg+xml;base64," ++ btoa element.

(** The patterns of [setImage], written here with an apostrophe for each
    double quote: [/width='(\d+)'/] and [/height='(\d+)'/]. *)
Definition width_regexp : RegExp :=
  {| pattern := seq [lit (q "width='"); RGroup 1 (plus RDigit); RChar dquote];
     ignoreCase := false |}.

Definition height_regexp : RegExp :=
  {| pattern := seq [lit (q "height='"); RGroup 1 (plus RDigit); RChar dquote];
     ignoreCase := false |}.

(** [/src='(.{0,})(\?[0-9]+){0,}'/gi]: the source writes each [{0,}] as a star. *)
Definition src_regexp : RegExp :=
  {| pattern :=
       seq [ lit (q "src='"); RGroup 1 (RStar RAny);
             RStar (RGroup 2 (RSeq (RChar "?") (plus (RClass [("0"%char, "9"%char)]))));
             RChar dquote ];
     ignoreCase := true |}.

(** [image.match(re) ? image.match(re)[1] : false], with [None] for [false]. *)
Definition first_group (re : RegExp) (image : string) : option string :=
  match exec re image with
  | Some m => Some (capture_text (groups_of m) 1)
  | None => None
  end.

(** [!x] for a value that is a string or [false]. *)
Definition falsy (x : option string) : bool :=
  match x with
  | Some text => String.eqb text ""
  | None => true
  end.

Definition text_of (x : option string) : string :=
  match x with
  | Some text => text
  | None => ""
  end.

(** sw.js, [setImage]. *)
Definition setImage (cfg : Config) (image : string) : string :=
  let width := first_group width_regexp image in
  let height := first_group height_regexp image in
  if falsy width || falsy height then image
  else
    replace_regexp image src_regexp
      (q "src='" ++ newBase64Image cfg (text_of width) (text_of height)
       ++ q "' data-defer-src='$1'").

(** sw.js, [changeImages]: the [while] loop, one iteration per unit of fuel.
    Every iteration shortens [cloned] by at least one character, so
    [String.length html] iterations are enough. *)
Fixpoint changeImages_loop (fuel : nat) (cfg : Config) (html cloned : string) : string :=
  match fuel with
  | 0 => html
  | S fuel' =>
      if (indexOf cloned "<img" =? -1)%Z then html
      else
        let oldImage := getTextPart cloned "<img" ">" in
        let html' :=
          if (-1 <? indexOf oldImage "data-defer")%Z
          then replace_string html oldImage (setImage cfg oldImage)
          else html in
        changeImages_loop fuel' cfg html'
          (substr cloned (indexOf cloned oldImage + 1) (Z.of_nat (String.length cloned)))
  end.

Definition changeImages (cfg : Config) (html : string) : string :=
  changeImages_loop (String.length html) cfg html html.

(** The same loop with its exit told apart from the end of the fuel: each
    unit of fuel pays for one test of [-1 != origin]; the result is [Some]
    only when the test has failed and the loop has been left. *)
Fixpoint changeImages_exit (fuel : nat) (cfg : Config) (html cloned : string)
  : option string :=
  match fuel with
  | 0 => None
  | S fuel' =>
      if (indexOf cloned "<img" =? -1)%Z then Some html
      else
        let oldImage := getTextPart cloned "<img" ">" in
        let html' :=
          if (-1 <? indexOf oldImage "data-defer")%Z
          then replace_string html oldImage (setImage cfg oldImage)
          else html in
        changeImages_exit fuel' cfg html'
          (substr cloned (indexOf cloned oldImage + 1) (Z.of_nat (String.length cloned)))
  end.

(** sw.js, [deferImages]. *)
Definition deferImages (cfg : Config) (response : Response) : Response :=
  new_Response (changeImages cfg (body response)) (headers response).

(** The pattern and the replacement of [deferYoutubeVideos]; with the same
    conventions the pattern reads
    [/<iframe (.{0,}) src='https:\/\/www.youtube.com\/embed\/([a-z0-9\-]+)' (.{0,})><\/iframe>/gi]
    (its dots are unescaped, so each matches any character). *)
Definition youtube_regexp : RegExp :=
  {| pattern :=
       seq [ lit "<iframe "; RGroup 1 (RStar RAny); lit (q " src='https://www"); RAny;
             lit "youtube"; RAny; lit "com/embed/";
             RGroup 2 (plus (RClass [("a"%char, "z"%char); ("0"%char, "9"%char);
                                     ("-"%char, "-"%char)]));
             RChar dquote; RChar " "; RGroup 3 (RStar RAny); lit "></iframe>" ];
     ignoreCase := true |}.

(** The play glyph, U+25B6, in UTF-8. *)
Definition play_glyph : string :=
  String (ascii_of_nat 226) (String (ascii_of_nat 150) (String (ascii_of_nat 182) "")).

Definition youtube_template : string :=
  q "<div style='overflow:hidden;padding-top:56.25%;position:relative;'><iframe style='border:0;height:100%;left:0;position:absolute;top:0;width:100%;' $1 src='https://www.youtube.com/embed/$2' srcdoc='<style>*{padding:0;margin:0;overflow:hidden}html,body{height:100%}img,span{position:absolute;width:100%;top:0;bottom:0;margin:auto}span{height:1.5em;text-align:center;font:48px/1.5 sans-serif;color:white;text-shadow:0 0 0.5em black}</style><a href=https://www.youtube.com/embed/$2?autoplay=1><img src=https://img.youtube.com/vi/$2/hqdefault.jpg><span>"
  ++ play_glyph ++ q "</span></a>' $3></iframe></div>".

(** sw.js, [deferYoutubeVideos]. *)
Definition deferYoutubeVideos (cfg : Config) (response : Response) : Response :=
  let text := body response in
  let text :=
    if defer_youtube_enabled cfg
    then replace_regexp text youtube_regexp youtube_template
    else text in
  new_Response text (headers response).

(** ** The Cache Storage

    A cache lists its entries in insertion order, keyed by the request URL
    (the worker only stores GET requests); the storage lists the named caches
    in creation order, which is the order [caches.match] searches them in. *)

Definition Cache : Type := list (string * Response).
Definition CacheStorage : Type := list (string * Cache).

(** [cache.delete(key)]. *)
Definition cache_delete (key : string) (c : Cache) : Cache :=
  filter (fun entry => negb (String.eqb (fst entry) key)) c.

(** [cache.put(key, response)]: an entry of the same key is removed first,
    the new one goes last. *)
Definition cache_put (key : string) (response : Response) (c : Cache) : Cache :=
  (cache_delete key c ++ [(key, response)])%list.

(** [cache.match(key)]. *)
Fixpoint cache_match (key : string) (c : Cache) : option Response :=
  match c with
  | [] => None
  | (k, response) :: rest => if String.eqb k key then Some response else cache_match key rest
  end.

(** [cache.keys()]. *)
Definition cache_keys (c : Cache) : list string := map fst c.

(** The cache [caches.open(name)] gives: an empty one if none has the name. *)
Fixpoint caches_open (name : string) (cs : CacheStorage) : Cache :=
  match cs with
  | [] => []
  | (n, c) :: rest => if String.eqb n name then c else caches_open name rest
  end.

(** [caches.open(name).then(cache => ...)], the cache being updated by [f];
    the cache is created, last, when it is missing. *)
Fixpoint caches_update (name : string) (f : Cache -> Cache) (cs : CacheStorage)
  : CacheStorage :=
  match cs with
  | [] => [(name, f [])]
  | (n, c) :: rest =>
      if String.eqb n name then (n, f c) :: rest
      else (n, c) :: caches_update name f rest
  end.

(** [caches.match(key)]: the first cache that has the key answers. *)
Fixpoint caches_match (key : string) (cs : CacheStorage) : option Response :=
  match cs with
  | [] => None
  | (_, c) :: rest =>
      match cache_match key c with
      | Some response => Some response
      | None => caches_match key rest
      end
  end.

(** [caches.keys()]. *)
Definition caches_keys (cs : CacheStorage) : list string := map fst cs.

(** sw.js, [cacheName]. *)
Definition cacheName (key : string) : string := version ++ ":sw-cache::" ++ key.

(** ** The worker's world and its promises

    The world holds what the asynchronous steps read and write: the cache
    storage, the database of queued analytics requests ([None] until
    [openDatabase] has succeeded; the records as [getAll] lists them), and
    two logs for stating properties: the
    URLs fetched from the network and the entries written to caches, oldest
    first.  A promise is a step on the world that fulfils or rejects; steps
    of one chain run in the order the chain settles them.  [cache.put] in
    [addToCache] is not awaited by the source; the model applies it at once. *)

Record RetryRecord : Type := { record_url : string; timestamp : Z }.

Record World : Type := {
  caches : CacheStorage;
  database : option (list RetryRecord);
  fetched : list string;
  written : list (string * string * Response) }.

Inductive Settled (A : Type) : Type :=
| Fulfilled (a : A)
| Rejected.

Arguments Fulfilled {A} a.
Arguments Rejected {A}.

Definition Promise (A : Type) : Type := World -> Settled A * World.

Definition resolve {A : Type} (a : A) : Promise A := fun w => (Fulfilled a, w).

Definition reject {A : Type} : Promise A := fun w => (Rejected, w).

(** [p.then(f)]. *)
Definition then_ {A B : Type} (p : Promise A) (f : A -> Promise B) : Promise B :=
  fun w =>
    match p w with
    | (Fulfilled a, w') => f a w'
    | (Rejected, w') => (Rejected, w')
    end.

(** [p.catch(h)]. *)
Definition catch_ {A : Type} (p : Promise A) (h : unit -> Promise A) : Promise A :=
  fun w =>
    match p w with
    | (Fulfilled a, w') => (Fulfilled a, w')
    | (Rejected, w') => h tt w'
    end.

Inductive ResourceType : Type := content | image | static.

Definition type_name (t : ResourceType) : string :=
  match t with
  | content => "content"
  | image => "image"
  | static => "static"
  end.

(** What the [fetch] handler did with the event. *)
Inductive Outcome : Type :=
| RespondWith (response : option Response)
| RespondWithError
| NotHandled
| Throws.

Section Worker.

(** The network: the response [fetch(url)] resolves to, [None] when it
    rejects. *)
Variable network : string -> option Response.

(** [self.location.origin]. *)
Variable self_origin : string.

Variable cfg : Config.

(** [fetch(url)]. *)
Definition fetch (address : string) : Promise Response :=
  fun w =>
    let w' := {| caches := caches w; database := database w;
                 fetched := (fetched w ++ [address])%list; written := written w |} in
    match network address with
    | Some response => (Fulfilled response, w')
    | None => (Rejected, w')
    end.

(** sw.js, [addToCache]: returns the response; the copy is stored when the
    response is ok and caching is enabled. *)
Definition addToCache (cacheKey key : string) (response : Response) : Promise Response :=
  fun w =>
    if ok response && cache_enabled cfg then
      (Fulfilled response,
       {| caches := caches_update cacheKey (cache_put key response) (caches w);
          database := database w;
          fetched := fetched w;
          written := (written w ++ [(cacheKey, key, response)])%list |})
    else (Fulfilled response, w).

(** sw.js, [fetchFromCache]. *)
Definition fetchFromCache (request : Request) : Promise Response :=
  fun w =>
    match caches_match (url request) (caches w) with
    | Some response => (Fulfilled response, w)
    | None => (Rejected, w)
    end.

(** [if (x)] for a string that may be unset. *)
Definition set_and_truthy (x : option string) : bool := negb (falsy x).

(** sw.js, [offlineResponse]: [None] is [undefined]. *)
Definition offlineResponse (resourceType : ResourceType) : Promise (option Response) :=
  fun w =>
    match offline cfg with
    | None => (Fulfilled None, w)
    | Some off =>
        match resourceType with
        | image =>
            if set_and_truthy (offline_image off)
            then (Fulfilled
                    (Some (new_Response (text_of (offline_image off))
                             [("Content-Type", "image/svg+xml")])), w)
            else (Fulfilled None, w)
        | content =>
            if set_and_truthy (offline_page off)
            then (Fulfilled (caches_match (text_of (offline_page off)) (caches w)), w)
            else (Fulfilled None, w)
        | static => (Fulfilled None, w)
        end
    end.

(** sw.js, [onFetch], [shouldSaveData]. *)
Definition shouldSaveData (request : Request) : bool :=
  match saveDataItems cfg with
  | None => false
  | Some items =>
      if falsy (save_data request) then false
      else existsb (fun item => includes (url request) item) items
  end.

(** sw.js, [onFetch], [shouldHandleFetch]: the [criteria] object, the names
    of the criteria that fail, and whether there is none. *)
Definition criteria (request : Request) : list (string * bool) :=
  ([ ("isSWjs", negb (String.eqb "sw.min.js" (pathname request)));
     ("isGETRequest", String.eqb "GET" (method request));
     ("isFromMyOrigin", String.eqb (origin request) self_origin) ]
   ++ match cache_noCachePatterns cfg with
      | Some patterns =>
          [("matchesPathPattern",
            negb (existsb (fun p => test p (pathname request)) patterns))]
      | None => []
      end
   ++ match cache_noCacheItems cfg with
      | Some items =>
          [("isNoCacheItem", negb (existsb (String.eqb (pathname request)) items))]
      | None => []
      end)%list.

Definition shouldHandleFetch (request : Request) : bool :=
  let failingCriteria := filter (fun criterion => negb (snd criterion)) (criteria request) in
  Nat.eqb (List.length failingCriteria) 0.

(** sw.js, [doFetch]: the resource type read off the [Accept] header. *)
Definition resourceType_of (acceptHeader : string) : ResourceType :=
  if negb (indexOf acceptHeader "text/html" =? -1)%Z then content
  else if negb (indexOf acceptHeader "image" =? -1)%Z then image
  else static.

(** sw.js, [doFetch], [case 'content']: the chain given to [respondWith]. *)
Definition contentFlow (request : Request) : Promise (option Response) :=
  let cacheKey := cacheName (type_name content) in
  let p := fetch (url request) in
  let p := then_ p (fun response => resolve (deferImages cfg response)) in
  let p := then_ p (fun response => resolve (deferYoutubeVideos cfg response)) in
  let p := then_ p (fun response => addToCache cacheKey (url request) response) in
  let p := catch_ p (fun _ => fetchFromCache request) in
  catch_ (then_ p (fun response => resolve (Some response)))
    (fun _ => offlineResponse content).

(** sw.js, [doFetch], [default]: the chain for images and static files. *)
Definition cacheFirstFlow (resourceType : ResourceType) (request : Request)
  : Promise (option Response) :=
  let cacheKey := cacheName (type_name resourceType) in
  let p := fetchFromCache request in
  let p := catch_ p (fun _ => fetch (url request)) in
  let p := then_ p (fun response => addToCache cacheKey (url request) response) in
  catch_ (then_ p (fun response => resolve (Some response)))
    (fun _ => offlineResponse resourceType).

(** sw.js, [doFetch].  Without an [Accept] header [acceptHeader.indexOf]
    throws before [respondWith] is reached. *)
Definition doFetch (request : Request) (w : World) : Outcome * World :=
  match accept request with
  | None => (Throws, w)
  | Some acceptHeader =>
      let resourceType := resourceType_of acceptHeader in
      let flow :=
        match resourceType with
        | content => contentFlow request
        | _ => cacheFirstFlow resourceType request
        end in
      match flow w with
      | (Fulfilled response, w') => (RespondWith response, w')
      | (Rejected, w') => (RespondWithError, w')
      end
  end.

(** The object store is keyed by url ([keyPath: 'url']) and lists its
    records in the order of their keys: a new record goes before the first
    record whose url is greater. *)
Fixpoint add_record (record : RetryRecord) (records : list RetryRecord)
  : list RetryRecord :=
  match records with
  | [] => [record]
  | first :: rest =>
      if String.ltb (record_url record) (record_url first) then record :: records
      else first :: add_record record rest
  end.

(** sw.js, [store]: [add] keeps an existing record of the same url. *)
Definition store (now : Z) (address : string) (w : World) : option World :=
  match database w with
  | None => None
  | Some records =>
      Some {| caches := caches w;
              database :=
                Some (if existsb (fun r => String.eqb (record_url r) address) records
                      then records
                      else add_record {| record_url := address; timestamp := now |} records);
              fetched := fetched w;
              written := written w |}
  end.

(** sw.js, [analyticsFetch]: the request is attempted and recorded whatever
    the outcome; a [store] that throws (no database yet) rejects the chain. *)
Definition analyticsFetch (now : Z) (request : Request) (w : World) : Outcome * World :=
  if existsb (String.eqb (hostname request))
       ["www.google-analytics.com"; "ssl.google-analytics.com"]
     && String.eqb "/collect" (pathname request)
  then
    match fetch (url request) w with
    | (Fulfilled response, w') =>
        match store now (url request) w' with
        | Some w'' => (RespondWith (Some response), w'')
        | None => (RespondWithError, w')
        end
    | (Rejected, w') =>
        match store now (url request) w' with
        | Some w'' => (RespondWithError, w'')
        | None => (RespondWithError, w')
        end
    end
  else (NotHandled, w).

(** sw.js, [onFetch]. *)
Definition onFetch (now : Z) (request : Request) (w : World) : Outcome * World :=
  if shouldSaveData request then
    (RespondWith
       (Some {| status := 408; statusText := "Ignore request to save data.";
                headers := text_headers []; body := "" |}), w)
  else if shouldHandleFetch request then doFetch request w
  else if analytics_enabled cfg then analyticsFetch now request w
  else (NotHandled, w).

(** sw.js, [prefetch]: each URL is fetched and stored under the content
    cache; a fetch that rejects stores nothing. *)
Definition prefetch_one (w : World) (address : string) : World :=
  snd (then_ (fetch address)
         (fun response => addToCache (cacheName (type_name content)) address response) w).

Definition prefetch (urls : list string) (w : World) : World :=
  if negb (prefetch_enabled cfg) then w else fold_left prefetch_one urls w.

(** sw.js, [trimCache]: one deletion per unit of fuel; the number of entries
    is enough fuel.  [keys.length <= undefined] is false. *)
Definition within_limit (count : nat) (maxItems : option nat) : bool :=
  match maxItems with
  | Some limit => Nat.leb count limit
  | None => false
  end.

Fixpoint trimCache_loop (fuel : nat) (c : Cache) : Cache :=
  match fuel with
  | 0 => c
  | S fuel' =>
      let keys := cache_keys c in
      if within_limit (List.length keys) (cache_maxItems cfg) then c
      else
        match keys with
        | first :: _ => trimCache_loop fuel' (cache_delete first c)
        | [] => c
        end
  end.

Definition trimCache (name : string) (cs : CacheStorage) : CacheStorage :=
  caches_update name (fun c => trimCache_loop (List.length c) c) cs.

(** sw.js, [trimCaches]. *)
Definition trimCaches (cs : CacheStorage) : CacheStorage :=
  if negb (cache_enabled cfg)
     || match cache_maxItems cfg with Some 0 | None => true | Some _ => false end
  then cs
  else fold_left (fun acc name => trimCache name acc) (caches_keys cs) cs.

(** sw.js, [retryAnalyticsRequests]: the callback run on one stored record.
    The request is sent and answered before the next record is looked at;
    the source sends them all and handles the answers as they come, to the
    same effect on the database. *)
Definition delete_record (address : string) (w : World) : World :=
  {| caches := caches w;
     database :=
       option_map (filter (fun r => negb (String.eqb (record_url r) address))) (database w);
     fetched := fetched w;
     written := written w |}.

Definition retry_request (now : Z) (w : World) (request : RetryRecord) : World :=
  let queueTime := (now - timestamp request)%Z in
  if (queueTime >? analytics_maxTime cfg)%Z then delete_record (record_url request) w
  else
    let requestUrl := record_url request ++ "&qt=" ++ string_of_Z queueTime in
    match fetch requestUrl w with
    | (Fulfilled response, w') =>
        if (400 <=? status response)%Z then w'
        else delete_record (record_url request) w'
    | (Rejected, w') => w'
    end.

(** sw.js, [retryAnalyticsRequests]: [None] when there is no database yet
    ([getObjectStore] throws). *)
Definition retryAnalyticsRequests (now : Z) (w : World) : option World :=
  match database w with
  | None => None
  | Some records => Some (fold_left (retry_request now) records w)
  end.

End Worker.

(** ** Vocabulary of the cache properties *)

(** The cache storage after a list of logged writes. *)
Definition apply_write (cs : CacheStorage) (entry : string * string * Response)
  : CacheStorage :=
  caches_update (fst (fst entry)) (cache_put (snd (fst entry)) (snd entry)) cs.

Definition apply_writes (entries : list (string * string * Response)) (cs : CacheStorage)
  : CacheStorage :=
  fold_left apply_write entries cs.

(** From world [w] to world [w'] the caches changed by the writes logged in
    between and by nothing else, every response written is ok, and caching
    was enabled whenever something was written. *)
Definition stores_only_ok (cfg : Config) (w w' : World) : Prop :=
  exists new : list (string * string * Response),
    written w' = (written w ++ new)%list
    /\ caches w' = apply_writes new (caches w)
    /\ Forall (fun entry => ok (snd entry) = true /\ cache_enabled cfg = true) new.

(** Every response held by the storage is ok. *)
Definition caches_ok (cs : CacheStorage) : Prop :=
  Forall (fun named => Forall (fun entry => ok (snd entry) = true) (snd named)) cs.

(** ** Concrete inputs used by the examples *)

Definition empty_world : World :=
  {| caches := []; database := Some []; fetched := []; written := [] |}.

(** The element of the round-trip property, and a page that holds it. *)
Definition example_image : string :=
  q "<img data-defer src='a.png' width='10' height='10'>".

Definition example_page : Response :=
  {| status := 200; statusText := "OK";
     headers := [("Content-Type", "text/html")];
     body := "<p>" ++ example_image ++ "</p>" |}.

Definition page_request : Request :=
  {| url := "https://example.com/index.html"; origin := "https://example.com";
     hostname := "example.com"; pathname := "/index.html"; method := "GET";
     accept := Some "text/html,application/xhtml+xml"; save_data := None |}.

Definition logo_request : Request :=
  {| url := "https://example.com/logo.png"; origin := "https://example.com";
     hostname := "example.com"; pathname := "/logo.png"; method := "GET";
     accept := Some "image/png,image/*"; save_data := None |}.

Definition logo : Response :=
  {| status := 200; statusText := "OK"; headers := [("Content-Type", "image/png")];
     body := "PNG" |}.

(** A network that serves the page, and one that is down. *)
Definition page_network (address : string) : option Response :=
  if String.eqb address "https://example.com/index.html" then Some example_page else None.

Definition no_network (address : string) : option Response := None.

(** The default configuration with [cache.maxItems] set. *)
Definition config_with_maxItems (limit : nat) : Config := {|
  cache_enabled := true;
  cache_maxItems := Some limit;
  cache_noCacheItems := None;
  cache_noCachePatterns := None;
  prefetch_enabled := true;
  prefetch_items := None;
  saveDataItems := None;
  offline := None;
  defer_images_color := "#D8D8D8";
  defer_youtube_enabled := true;
  analytics_enabled := true;
  analytics_maxTime := 24 * 60 * 60 * 1000 |}.

Definition three_images : list (string * Response) :=
  [ ("https://example.com/a.png", logo); ("https://example.com/b.png", logo);
    ("https://example.com/c.png", logo) ].

(** ** Vocabulary of the replay property *)

(** The time a record has spent in the queue, and the URL its replay asks
    for. *)
Definition queue_time (now : Z) (request : RetryRecord) : Z := (now - timestamp request)%Z.

Definition replay_url (now : Z) (request : RetryRecord) : string :=
  record_url request ++ "&qt=" ++ string_of_Z (queue_time now request).

Definition expired (cfg : Config) (now : Z) (request : RetryRecord) : bool :=
  (queue_time now request >? analytics_maxTime cfg)%Z.

(** The replay was rejected by the network or answered with a status of 400
    or more. *)
Definition replay_failed (network : string -> option Response) (now : Z)
    (request : RetryRecord) : bool :=
  match network (replay_url now request) with
  | Some response => (400 <=? status response)%Z
  | None => true
  end.

Definition stays_queued (network : string -> option Response) (cfg : Config) (now : Z)
    (request : RetryRecord) : bool :=
  negb (expired cfg now request) && replay_failed network now request.

(** A beacon queued at time 0. *)
Definition queued_beacon : RetryRecord :=
  {| record_url := "https://www.google-analytics.com/collect?v=1&t=pageview";
     timestamp := 0 |}.

Definition world_with_queue (records : list RetryRecord) : World :=
  {| caches := []; database := Some records; fetched := []; written := [] |}.

(** The urls a replay of [records] deletes from the database. *)
Definition deleted_urls (network : string -> option Response) (cfg : Config) (now : Z)
    (records : list RetryRecord) : list string :=
  map record_url (filter (fun r => negb (stays_queued network cfg now r)) records).

(** Elements that lack a dimension, and one whose text holds a [$$]. *)
Definition image_without_height : string :=
  q "<img data-defer src='a.png' width='10'>".

Definition image_without_width : string :=
  q "<img data-defer src='a.png' height='10'>".

Definition image_with_dollars : string :=
  q "<img data-defer src='a$$b.png' width='10'>".

(** [lacks c s]: the character [c] does not occur in [s]. *)
Fixpoint lacks (c : ascii) (s : string) : bool :=
  match s with
  | EmptyString => true
  | String a rest => negb (Ascii.eqb a c) && lacks c rest
  end.

(** ** Proof automation *)

(** Closes [wf_value] and [NoDup] goals on concrete values. *)
Ltac solve_wf :=
  cbn; repeat split;
  repeat (apply NoDup_cons; [cbn; intuition discriminate|]); try apply NoDup_nil.

(** ** Vocabulary of the image property

    The attribute names of a start tag as HTML reads it, for stating which
    elements have a [width] or a [height] attribute: after the tag name come
    the attributes, separated by spaces, each a name, possibly followed by
    [=] and a value that is quoted or runs to the next space.  The source
    has no such reading: [setImage] searches the text of the element. *)

Inductive TagPart : Type :=
| InTagName
| BetweenAttributes
| InName (name : string)
| BeforeValue
| InQuotedValue
| InBareValue.

Fixpoint scan_attributes (part : TagPart) (s : string) : list string :=
  match s with
  | EmptyString => match part with InName name => [name] | _ => [] end
  | String c rest =>
      let space := Ascii.eqb c " " in
      let close := Ascii.eqb c ">" in
      match part with
      | InTagName =>
          if close then []
          else scan_attributes (if space then BetweenAttributes else InTagName) rest
      | BetweenAttributes =>
          if close then []
          else if space || Ascii.eqb c "/" then scan_attributes BetweenAttributes rest
          else scan_attributes (InName (String c "")) rest
      | InName name =>
          if close then [name]
          else if space || Ascii.eqb c "/" then name :: scan_attributes BetweenAttributes rest
          else if Ascii.eqb c "=" then name :: scan_attributes BeforeValue rest
          else scan_attributes (InName (name ++ String c "")) rest
      | BeforeValue =>
          if close then []
          else if space then scan_attributes BetweenAttributes rest
          else if Ascii.eqb c dquote then scan_attributes InQuotedValue rest
          else scan_attributes InBareValue rest
      | InQuotedValue =>
          scan_attributes (if Ascii.eqb c dquote then BetweenAttributes else InQuotedValue)
            rest
      | InBareValue =>
          if close then []
          else scan_attributes (if space then BetweenAttributes else InBareValue) rest
      end
  end.

Definition attribute_names (element : string) : list string :=
  scan_attributes InTagName (drop 1 element).

(** An element with a [data-width] attribute and no [width] attribute. *)
Definition image_with_data_width : string :=
  q "<img data-defer src='a.png' data-width='10' height='10'>".

(** The default configuration with caching disabled. *)
Definition config_without_cache : Config := {|
  cache_enabled := false;
  cache_maxItems := None;
  cache_noCacheItems := None;
  cache_noCachePatterns := None;
  prefetch_enabled := true;
  prefetch_items := None;
  saveDataItems := None;
  offline := None;
  defer_images_color := "#D8D8D8";
  defer_youtube_enabled := true;
  analytics_enabled := true;
  analytics_maxTime := 24 * 60 * 60 * 1000 |}.

(** An answer the server gives for a page that does not exist, a network that
    gives it, and an older copy of the example page. *)
Definition not_found_page : Response :=
  {| status := 404; statusText := "Not Found";
     headers := [("Content-Type", "text/html")];
     body := "<h1>Not Found</h1>" |}.

Definition not_found_network (address : string) : option Response := Some not_found_page.

Definition stale_page : Response :=
  {| status := 200; statusText := ""; headers := [("Content-Type", "text/html")];
     body := "<p>yesterday</p>" |}.

(** A request for the worker's own script, served from the web root as the
    README installs it. *)
Definition worker_script_request : Request :=
  {| url := "https://example.com/sw.min.js"; origin := "https://example.com";
     hostname := "example.com"; pathname := "/sw.min.js"; method := "GET";
     accept := Some "*/*"; save_data := None |}.

(** ** Activation *)

(** [caches.delete(name)]. *)
Definition caches_delete (name : string) (cs : CacheStorage) : CacheStorage :=
  filter (fun named => negb (String.eqb (fst named) name)) cs.

(** sw.js, [onActivate]: the cache names that do not start with the running
    version are deleted, one after the other. *)
Definition old_keys (running : string) (cs : CacheStorage) : list string :=
  filter (fun key => negb (indexOf key running =? 0)%Z) (caches_keys cs).

Definition purge (running : string) (cs : CacheStorage) : CacheStorage :=
  fold_left (fun acc oldKey => caches_delete oldKey acc) (old_keys running cs) cs.

Definition onActivate (cs : CacheStorage) : CacheStorage := purge version cs.

(** A request that Google Analytics collects, and a configuration that
    suppresses the fonts when data is to be saved. *)
Definition beacon_request : Request :=
  {| url := "https://www.google-analytics.com/collect?v=1&t=pageview";
     origin := "https://www.google-analytics.com";
     hostname := "www.google-analytics.com"; pathname := "/collect"; method := "POST";
     accept := Some "*/*"; save_data := None |}.

Definition fonts_request : Request :=
  {| url := "https://fonts.googleapis.com/css?family=Lato";
     origin := "https://fonts.googleapis.com";
     hostname := "fonts.googleapis.com"; pathname := "/css"; method := "GET";
     accept := Some "text/css"; save_data := Some "on" |}.

Definition config_saving_data : Config := {|
  cache_enabled := true;
  cache_maxItems := None;
  cache_noCacheItems := None;
  cache_noCachePatterns := None;
  prefetch_enabled := true;
  prefetch_items := None;
  saveDataItems := Some ["fonts.googleapis.com"];
  offline := None;
  defer_images_color := "#D8D8D8";
  defer_youtube_enabled := true;
  analytics_enabled := true;
  analytics_maxTime := 24 * 60 * 60 * 1000 |}.

(** ** Vocabulary of the rewriting properties *)

(** [starts_with ci pat s]: the text [pat] stands at the start of [s], letter
    case being ignored when [ci] is set; [search] gives the first position
    where it stands.  [every p s]: all characters of [s] satisfy [p]. *)
Fixpoint starts_with (ci : bool) (pat s : string) : bool :=
  match pat, s with
  | EmptyString, _ => true
  | String c pat', String a s' => char_matches ci c a && starts_with ci pat' s'
  | String _ _, EmptyString => false
  end.

Fixpoint search (ci : bool) (pat s : string) : option nat :=
  if starts_with ci pat s then Some 0
  else match s with
       | EmptyString => None
       | String _ s' => option_map S (search ci pat s')
       end.

Fixpoint every (p : ascii -> bool) (s : string) : bool :=
  match s with
  | EmptyString => true
  | String a rest => p a && every p rest
  end.

(** The characters of base64 text. *)
Definition is_base64 (c : ascii) : bool :=
  let n := nat_of_ascii c in
  (Nat.leb 65 n && Nat.leb n 90) || (Nat.leb 97 n && Nat.leb n 122)
  || (Nat.leb 48 n && Nat.leb n 57)
  || Nat.eqb n 43 || Nat.eqb n 47 || Nat.eqb n 61.

(** The search of a greedy repetition of one character test: the
    continuation is tried on what is left of [s] after the longest run of
    characters that pass the test first, then after shorter and shorter
    runs.  For [.{0,}] the test is [same_line]. *)
Fixpoint longest_run {A : Type} (p : ascii -> bool) (s : string)
    (k : string -> option A) : option A :=
  match s with
  | EmptyString => k EmptyString
  | String a rest =>
      if p a then
        match longest_run p rest k with
        | Some result => Some result
        | None => k s
        end
      else k s
  end.

Definition same_line (a : ascii) : bool := negb (is_line_terminator a).

(** The characters of a video id, as [deferYoutubeVideos] reads them. *)
Definition is_video_id_char (a : ascii) : bool :=
  class_matches true [("a"%char, "z"%char); ("0"%char, "9"%char); ("-"%char, "-"%char)] a.

(** The replacement of [deferYoutubeVideos] with its three references filled
    in: the attributes before [src], the video id, the attributes after. *)
Definition youtube_wrapper (attributes id rest : string) : string :=
  q "<div style='overflow:hidden;padding-top:56.25%;position:relative;'><iframe style='border:0;height:100%;left:0;position:absolute;top:0;width:100%;' "
  ++ attributes ++ q " src='https://www.youtube.com/embed/" ++ id
  ++ q "' srcdoc='<style>*{padding:0;margin:0;overflow:hidden}html,body{height:100%}img,span{position:absolute;width:100%;top:0;bottom:0;margin:auto}span{height:1.5em;text-align:center;font:48px/1.5 sans-serif;color:white;text-shadow:0 0 0.5em black}</style><a href=https://www.youtube.com/embed/"
  ++ id ++ "?autoplay=1><img src=https://img.youtube.com/vi/" ++ id
  ++ "/hqdefault.jpg><span>" ++ play_glyph ++ q "</span></a>' " ++ rest
  ++ "></iframe></div>".

(** ** Messages from the page, and the worker from event to event

    The worker keeps two things between events: its [config] object, which
    [setConfig] merges the page's configuration into, and the world.  What
    the functions read off the configuration object is given by [read],
    which the properties leave open: they hold however the object is read.
    The sections [cache], [prefetch] and [analytics] a handler reads before
    it starts a chain of promises are looked up in the object itself: when
    the section is [null] or [undefined] the read throws and the handler
    ends there.  The promise chains [setConfig] starts are run to their end
    one after the other, in the order it starts them; the answer to its
    request to open the database comes as an event of its own. *)

(** [event.data] of a message event. *)
Record Message : Type := {
  command : string;
  message_config : value;
  message_urls : list string }.

(** The worker's state: the [config] variable ([None] once a merge had no
    result in the model of values), the world, the messages posted to the
    clients, oldest first, each with the client it went to, and the number
    of requests to open the database that are not answered yet. *)
Record Worker : Type := {
  settings : option value;
  world : World;
  posted : list (string * string);
  opening : nat }.

(** The events the worker listens to, and the two events of a request to
    open the database. *)
Inductive Event : Type :=
| FetchEvent (now : Z) (request : Request)
| MessageEvent (now : Z) (data : Message)
| ActivateEvent
| OpenSuccess (now : Z)
| OpenError.

Definition nullish (v : value) : bool :=
  match v with
  | VUndefined | VNull => true
  | _ => false
  end.

(** [config = mergeDeep(config, newConfig)]. *)
Definition merged_settings (settings : option value) (newConfig : value) : option value :=
  match settings with
  | Some config => mergeDeep config newConfig
  | None => None
  end.

Section Messages.

Variable network : string -> option Response.

Variable self_origin : string.

(** The configuration the worker's functions read off the [config] object. *)
Variable read : option value -> Config.

(** For a [config] object beyond the model of values: whether its section
    of that name is [null] or [undefined] and, for the name
    [prefetch.items], whether these are a value [prefetch] cannot map
    over. *)
Variable beyond : string -> bool.

(** [self.clients.matchAll()]. *)
Variable clients : list string.

(** What the database [offline-analytics] holds when the worker opens it
    for the first time; its object store is keyed by url. *)
Variable stored : list RetryRecord.

(** Whether reading a property of [config.cache], [config.prefetch] or
    [config.analytics] throws: the section is [null] or [undefined]. *)
Definition missing (name : string) (settings : option value) : bool :=
  match settings with
  | Some config =>
      match property config name with
      | Own v => nullish v
      | Nothing => true
      | Method | ObjectPrototype => false
      end
  | None => beyond name
  end.

(** Whether [config.prefetch.items] is a value [prefetch] cannot map over:
    a truthy value that is no array. *)
Definition unmappable_items (settings : option value) : bool :=
  match settings with
  | Some config =>
      match property config "prefetch" with
      | Own section =>
          match property section "items" with
          | Own (VArray _) => false
          | Own v => truthy v
          | Method | ObjectPrototype => true
          | Nothing => false
          end
      | _ => false
      end
  | None => beyond "prefetch.items"
  end.

(** Whether [setConfig] throws once it has merged the configuration: in
    [trimCaches], which reads [config.cache.enabled]; at the test of
    [config.prefetch.enabled]; or in [prefetch], at [urls.map]. *)
Definition throws (merged : option value) : bool :=
  missing "cache" merged
  || missing "prefetch" merged
  || prefetch_enabled (read merged) && unmappable_items merged.

(** sw.js, [sendMessage]. *)
Definition sendMessage (message : string) (st : Worker) : Worker :=
  {| settings := settings st; world := world st;
     posted := posted st ++ map (fun client => (client, message)) clients;
     opening := opening st |}.

(** What [setConfig] tells the clients when it has merged a configuration:
    nothing when it throws, [isConfigured] each otherwise. *)
Definition told (merged : option value) : list (string * string) :=
  if throws merged then [] else map (fun client => (client, "isConfigured")) clients.

(** sw.js, [retryAnalyticsRequests] under the worker's [config]: when the
    section [analytics] is missing the callback throws at the first record
    it is given, and no record is replayed. *)
Definition replay (settings : option value) (now : Z) (w : World) : option World :=
  if missing "analytics" settings then
    match database w with
    | Some _ => Some w
    | None => None
    end
  else retryAnalyticsRequests network (read settings) now w.

(** sw.js, [openDatabase]: the request is made, and its handlers are set. *)
Definition openDatabase (st : Worker) : Worker :=
  {| settings := settings st; world := world st; posted := posted st;
     opening := S (opening st) |}.

(** sw.js, [openDatabase], [onsuccess] (after [onupgradeneeded], when the
    database is new): the database is kept in
    [globalConfig.analytics.database] and the queue is replayed. *)
Definition onsuccess (now : Z) (st : Worker) : Worker :=
  let w := world st in
  let opened :=
    {| caches := caches w;
       database := Some match database w with
                        | Some records => records
                        | None => stored
                        end;
       fetched := fetched w; written := written w |} in
  {| settings := settings st;
     world := match replay (settings st) now opened with
              | Some replayed => replayed
              | None => opened
              end;
     posted := posted st;
     opening := pred (opening st) |}.

(** sw.js, [openDatabase], [onerror]: the error is logged. *)
Definition onerror (st : Worker) : Worker :=
  {| settings := settings st; world := world st; posted := posted st;
     opening := pred (opening st) |}.

(** sw.js, [setConfig].  [trimCaches] throws when [config.cache] is missing,
    the test of [config.prefetch.enabled] when [config.prefetch] is, and
    [prefetch] when prefetching is enabled and [config.prefetch.items] is
    no array: what follows is not run. *)
Definition setConfig (newConfig : value) (st : Worker) : Worker :=
  let merged := merged_settings (settings st) newConfig in
  let cfg := read merged in
  let w := world st in
  if missing "cache" merged then
    {| settings := merged; world := w; posted := posted st; opening := opening st |}
  else
    let trimmed :=
      {| caches := trimCaches cfg (caches w); database := database w;
         fetched := fetched w; written := written w |} in
    if missing "prefetch" merged || prefetch_enabled cfg && unmappable_items merged then
      {| settings := merged; world := trimmed; posted := posted st;
         opening := opening st |}
    else
      let prefetched :=
        if prefetch_enabled cfg then
          match prefetch_items cfg with
          | Some items => prefetch network cfg items trimmed
          | None => trimmed
          end
        else trimmed in
      sendMessage "isConfigured"
        (openDatabase
           {| settings := merged; world := prefetched; posted := posted st;
              opening := opening st |}).

(** sw.js, [onMessage].  [prefetch] throws when [config.prefetch] is
    missing; a [reconnected] message that finds no database open throws in
    [getObjectStore]; nothing is done then. *)
Definition onMessage (now : Z) (data : Message) (st : Worker) : Worker :=
  if String.eqb (command data) "setConfig" then setConfig (message_config data) st
  else if String.eqb (command data) "prefetch" then
    if missing "prefetch" (settings st) then st
    else
      {| settings := settings st;
         world := prefetch network (read (settings st)) (message_urls data) (world st);
         posted := posted st; opening := opening st |}
  else if String.eqb (command data) "reconnected" then
    match replay (settings st) now (world st) with
    | Some replayed =>
        {| settings := settings st; world := replayed; posted := posted st;
           opening := opening st |}
    | None => st
    end
  else st.

(** The worker's answer to one event, and to a sequence of events.  In the
    fetch handler [shouldHandleFetch] reads [config.cache], and the test of
    [config.analytics.enabled] is reached by the requests that are neither
    answered to save data nor handled: the handler throws there when the
    section is missing, the world being as it was.  The event of a request
    to open the database comes only when a request is waiting for it. *)
Definition handle (event : Event) (st : Worker) : Worker :=
  match event with
  | FetchEvent now request =>
      let cfg := read (settings st) in
      if missing "cache" (settings st) then st
      else if negb (shouldSaveData cfg request)
              && negb (shouldHandleFetch self_origin cfg request)
              && missing "analytics" (settings st) then st
      else
        {| settings := settings st;
           world := snd (onFetch network self_origin cfg now request (world st));
           posted := posted st; opening := opening st |}
  | MessageEvent now data => onMessage now data st
  | ActivateEvent =>
      {| settings := settings st;
         world := {| caches := onActivate (caches (world st));
                     database := database (world st);
                     fetched := fetched (world st);
                     written := written (world st) |};
         posted := posted st; opening := opening st |}
  | OpenSuccess now => if Nat.eqb (opening st) 0 then st else onsuccess now st
  | OpenError => if Nat.eqb (opening st) 0 then st else onerror st
  end.

Definition run (events : list Event) (st : Worker) : Worker :=
  fold_left (fun st event => handle event st) events st.

End Messages.

(** The configurations of the [setConfig] messages among the events. *)
Definition configurations (events : list Event) : list value :=
  flat_map (fun event =>
              match event with
              | MessageEvent _ data =>
                  if String.eqb (command data) "setConfig" then [message_config data] else []
              | _ => []
              end) events.

(** The [config] object after each of these configurations was merged. *)
Fixpoint configured (configs : list value) (settings : option value)
  : list (option value) :=
  match configs with
  | [] => []
  | newConfig :: rest =>
      merged_settings settings newConfig
      :: configured rest (merged_settings settings newConfig)
  end.

(** A worker that has just started, with the default configuration. *)
Definition started : Worker :=
  {| settings := Some config_literal;
     world := {| caches := []; database := None; fetched := []; written := [] |};
     posted := []; opening := 0 |}.

(** The urls of the queue are pairwise distinct. *)
Definition distinct_urls (w : World) : Prop :=
  forall records, database w = Some records -> NoDup (map record_url records).

(** ** The page side: which links are offered for prefetching (swTools.js)

    A link as the page script reads it: its resolved address, its [target]
    (empty when it has none) and the names of its attributes; and the
    address of the page. *)

Record Link : Type := {
  link_href : string;
  link_target : string;
  link_attributes : list string }.

Record Location : Type := {
  location_origin : string;
  location_href : string }.

(** swTools.js, [isPrefetchable]. *)
Definition isPrefetchable (location : Location) (link : Link) : bool :=
  if negb (0 =? indexOf (link_href link) (location_origin location))%Z
     || String.eqb (link_href link) (location_href location)
     || existsb (String.eqb "data-no-prefetch") (link_attributes link)
     || (Z.of_nat (String.length (location_href location)) =? indexOf (link_href link) "#")%Z
     || negb (String.eqb (link_target link) "")
     || existsb (String.eqb "download") (link_attributes link)
  then false
  else true.

Open Scope list_scope.

(* ================================================================== *)
(** * Part II: theorems *)
(* ================================================================== *)

Lemma mergeDeep_objects (target source : value) :
  isObject target = true -> isObject source = true ->
  mergeDeep target source
  = match mergeKeys (props_of source) (is_bare target, props_of target) with
    | Some (bare, t) => Some (object bare t)
    | None => None
    end.
Proof.
  intros Htarget Hsource.
  assert (forall s bare t,
            (fix each (s : list (string * value)) (bare : bool)
                 (t : list (string * value)) {struct s} : option value :=
               match s with
               | [] => Some (object bare t)
               | (key, sv) :: s' =>
                   match
                     (if isObject sv then
                        match
                          (if found_truthy (get bare t key) then Some (bare, t)
                           else assign bare t key (VObject []))
                        with
                        | Some (bare1, t1) =>
                            match get bare1 t1 key with
                            | Own v =>
                                match mergeDeep v sv with
                                | Some merged => Some (bare1, update t1 key merged)
                                | None => None
                                end
                            | ObjectPrototype =>
                                match props_of sv with
                                | [] => Some (bare1, t1)
                                | _ :: _ => None
                                end
                            | Method | Nothing => Some (bare1, t1)
                            end
                        | None => None
                        end
                      else assign bare t key sv)
                   with
                   | Some (bare', t') => each s' bare' t'
                   | None => None
                   end
               end) s bare t
            = match mergeKeys s (bare, t) with
              | Some (bare, t) => Some (object bare t)
              | None => None
              end) as Hloop.
  { induction s as [|[key sv] s IH]; intros bare t; [reflexivity|].
    cbn [mergeKeys]. unfold mergeKey at 1.
    destruct (if isObject sv then _ else _) as [[bare' t']|]; [apply IH | reflexivity]. }
  destruct source as [ | | | | | | s | s]; try discriminate;
    cbn [mergeDeep props_of]; rewrite Htarget; apply Hloop.
Qed.

(** ** Structural facts about property lists *)

Section PropertyLists.

Implicit Types (t : list (string * value)) (k : string) (v : value).

Lemma own_in_keys t k : own t k <> None <-> In k (map fst t).
Proof.
  induction t as [|[k0 v0] t IH]; cbn; [tauto|].
  destruct (String.eqb_spec k0 k) as [->|Hne]; [intuition congruence|].
  rewrite IH. intuition congruence.
Qed.

Lemma own_none t k : own t k = None <-> ~ In k (map fst t).
Proof.
  rewrite <- own_in_keys. destruct (own t k); intuition congruence.
Qed.

Lemma own_update_same t k v : own t k <> None -> own (update t k v) k = Some v.
Proof.
  induction t as [|[k0 v0] t IH]; cbn; [congruence|].
  destruct (String.eqb k0 k) eqn:E; cbn; rewrite E; auto.
Qed.

Lemma own_update_other t k k' v : k <> k' -> own (update t k v) k' = own t k'.
Proof.
  intros Hne. induction t as [|[k0 v0] t IH]; cbn; [reflexivity|].
  destruct (String.eqb_spec k0 k) as [->|Hk]; cbn.
  - destruct (String.eqb_spec k k'); congruence.
  - destruct (String.eqb_spec k0 k'); congruence.
Qed.

Lemma own_insert_same t k v : own t k = None -> own (insert t k v) k = Some v.
Proof.
  induction t as [|[k0 v0] t IH]; cbn.
  - now rewrite String.eqb_refl.
  - destruct (String.eqb k0 k) eqn:E; [discriminate|]. intros Hnone.
    destruct (listed_before k k0); cbn; [now rewrite String.eqb_refl|].
    rewrite E. auto.
Qed.

Lemma own_insert_other t k k' v : k <> k' -> own (insert t k v) k' = own t k'.
Proof.
  intros Hne. induction t as [|[k0 v0] t IH]; cbn.
  - destruct (String.eqb_spec k k'); congruence.
  - destruct (listed_before k k0); cbn.
    + destruct (String.eqb_spec k k'); congruence.
    + destruct (String.eqb_spec k0 k'); congruence.
Qed.


Lemma keys_update t k v : map fst (update t k v) = map fst t.
Proof.
  induction t as [|[k0 v0] t IH]; cbn; [reflexivity|].
  destruct (String.eqb k0 k); cbn; congruence.
Qed.

Lemma keys_insert t k v (keep : string -> bool) :
  keep k = false ->
  filter keep (map fst (insert t k v)) = filter keep (map fst t).
Proof.
  intros Hk. induction t as [|[k0 v0] t IH]; cbn; [now rewrite Hk|].
  destruct (listed_before k k0); cbn; [now rewrite Hk|].
  now rewrite IH.
Qed.

Lemma in_keys_insert t k k' v :
  In k' (map fst (insert t k v)) <-> k' = k \/ In k' (map fst t).
Proof.
  induction t as [|[k0 v0] t IH]; cbn; [intuition congruence|].
  destruct (listed_before k k0); cbn; [intuition congruence|].
  rewrite IH. intuition congruence.
Qed.

End PropertyLists.

(** ** [mergeDeep]: what one merge does to each property *)

Lemma truthy_object (bare : bool) (t : list (string * value)) :
  truthy (object bare t) = true /\ isObject (object bare t) = true
  /\ is_bare (object bare t) = bare /\ props_of (object bare t) = t.
Proof. destruct bare; repeat split. Qed.

(** A merge returns its target, changed or not: an object stays an object,
    and anything else stays what it is. *)
Lemma mergeDeep_kind (target source merged : value) :
  mergeDeep target source = Some merged ->
  isObject merged = isObject target /\ truthy merged = truthy target
  /\ (isObject target = false \/ isObject source = false -> merged = target).
Proof.
  destruct (isObject target) eqn:Htarget; destruct (isObject source) eqn:Hsource.
  - rewrite (mergeDeep_objects _ _ Htarget Hsource).
    destruct (mergeKeys _ _) as [[bare t]|]; [|discriminate]. intros [= <-].
    destruct (truthy_object bare t) as (-> & -> & _).
    split; [reflexivity|]. split; [now destruct target | intros [H|H]; discriminate].
  - destruct source; try discriminate; intros [= <-]; auto.
  - destruct source; cbn [mergeDeep]; rewrite ?Htarget; intros [= <-]; auto.
  - destruct source; cbn [mergeDeep]; rewrite ?Htarget; intros [= <-]; auto.
Qed.

Lemma isObject_truthy (v : value) : isObject v = true -> truthy v = true.
Proof. destruct v; cbn; congruence. Qed.

(** Names other than [__proto__] are ordinary: [target[key]] finds the own
    property or, in an object that inherits them, a function of
    [Object.prototype]; setting [target[key]] sets or makes an own
    property. *)
Lemma get_ordinary (bare : bool) (t : list (string * value)) (key : string) :
  key <> "__proto__" ->
  get bare t key
  = match own t key with
    | Some v => Own v
    | None => if negb bare && inherited key then Method else Nothing
    end.
Proof.
  intros Hkey. unfold get. destruct (own t key); [reflexivity|].
  destruct bare; [reflexivity|]. apply String.eqb_neq in Hkey. now rewrite Hkey.
Qed.

Lemma assign_ordinary (bare : bool) (t : list (string * value)) (key : string)
    (v : value) :
  key <> "__proto__" ->
  assign bare t key v
  = Some (bare, match own t key with
                | Some _ => update t key v
                | None => insert t key v
                end).
Proof.
  intros Hkey. unfold assign. destruct (own t key); [reflexivity|].
  apply String.eqb_neq in Hkey. now rewrite Hkey, andb_false_r.
Qed.
(** ** Induction over values, through property lists and arrays *)




(** ** A merged target is a fixed point of the merge

    What the iteration for [key] leaves at [key] depends on the own property
    it finds there only; when the property is as an iteration for [key]
    leaves it, another iteration changes nothing. *)





(** ** Idempotence of the configuration merge *)



(** ** What the merge does at each key of the override *)

(** C8. The claim holds of the code except where it says that a mapping in
    the override replaces a scalar of the base: merging [{a: {b: 1}}] into
    [{a: 5}] leaves [a] at [5], the override value is dropped.  The test
    [!target[key]] sees a value, no empty mapping is put in its place, and
    the recursive call finds no object to merge into.  A falsy scalar is
    replaced, and so is any scalar by an override value that is no mapping,
    an array or a scalar. *)
Lemma mergeDeep_scalar_base_kept :
  mergeDeep (VObject [("a", VNumber 5)]) (VObject [("a", VObject [("b", VNumber 1)])])
  = Some (VObject [("a", VNumber 5)])
  /\ mergeDeep (VObject [("a", VNumber 0)]) (VObject [("a", VObject [("b", VNumber 1)])])
     = Some (VObject [("a", VObject [("b", VNumber 1)])])
  /\ mergeDeep (VObject [("a", VNumber 5)]) (VObject [("a", VArray [VNumber 1])])
     = Some (VObject [("a", VArray [VNumber 1])])
  /\ mergeDeep (VObject [("a", VNumber 5)]) (VObject [("a", VString "b")])
     = Some (VObject [("a", VString "b")]).
Proof. repeat split. Qed.

Lemma assign_step (bare bare' : bool) (t t' : list (string * value)) (key : string)
    (v : value) :
  assign bare t key v = Some (bare', t') ->
  (forall k, key <> k -> own t' k = own t k)
  /\ (key <> "__proto__" -> bare' = bare)
  /\ (forall keep : string -> bool,
        (keep key = true -> own t key <> None) ->
        filter keep (map fst t') = filter keep (map fst t)).
Proof.
  unfold assign. destruct (own t key) eqn:Hown.
  - intros [= <- <-]. split; [intros k Hk; now apply own_update_other|].
    split; [reflexivity|]. intros keep _. now rewrite keys_update.
  - destruct (negb bare && String.eqb key "__proto__") eqn:Hsetter.
    + apply andb_true_iff in Hsetter as [_ Hkey]. apply String.eqb_eq in Hkey.
      destruct v; intros [= <- <-]; (split; [reflexivity|]);
        (split; [congruence | reflexivity]).
    + intros [= <- <-]. split; [intros k Hk; now apply own_insert_other|].
      split; [reflexivity|]. intros keep Hkeep. apply keys_insert.
      destruct (keep key); [now contradiction Hkeep | reflexivity].
Qed.

(** One iteration touches the property named [key] and no other, changes
    the prototype only for the name [__proto__], and keeps the own
    properties in their order. *)
Lemma mergeKey_step (bare bare' : bool) (t t' : list (string * value)) (key : string)
    (sv : value) :
  mergeKey (bare, t) (key, sv) = Some (bare', t') ->
  (forall k, key <> k -> own t' k = own t k)
  /\ (key <> "__proto__" -> bare' = bare)
  /\ (forall keep : string -> bool,
        (keep key = true -> own t key <> None) ->
        filter keep (map fst t') = filter keep (map fst t)).
Proof.
  unfold mergeKey. destruct (isObject sv); [|apply assign_step].
  destruct (if found_truthy (get bare t key) then Some (bare, t)
            else assign bare t key (VObject [])) as [[bare1 t1]|] eqn:Hfirst;
    [|discriminate].
  assert ((forall k, key <> k -> own t1 k = own t k)
          /\ (key <> "__proto__" -> bare1 = bare)
          /\ (forall keep : string -> bool,
                (keep key = true -> own t key <> None) ->
                filter keep (map fst t1) = filter keep (map fst t))) as (Hown & Hbare & Hkeys).
  { destruct (found_truthy (get bare t key)); [|now apply assign_step in Hfirst].
    injection Hfirst as <- <-. auto. }
  destruct (get bare1 t1 key) as [v| | |].
  - destruct (mergeDeep v sv) as [merged|]; [|discriminate]. intros [= <- <-].
    split; [intros k Hk; rewrite own_update_other by assumption; now apply Hown|].
    split; [exact Hbare|]. intros keep Hkeep. rewrite keys_update. now apply Hkeys.
  - intros [= <- <-]. auto.
  - destruct (props_of sv); [|discriminate]. intros [= <- <-]. auto.
  - intros [= <- <-]. auto.
Qed.

Lemma mergeKeys_step (s : list (string * value)) :
  forall bare bare' t t',
  mergeKeys s (bare, t) = Some (bare', t') ->
  (forall k, ~ In k (map fst s) -> own t' k = own t k)
  /\ (~ In "__proto__" (map fst s) -> bare' = bare)
  /\ (forall keep : string -> bool,
        (forall k, keep k = true -> own t k <> None) ->
        filter keep (map fst t') = filter keep (map fst t)).
Proof.
  induction s as [|[key sv] s IH]; intros bare bare' t t'; cbn [mergeKeys].
  - intros [= <- <-]. auto.
  - destruct (mergeKey (bare, t) (key, sv)) as [[bare1 t1]|] eqn:Hstep; [|discriminate].
    intros Hrun. destruct (mergeKey_step _ _ _ _ _ _ Hstep) as (Hown1 & Hbare1 & Hkeys1).
    destruct (IH _ _ _ _ Hrun) as (Hown & Hbare & Hkeys). cbn [map fst In].
    split; [intros k Hk; rewrite Hown by tauto; apply Hown1; tauto|].
    split; [intros Hplain; rewrite Hbare by tauto; apply Hbare1; intros ->; tauto|].
    intros keep Hkeep. rewrite Hkeys, Hkeys1; [reflexivity | now auto |].
    intros k Hk. destruct (string_dec key k) as [<-|Hne].
    + pose proof (Hkeep key Hk) as Hheld. apply own_in_keys.
      assert (In key (filter keep (map fst t1))) as Hin.
      { rewrite Hkeys1 by (intros _; exact Hheld). apply filter_In.
        split; [now apply own_in_keys | exact Hk]. }
      now apply filter_In in Hin.
    + rewrite Hown1 by assumption. now apply Hkeep.
Qed.

(** What one iteration leaves at its key, for a name other than
    [__proto__]. *)
Lemma mergeKey_at (bare bare' : bool) (t t' : list (string * value)) (key : string)
    (sv : value) :
  key <> "__proto__" ->
  mergeKey (bare, t) (key, sv) = Some (bare', t') ->
  (isObject sv = false -> own t' key = Some sv)
  /\ (isObject sv = true -> forall base,
        own t key = Some base -> truthy base = true ->
        exists m, mergeDeep base sv = Some m /\ own t' key = Some m)
  /\ (isObject sv = true ->
        (exists base, own t key = Some base /\ truthy base = false)
        \/ (own t key = None /\ (bare = true \/ inherited key = false)) ->
        exists m, mergeDeep (VObject []) sv = Some m /\ own t' key = Some m)
  /\ (isObject sv = true -> own t key = None -> bare = false -> inherited key = true ->
        own t' key = None).
Proof.
  intros Hkey. unfold mergeKey. destruct (isObject sv).
  - assert (forall t0 held,
              own t0 key = Some held ->
              match get bare t0 key with
              | Own v =>
                  match mergeDeep v sv with
                  | Some merged => Some (bare, update t0 key merged)
                  | None => None
                  end
              | ObjectPrototype =>
                  match props_of sv with
                  | [] => Some (bare, t0)
                  | _ :: _ => None
                  end
              | Method | Nothing => Some (bare, t0)
              end = Some (bare', t') ->
              exists m, mergeDeep held sv = Some m /\ own t' key = Some m) as Hmerge.
    { intros t0 held Hown. rewrite (get_ordinary _ _ _ Hkey), Hown.
      destruct (mergeDeep held sv) as [m|]; [|discriminate]. intros [= <- <-].
      exists m. split; [reflexivity|]. apply own_update_same. congruence. }
    rewrite (get_ordinary _ _ _ Hkey). destruct (own t key) as [held|] eqn:Hown.
    + cbn [found_truthy]. destruct (truthy held) eqn:Htruthy.
      * intros Hrun. split; [discriminate|]. split.
        -- intros _ base [= <-] _. now apply (Hmerge t held).
        -- split; [|discriminate].
           intros _ [(base & [= <-] & Hfalsy)|[Hnone _]]; congruence.
      * rewrite (assign_ordinary _ _ _ _ Hkey), Hown. intros Hrun.
        apply (Hmerge _ (VObject [])) in Hrun; [|apply own_update_same; congruence].
        split; [discriminate|]. split; [intros _ base [= <-]; congruence|].
        split; [auto | discriminate].
    + destruct (negb bare && inherited key) eqn:Hmethod; cbn [found_truthy].
      * rewrite (get_ordinary _ _ _ Hkey), Hown, Hmethod. intros [= <- <-].
        apply andb_true_iff in Hmethod as [Hbare Hinherited].
        apply negb_true_iff in Hbare.
        split; [discriminate|]. split; [discriminate|]. split; [|auto].
        intros _ [(base & Hbase & _)|[_ [H|H]]]; congruence.
      * rewrite (assign_ordinary _ _ _ _ Hkey), Hown. intros Hrun.
        apply (Hmerge _ (VObject [])) in Hrun; [|now apply own_insert_same].
        split; [discriminate|]. split; [discriminate|]. split; [auto|].
        intros _ _ -> Hinherited. rewrite Hinherited in Hmethod. discriminate.
  - rewrite (assign_ordinary _ _ _ _ Hkey). intros [= <- <-].
    split; [|split; [discriminate | split; discriminate]].
    intros _. destruct (own t key) eqn:Hown;
      [apply own_update_same; congruence | now apply own_insert_same].
Qed.
(** X30. What a merge leaves at each key of the override, for an override
    that names no [__proto__].  A value that is no mapping (a scalar,
    [null], an array) replaces what the target holds, arrays wholesale.  A
    mapping is merged into a mapping the target holds; it is merged into a
    fresh empty mapping when the target holds a falsy value or nothing; it
    is dropped when the target holds a truthy value that is no mapping (a
    number, a text, an array), which stays; and it is dropped when the
    target holds nothing under a name that it inherits from
    [Object.prototype] ([constructor], [toString], ...): the target gets no
    property of that name. *)
Theorem mergeDeep_at_key (target override merged : value) (key : string) (sv : value) :
  isObject target = true -> isObject override = true ->
  NoDup (map fst (props_of override)) ->
  ~ In "__proto__" (map fst (props_of override)) ->
  In (key, sv) (props_of override) ->
  mergeDeep target override = Some merged ->
  let held := own (props_of target) key in
  let result := own (props_of merged) key in
  (isObject sv = false -> result = Some sv)
  /\ (isObject sv = true -> forall base,
        held = Some base -> isObject base = true ->
        exists m, mergeDeep base sv = Some m /\ result = Some m)
  /\ (isObject sv = true -> forall base,
        held = Some base -> truthy base = true -> isObject base = false ->
        result = Some base)
  /\ (isObject sv = true ->
        (exists base, held = Some base /\ truthy base = false)
        \/ (held = None /\ (is_bare target = true \/ inherited key = false)) ->
        exists m, mergeDeep (VObject []) sv = Some m /\ result = Some m)
  /\ (isObject sv = true -> held = None -> is_bare target = false ->
        inherited key = true -> result = None).
Proof.
  intros Htarget Hoverride Hnd Hplain Hin.
  rewrite (mergeDeep_objects _ _ Htarget Hoverride).
  destruct (mergeKeys _ _) as [[bare' t']|] eqn:Hrun; [|discriminate].
  intros [= <-]. destruct (truthy_object bare' t') as (_ & _ & _ & ->).
  revert Hrun. generalize (props_of target) as t. generalize (is_bare target) as bare.
  induction (props_of override) as [|[k0 v0] s IH]; [destruct Hin|].
  intros bare t. cbn [mergeKeys].
  destruct (mergeKey (bare, t) (k0, v0)) as [[bare1 t1]|] eqn:Hstep; [|discriminate].
  intros Hrun. cbn [map fst] in Hnd, Hplain. apply NoDup_cons_iff in Hnd as [Hfresh Hnd].
  assert (k0 <> "__proto__") as Hk0 by (intros ->; apply Hplain; now left).
  destruct (mergeKey_step _ _ _ _ _ _ Hstep) as (Hown1 & Hbare1 & _).
  specialize (Hbare1 Hk0). subst bare1.
  destruct Hin as [[= -> ->]|Hin].
  - destruct (mergeKeys_step _ _ _ _ _ Hrun) as (Hown & _ & _).
    cbn zeta. rewrite (Hown key Hfresh).
    destruct (mergeKey_at _ _ _ _ _ _ Hk0 Hstep) as (Hscalar & Htruthy & Hfalsy & Hmethod).
    split; [exact Hscalar|]. split.
    { intros Hsv base Hheld Hbase. apply (Htruthy Hsv base Hheld).
      now apply isObject_truthy. }
    split.
    { intros Hsv base Hheld Hbase Hscalar'.
      destruct (Htruthy Hsv base Hheld Hbase) as (m & Hm & ->).
      destruct (mergeDeep_kind _ _ _ Hm) as (_ & _ & Hsame). now rewrite Hsame by auto. }
    split; [exact Hfalsy | exact Hmethod].
  - assert (k0 <> key) as Hne.
    { intros ->. apply Hfresh. now apply (in_map fst) in Hin. }
    specialize (IH Hnd (fun H => Hplain (or_intror H)) Hin bare t1 Hrun).
    cbn zeta in *. now rewrite (Hown1 key Hne) in IH.
Qed.

Lemma mergeDeep_at_key_witness :
  own (props_of (VObject [("constructor", VNumber 1); ("defer", VNumber 1)])) "defer"
  = Some (VNumber 1)
  /\ exists merged,
       mergeDeep (VObject [("constructor", VNumber 1); ("defer", VNumber 1)])
         (VObject [("defer", VObject [("images", VNull)])])
       = Some merged
       /\ own (props_of merged) "defer" = Some (VNumber 1).
Proof.
  split; [reflexivity|]. eexists. split; [reflexivity|].
  destruct (mergeDeep_at_key
              (VObject [("constructor", VNumber 1); ("defer", VNumber 1)])
              (VObject [("defer", VObject [("images", VNull)])])
              (VObject [("constructor", VNumber 1); ("defer", VNumber 1)])
              "defer" (VObject [("images", VNull)]) eq_refl eq_refl)
    as (_ & _ & Hkept & _).
  - solve_wf.
  - cbn. intuition discriminate.
  - now left.
  - reflexivity.
  - exact (Hkept eq_refl (VNumber 1) eq_refl eq_refl eq_refl).
Defined.

(** X17. A merge never takes a property away and never reorders: when
    the target is no object, or the override is no object (the page sent no
    configuration, or an array, or a scalar) or has no property, the target
    is returned as it is; otherwise the own properties of the target are
    own properties of the result, in their order, with new properties among
    them; a property the override does not name keeps its value; and the
    prototype stays what it was unless the override names [__proto__]. *)
Theorem mergeDeep_keeps_the_rest (target source : value) :
  (isObject target = false \/ isObject source = false \/ props_of source = [] ->
   mergeDeep target source = Some target)
  /\ (forall merged,
        isObject target = true -> mergeDeep target source = Some merged ->
        isObject merged = true
        /\ filter (fun k => existsb (String.eqb k) (map fst (props_of target)))
             (map fst (props_of merged))
           = map fst (props_of target)
        /\ (forall k, ~ In k (map fst (props_of source)) ->
              own (props_of merged) k = own (props_of target) k)
        /\ (~ In "__proto__" (map fst (props_of source)) ->
            is_bare merged = is_bare target)).
Proof.
  split.
  - intros [Htarget|[Hsource|Hempty]].
    + destruct source; cbn [mergeDeep]; now rewrite ?Htarget.
    + destruct source; try discriminate; reflexivity.
    + destruct (isObject target) eqn:Htarget;
        [|destruct source; cbn [mergeDeep]; now rewrite ?Htarget].
      destruct source; try reflexivity; cbn [props_of] in Hempty; subst;
        cbn [mergeDeep]; rewrite Htarget; now destruct target.
  - intros merged Htarget Hrun.
    destruct (mergeDeep_kind _ _ _ Hrun) as (Hobj & _ & Hsame).
    rewrite Htarget in Hobj. split; [exact Hobj|].
    destruct (isObject source) eqn:Hsource; [|rewrite Hsame by auto].
    + rewrite (mergeDeep_objects _ _ Htarget Hsource) in Hrun.
      destruct (mergeKeys _ _) as [[bare' t']|] eqn:Hkeys; [|discriminate].
      injection Hrun as <-. destruct (truthy_object bare' t') as (_ & _ & -> & ->).
      destruct (mergeKeys_step _ _ _ _ _ Hkeys) as (Hown & Hbare & Hfilter).
      split; [|split; [exact Hown | exact Hbare]].
      rewrite Hfilter.
      * apply forallb_filter_id. apply forallb_forall. intros k Hk.
        apply existsb_exists. exists k. split; [exact Hk | apply String.eqb_refl].
      * intros k Hk. apply own_in_keys. apply existsb_exists in Hk as (k' & Hin & Heq).
        apply String.eqb_eq in Heq. now subst.
    + split; [|split; reflexivity].
      apply forallb_filter_id. apply forallb_forall. intros k Hk.
      apply existsb_exists. exists k. split; [exact Hk | apply String.eqb_refl].
Qed.

(** ** The rewriting stages build a fresh response *)

Lemma new_Response_ok (text : string) (hs : list (string * string)) :
  status (new_Response text hs) = 200%Z /\ ok (new_Response text hs) = true.
Proof. split; reflexivity. Qed.

(** C10. Whatever response they are given, [deferImages] and
    [deferYoutubeVideos] return a newly constructed response whose status is
    200: the status of the input (a 404 or a 500, say) is discarded, and the
    rewrite step of the content flow always hands on an ok response. *)
Theorem rewriting_discards_status (cfg : Config) (response : Response) :
  status (deferImages cfg response) = 200%Z /\
  status (deferYoutubeVideos cfg response) = 200%Z /\
  ok (deferImages cfg response) = true /\
  ok (deferYoutubeVideos cfg response) = true /\
  ok (deferYoutubeVideos cfg (deferImages cfg response)) = true.
Proof.
  unfold deferImages, deferYoutubeVideos.
  destruct (new_Response_ok (changeImages cfg (body response)) (headers response))
    as [Hstatus Hok].
  split; [exact Hstatus|]. split; [apply new_Response_ok|].
  split; [exact Hok|]. split; apply new_Response_ok.
Qed.

Example rewriting_makes_not_found_ok :
  let not_found :=
    {| status := 404; statusText := "Not Found"; headers := []; body := "<h1>gone</h1>" |} in
  ok not_found = false /\
  deferYoutubeVideos config (deferImages config not_found)
  = {| status := 200; statusText := "";
       headers := [("content-type", "text/plain;charset=UTF-8")];
       body := "<h1>gone</h1>" |}.
Proof. split; vm_compute; reflexivity. Qed.

(** ** Facts about the cache storage *)

Lemma cache_match_delete_same (key : string) (c : Cache) :
  cache_match key (cache_delete key c) = None.
Proof.
  induction c as [|[k r] c IH]; cbn; [reflexivity|].
  destruct (String.eqb_spec k key) as [->|Hne]; cbn; [exact IH|].
  destruct (String.eqb_spec k key); [contradiction | exact IH].
Qed.

Lemma cache_match_app (key : string) (c1 c2 : Cache) :
  cache_match key (c1 ++ c2) =
  match cache_match key c1 with
  | Some r => Some r
  | None => cache_match key c2
  end.
Proof.
  induction c1 as [|[k r] c1 IH]; cbn; [reflexivity|].
  destruct (String.eqb k key); [reflexivity | exact IH].
Qed.

Lemma cache_match_put_same (key : string) (r : Response) (c : Cache) :
  cache_match key (cache_put key r c) = Some r.
Proof.
  unfold cache_put. rewrite cache_match_app, cache_match_delete_same.
  cbn. now rewrite String.eqb_refl.
Qed.

Lemma caches_open_update (name : string) (f : Cache -> Cache) (cs : CacheStorage) :
  caches_open name (caches_update name f cs) = f (caches_open name cs).
Proof.
  induction cs as [|[n c] cs IH]; cbn.
  - now rewrite String.eqb_refl.
  - destruct (String.eqb n name) eqn:E; cbn; rewrite E; [reflexivity | exact IH].
Qed.

Lemma caches_open_update_other (name other : string) (f : Cache -> Cache)
    (cs : CacheStorage) :
  name <> other ->
  caches_open other (caches_update name f cs) = caches_open other cs.
Proof.
  intros Hne. induction cs as [|[n c] cs IH]; cbn.
  - destruct (String.eqb_spec name other); [contradiction | reflexivity].
  - destruct (String.eqb_spec n name) as [->|Hn]; cbn.
    + destruct (String.eqb_spec name other); [contradiction | reflexivity].
    + destruct (String.eqb n other); [reflexivity | exact IH].
Qed.

(** ** The eligibility check *)

Lemma existsb_false_iff {A : Type} (f : A -> bool) (l : list A) :
  existsb f l = false <-> forall x, In x l -> f x = false.
Proof.
  induction l as [|a l IH]; cbn.
  - split; [intros _ x [] | reflexivity].
  - rewrite orb_false_iff, IH. split.
    + intros [Ha Hl] x [<-|Hx]; auto.
    + intros H. split; [apply H; now left | intros x Hx; apply H; now right].
Qed.

Lemma no_failing_criterion (cs : list (string * bool)) :
  Nat.eqb (List.length (filter (fun criterion => negb (snd criterion)) cs)) 0 = true
  <-> forall name value, In (name, value) cs -> value = true.
Proof.
  induction cs as [|[n v] cs IH]; cbn [filter snd].
  - split; [intros _ ? ? [] | reflexivity].
  - destruct v; cbn [negb].
    + rewrite IH. split.
      * intros H name value [Heq|Hin]; [congruence | eauto].
      * intros H name value Hin. apply (H name). now right.
    + split; [discriminate|]. intros H. specialize (H n false (or_introl eq_refl)).
      discriminate.
Qed.

(** The paths [new URL] gives for http(s) requests start with a slash; on
    those the first criterion always holds. *)
Lemma script_criterion_on_rooted_paths (path rest : string) :
  path = String "/" rest -> negb (String.eqb "sw.min.js" path) = true.
Proof. intros ->. reflexivity. Qed.

(** X2. [shouldHandleFetch] answers true exactly when every criterion of the
    source holds: the path is not the text ['sw.min.js'], the method is GET,
    the origin is the worker's origin, the path matches none of the
    configured [noCachePatterns], and the path is not one of the configured
    [noCacheItems]; a single criterion that fails disqualifies the request. *)
Theorem shouldHandleFetch_iff (self_origin : string) (cfg : Config) (request : Request) :
  shouldHandleFetch self_origin cfg request = true <->
  pathname request <> "sw.min.js"
  /\ method request = "GET"
  /\ origin request = self_origin
  /\ (forall patterns, cache_noCachePatterns cfg = Some patterns ->
        forall p, In p patterns -> test p (pathname request) = false)
  /\ (forall items, cache_noCacheItems cfg = Some items ->
        ~ In (pathname request) items).
Proof.
  unfold shouldHandleFetch. rewrite no_failing_criterion. unfold criteria. split.
  - intros H.
    assert (forall name value,
              In (name, value)
                [("isSWjs", negb (String.eqb "sw.min.js" (pathname request)));
                 ("isGETRequest", String.eqb "GET" (method request));
                 ("isFromMyOrigin", String.eqb (origin request) self_origin)] ->
              value = true) as Hfixed.
    { intros name value Hin. apply (H name). apply in_or_app. now left. }
    split; [|split; [|split; [|split]]].
    + specialize (Hfixed _ _ (or_introl eq_refl)).
      apply negb_true_iff in Hfixed. intros Heq. rewrite Heq in Hfixed.
      discriminate.
    + specialize (Hfixed _ _ (or_intror (or_introl eq_refl))).
      apply String.eqb_eq in Hfixed. now symmetry.
    + specialize (Hfixed _ _ (or_intror (or_intror (or_introl eq_refl)))).
      now apply String.eqb_eq in Hfixed.
    + intros patterns Hcfg. rewrite Hcfg in H.
      apply (existsb_false_iff (fun p => test p (pathname request))).
      apply negb_true_iff. apply (H "matchesPathPattern").
      apply in_or_app. right. apply in_or_app. left. now left.
    + intros items Hcfg Hin. rewrite Hcfg in H.
      assert (negb (existsb (String.eqb (pathname request)) items) = true) as Hitems.
      { apply (H "isNoCacheItem"). apply in_or_app. right. apply in_or_app. right.
        now left. }
      apply negb_true_iff in Hitems.
      rewrite existsb_false_iff in Hitems. specialize (Hitems _ Hin).
      now rewrite String.eqb_refl in Hitems.
  - intros (Hpath & Hmethod & Horigin & Hpatterns & Hitems) name value Hin.
    apply in_app_or in Hin as [Hin|Hin]; [|apply in_app_or in Hin as [Hin|Hin]].
    + destruct Hin as [Heq|[Heq|[Heq|[]]]]; injection Heq as <- <-.
      * change (negb (String.eqb "sw.min.js" (pathname request)) = true).
        apply negb_true_iff. apply String.eqb_neq. congruence.
      * rewrite Hmethod. reflexivity.
      * rewrite Horigin. apply String.eqb_refl.
    + destruct (cache_noCachePatterns cfg) as [patterns|]; [|destruct Hin].
      destruct Hin as [Heq|[]]. injection Heq as <- <-.
      apply negb_true_iff. apply existsb_false_iff. now apply Hpatterns.
    + destruct (cache_noCacheItems cfg) as [items|]; [|destruct Hin].
      destruct Hin as [Heq|[]]. injection Heq as <- <-.
      apply negb_true_iff. apply existsb_false_iff. intros x Hx.
      destruct (String.eqb_spec (pathname request) x) as [Heq|]; [|reflexivity].
      exfalso. rewrite <- Heq in Hx. now apply (Hitems items).
Qed.

(** C6, at the request for the worker's own script: the path [new URL] gives
    is [/sw.min.js], which differs from the [sw.min.js] the first criterion
    compares it with, so the request passes every criterion and is handled
    (as a static file, fetched and put into the cache). *)
Lemma worker_script_is_eligible :
  pathname worker_script_request = "/sw.min.js"
  /\ criteria "https://example.com" config worker_script_request
     = [("isSWjs", true); ("isGETRequest", true); ("isFromMyOrigin", true)]
  /\ shouldHandleFetch "https://example.com" config worker_script_request = true
  /\ fst (onFetch (fun _ => Some logo) "https://example.com" config 0
            worker_script_request empty_world)
     = RespondWith (Some logo).
Proof. repeat split. Qed.

(** ** The fetch flows *)

Lemma includes_indexOf (s pat : string) :
  includes s pat = true <-> indexOf s pat <> (-1)%Z.
Proof.
  unfold includes, indexOf. destruct (find pat s) as [i|]; split; intros H;
    try reflexivity; try discriminate; try lia; try contradiction.
Qed.

Lemma resourceType_of_content (acceptHeader : string) :
  resourceType_of acceptHeader = content <-> includes acceptHeader "text/html" = true.
Proof.
  rewrite includes_indexOf. unfold resourceType_of.
  destruct (Z.eqb_spec (indexOf acceptHeader "text/html") (-1)) as [E|E]; cbn [negb].
  - split; [|contradiction].
    destruct (negb (indexOf acceptHeader "image" =? -1)%Z); discriminate.
  - tauto.
Qed.

Lemma stores_only_ok_refl (cfg : Config) (w w' : World) :
  written w' = written w -> caches w' = caches w -> stores_only_ok cfg w w'.
Proof.
  intros Hw Hc. exists []. rewrite app_nil_r. repeat split; auto.
Qed.

Lemma stores_only_ok_trans (cfg : Config) (w1 w2 w3 : World) :
  stores_only_ok cfg w1 w2 -> stores_only_ok cfg w2 w3 -> stores_only_ok cfg w1 w3.
Proof.
  intros (n1 & Hw1 & Hc1 & Hok1) (n2 & Hw2 & Hc2 & Hok2). exists (n1 ++ n2).
  split; [|split].
  - now rewrite Hw2, Hw1, app_assoc.
  - unfold apply_writes in *. now rewrite fold_left_app, <- Hc1.
  - apply Forall_app. now split.
Qed.

(** [fetch] and [addToCache], the two steps that change the world. *)
Lemma fetch_world (network : string -> option Response) (address : string) (w : World) :
  caches (snd (fetch network address w)) = caches w
  /\ written (snd (fetch network address w)) = written w
  /\ fetched (snd (fetch network address w)) = fetched w ++ [address]
  /\ fst (fetch network address w)
     = match network address with Some r => Fulfilled r | None => Rejected end.
Proof. unfold fetch. destruct (network address); repeat split. Qed.

Lemma addToCache_stores_only_ok (cfg : Config) (cacheKey key : string)
    (response : Response) (w : World) :
  fst (addToCache cfg cacheKey key response w) = Fulfilled response
  /\ fetched (snd (addToCache cfg cacheKey key response w)) = fetched w
  /\ stores_only_ok cfg w (snd (addToCache cfg cacheKey key response w)).
Proof.
  unfold addToCache.
  destruct (ok response) eqn:Hok; destruct (cache_enabled cfg) eqn:Hen; cbn [andb fst snd];
    repeat split; try (now apply stores_only_ok_refl).
  exists [(cacheKey, key, response)]. repeat split. repeat constructor; assumption.
Qed.

Lemma contentFlow_stores_only_ok (network : string -> option Response) (cfg : Config)
    (request : Request) (w : World) :
  stores_only_ok cfg w (snd (contentFlow network cfg request w)).
Proof.
  unfold contentFlow, then_, catch_, resolve, fetchFromCache, offlineResponse.
  destruct (fetch_world network (url request) w) as (Hc & Hw & _ & Hres).
  destruct (fetch network (url request) w) as [res w1]. cbn [fst snd] in *.
  destruct res as [raw|].
  - destruct (addToCache_stores_only_ok cfg (cacheName (type_name content)) (url request)
                (deferYoutubeVideos cfg (deferImages cfg raw)) w1) as (Hfst & _ & Hst).
    destruct (addToCache cfg _ _ _ w1) as [res2 w2]. cbn [fst snd] in *. subst res2.
    cbn. apply stores_only_ok_trans with w1; [now apply stores_only_ok_refl | exact Hst].
  - destruct (caches_match (url request) (caches w1)); cbn;
      [now apply stores_only_ok_refl|].
    destruct (offline cfg) as [off|]; [|now apply stores_only_ok_refl].
    destruct (set_and_truthy (offline_page off)); now apply stores_only_ok_refl.
Qed.

Lemma cacheFirstFlow_stores_only_ok (network : string -> option Response) (cfg : Config)
    (resourceType : ResourceType) (request : Request) (w : World) :
  stores_only_ok cfg w (snd (cacheFirstFlow network cfg resourceType request w)).
Proof.
  unfold cacheFirstFlow, then_, catch_, resolve, fetchFromCache.
  destruct (caches_match (url request) (caches w)) as [cached|].
  - destruct (addToCache_stores_only_ok cfg (cacheName (type_name resourceType))
                (url request) cached w) as (Hfst & _ & Hst).
    destruct (addToCache cfg _ _ _ w) as [res2 w2]. cbn [fst snd] in *. subst res2.
    exact Hst.
  - destruct (fetch_world network (url request) w) as (Hc & Hw & _ & Hres).
    destruct (fetch network (url request) w) as [res w1]. cbn [fst snd] in *.
    destruct res as [raw|].
    + destruct (addToCache_stores_only_ok cfg (cacheName (type_name resourceType))
                  (url request) raw w1) as (Hfst & _ & Hst).
      destruct (addToCache cfg _ _ _ w1) as [res2 w2]. cbn [fst snd] in *. subst res2.
      cbn. apply stores_only_ok_trans with w1; [now apply stores_only_ok_refl | exact Hst].
    + unfold offlineResponse. destruct (offline cfg) as [off|];
        [|now apply stores_only_ok_refl].
      destruct resourceType; cbn;
        try destruct (set_and_truthy (offline_image off));
        try destruct (set_and_truthy (offline_page off));
        now apply stores_only_ok_refl.
Qed.

Lemma doFetch_stores_only_ok (network : string -> option Response) (cfg : Config)
    (request : Request) (w : World) :
  stores_only_ok cfg w (snd (doFetch network cfg request w)).
Proof.
  unfold doFetch. destruct (accept request) as [acceptHeader|];
    [|now apply stores_only_ok_refl].
  destruct (resourceType_of acceptHeader).
  - pose proof (contentFlow_stores_only_ok network cfg request w) as H.
    destruct (contentFlow network cfg request w) as [[r|] w']; exact H.
  - pose proof (cacheFirstFlow_stores_only_ok network cfg image request w) as H.
    destruct (cacheFirstFlow network cfg image request w) as [[r|] w']; exact H.
  - pose proof (cacheFirstFlow_stores_only_ok network cfg static request w) as H.
    destruct (cacheFirstFlow network cfg static request w) as [[r|] w']; exact H.
Qed.

Lemma analyticsFetch_stores_only_ok (network : string -> option Response) (cfg : Config)
    (now : Z) (request : Request) (w : World) :
  stores_only_ok cfg w (snd (analyticsFetch network now request w)).
Proof.
  unfold analyticsFetch.
  destruct (_ && _); [|now apply stores_only_ok_refl].
  destruct (fetch_world network (url request) w) as (Hc & Hw & _ & _).
  destruct (fetch network (url request) w) as [res w1]. cbn [fst snd] in *.
  unfold store.
  destruct res; destruct (database w1); cbn; now apply stores_only_ok_refl.
Qed.

Lemma prefetch_stores_only_ok (network : string -> option Response) (cfg : Config)
    (urls : list string) (w : World) :
  stores_only_ok cfg w (prefetch network cfg urls w).
Proof.
  unfold prefetch. destruct (negb (prefetch_enabled cfg));
    [now apply stores_only_ok_refl|].
  revert w. induction urls as [|address urls IH]; intros w; cbn [fold_left].
  - now apply stores_only_ok_refl.
  - apply stores_only_ok_trans with (prefetch_one network cfg w address); [|apply IH].
    unfold prefetch_one, then_.
    destruct (fetch_world network address w) as (Hc & Hw & _ & _).
    destruct (fetch network address w) as [res w1]. cbn [fst snd] in *.
    destruct res as [response|]; [|now apply stores_only_ok_refl].
    apply stores_only_ok_trans with w1; [now apply stores_only_ok_refl|].
    apply addToCache_stores_only_ok.
Qed.

Lemma cache_put_ok (key : string) (response : Response) (c : Cache) :
  ok response = true ->
  Forall (fun entry => ok (snd entry) = true) c ->
  Forall (fun entry => ok (snd entry) = true) (cache_put key response c).
Proof.
  intros Hok Hc. unfold cache_put, cache_delete. apply Forall_app. split.
  - rewrite Forall_forall in *. intros e He. apply filter_In in He. now apply Hc.
  - now repeat constructor.
Qed.

Lemma caches_update_ok (name : string) (f : Cache -> Cache) (cs : CacheStorage) :
  (forall c, Forall (fun entry => ok (snd entry) = true) c ->
             Forall (fun entry => ok (snd entry) = true) (f c)) ->
  caches_ok cs -> caches_ok (caches_update name f cs).
Proof.
  intros Hf. unfold caches_ok. induction cs as [|[n c] cs IH]; intros Hcs; cbn.
  - repeat constructor. cbn. apply Hf. constructor.
  - inversion_clear Hcs as [|? ? Hc Hrest]. destruct (String.eqb n name).
    + constructor; [cbn; now apply Hf | exact Hrest].
    + constructor; [exact Hc | now apply IH].
Qed.

Lemma stores_only_ok_caches_ok (cfg : Config) (w w' : World) :
  stores_only_ok cfg w w' -> caches_ok (caches w) -> caches_ok (caches w').
Proof.
  intros (new & _ & -> & Hok). generalize (caches w) as cs.
  induction new as [|[[cacheKey key] response] new IH]; intros cs Hcs; [exact Hcs|].
  inversion_clear Hok as [|? ? [Hr _] Hrest]. cbn [apply_writes fold_left].
  apply IH; [exact Hrest|]. unfold apply_write. cbn [fst snd].
  apply caches_update_ok; [|exact Hcs]. intros c. now apply cache_put_ok.
Qed.

(** X1. In the content flow, the image and static flow and prefetch (and so
    in the whole fetch handler), every response written into a cache is an ok
    response, written while caching is enabled: writes are the only changes
    to the caches, and a storage that holds only ok responses still does
    afterwards.  In the image and static flow and in prefetch a network
    response that is not ok leaves the caches as they were. *)
Theorem only_ok_responses_are_stored (network : string -> option Response)
    (self_origin : string) (cfg : Config) (now : Z) (request : Request)
    (resourceType : ResourceType) (urls : list string) (w : World) :
  stores_only_ok cfg w (snd (contentFlow network cfg request w))
  /\ stores_only_ok cfg w (snd (cacheFirstFlow network cfg resourceType request w))
  /\ stores_only_ok cfg w (prefetch network cfg urls w)
  /\ stores_only_ok cfg w (snd (onFetch network self_origin cfg now request w))
  /\ (forall raw,
        caches_match (url request) (caches w) = None ->
        network (url request) = Some raw -> ok raw = false ->
        caches (snd (cacheFirstFlow network cfg resourceType request w)) = caches w)
  /\ (forall address raw,
        network address = Some raw -> ok raw = false ->
        caches (prefetch_one network cfg w address) = caches w)
  /\ (forall w', stores_only_ok cfg w w' ->
        (forall cacheKey key response,
            In (cacheKey, key, response) (written w') ->
            ~ In (cacheKey, key, response) (written w) ->
            ok response = true /\ cache_enabled cfg = true)
        /\ (caches_ok (caches w) -> caches_ok (caches w'))).
Proof.
  split; [apply contentFlow_stores_only_ok|].
  split; [apply cacheFirstFlow_stores_only_ok|].
  split; [apply prefetch_stores_only_ok|].
  split.
  - unfold onFetch. destruct (shouldSaveData cfg request);
      [now apply stores_only_ok_refl|].
    destruct (shouldHandleFetch self_origin cfg request);
      [apply doFetch_stores_only_ok|].
    destruct (analytics_enabled cfg);
      [apply analyticsFetch_stores_only_ok | now apply stores_only_ok_refl].
  - split; [|split].
    + intros raw Hmiss Hnet Hraw.
      unfold cacheFirstFlow, then_, catch_, resolve, fetchFromCache, fetch, addToCache.
      rewrite Hmiss, Hnet, Hraw. reflexivity.
    + intros address raw Hnet Hraw.
      unfold prefetch_one, then_, fetch, addToCache. rewrite Hnet, Hraw. reflexivity.
    + intros w' Hst. split; [|now apply (stores_only_ok_caches_ok cfg)].
      destruct Hst as (new & Hw & _ & Hok). intros cacheKey key response Hin Hold.
      rewrite Hw in Hin. apply in_app_or in Hin as [Hin|Hin]; [contradiction|].
      rewrite Forall_forall in Hok. apply (Hok _ Hin).
Qed.

Lemma only_ok_responses_are_stored_witness :
  stores_only_ok config empty_world
    (snd (contentFlow page_network config page_request empty_world))
  /\ caches_ok (caches (snd (contentFlow page_network config page_request empty_world))).
Proof.
  destruct (only_ok_responses_are_stored page_network "https://example.com" config 0
              page_request content [] empty_world)
    as (Hcontent & _ & _ & _ & _ & _ & Hinvariant).
  split; [exact Hcontent|].
  apply (Hinvariant _ Hcontent). constructor.
Defined.

(** C3, at a page the server answers with 404: the content flow hands the
    network response to the rewriting stages, which rebuild it with status
    200, so [addToCache] finds it ok and stores the error page in the content
    cache; the image and static flow and prefetch store nothing for such an
    answer. *)
Lemma contentFlow_stores_error_page :
  ok not_found_page = false
  /\ cache_enabled config = true
  /\ doFetch not_found_network config page_request empty_world
     = (RespondWith
          (Some {| status := 200; statusText := "";
                   headers := headers not_found_page; body := body not_found_page |}),
        {| caches :=
             [("v1.0.0:sw-cache::content",
               [(url page_request,
                 {| status := 200; statusText := "";
                    headers := headers not_found_page; body := body not_found_page |})])];
           database := Some [];
           fetched := [url page_request];
           written :=
             [("v1.0.0:sw-cache::content", url page_request,
               {| status := 200; statusText := "";
                  headers := headers not_found_page; body := body not_found_page |})] |})
  /\ caches (snd (cacheFirstFlow not_found_network config static logo_request empty_world))
     = []
  /\ caches (prefetch not_found_network config [url page_request] empty_world) = [].
Proof. repeat split. Qed.

(** C1 (as amended). For a request whose [Accept] header contains
    [text/html] and whose network fetch succeeds, the flow answers with the
    network body rewritten by the image pass and then by the video pass;
    when caching is enabled, the entry stored for the request in the
    [content] namespace afterwards is that rewritten response, not the
    response the network gave, and that write is the only change to the
    caches; when caching is disabled the caches are left as they were. *)
Theorem contentFlow_stores_rewritten (network : string -> option Response)
    (cfg : Config) (request : Request) (acceptHeader : string) (raw : Response)
    (w : World) :
  accept request = Some acceptHeader ->
  includes acceptHeader "text/html" = true ->
  network (url request) = Some raw ->
  let rewritten := deferYoutubeVideos cfg (deferImages cfg raw) in
  let cacheKey := cacheName "content" in
  exists w',
    doFetch network cfg request w = (RespondWith (Some rewritten), w')
    /\ body rewritten
       = (if defer_youtube_enabled cfg
          then replace_regexp (changeImages cfg (body raw)) youtube_regexp youtube_template
          else changeImages cfg (body raw))
    /\ fetched w' = fetched w ++ [url request]
    /\ written w'
       = written w ++ (if cache_enabled cfg then [(cacheKey, url request, rewritten)] else [])
    /\ caches w'
       = (if cache_enabled cfg
          then caches_update cacheKey (cache_put (url request) rewritten) (caches w)
          else caches w)
    /\ cache_match (url request) (caches_open cacheKey (caches w'))
       = (if cache_enabled cfg then Some rewritten
          else cache_match (url request) (caches_open cacheKey (caches w))).
Proof.
  intros Haccept Hhtml Hnet rewritten cacheKey.
  apply resourceType_of_content in Hhtml.
  unfold doFetch. rewrite Haccept, Hhtml.
  unfold contentFlow, then_, catch_, resolve, fetch. rewrite Hnet.
  fold rewritten. change (cacheName (type_name content)) with cacheKey.
  unfold addToCache.
  assert (ok rewritten = true) as Hok by apply new_Response_ok.
  rewrite Hok. cbn [andb]. destruct (cache_enabled cfg) eqn:Hen.
  - eexists. split; [reflexivity|]. cbn [caches fetched written].
    repeat split.
    now rewrite caches_open_update, cache_match_put_same.
  - eexists. split; [reflexivity|]. cbn [caches fetched written].
    rewrite app_nil_r. repeat split.
Qed.

Lemma contentFlow_stores_rewritten_witness :
  exists w',
    doFetch page_network config page_request empty_world
    = (RespondWith (Some (deferYoutubeVideos config (deferImages config example_page))), w')
    /\ cache_match (url page_request) (caches_open (cacheName "content") (caches w'))
       = Some (deferYoutubeVideos config (deferImages config example_page))
    /\ body (deferYoutubeVideos config (deferImages config example_page))
       <> body example_page.
Proof.
  destruct (contentFlow_stores_rewritten page_network config page_request
              "text/html,application/xhtml+xml" example_page empty_world
              eq_refl eq_refl eq_refl) as (w' & Hrun & _ & _ & _ & _ & Hentry).
  exists w'. split; [exact Hrun|]. split; [exact Hentry|].
  intros Heq. vm_compute in Heq. discriminate Heq.
Defined.

(** C1, as the claim states it, fails when caching is disabled: the flow
    answers with the rewritten page and stores nothing, so the entry found
    in the content cache afterwards is whatever was there, here an older
    copy. *)
Lemma contentFlow_without_cache_keeps_entry :
  let w := {| caches := [(cacheName "content", [(url page_request, stale_page)])];
              database := None; fetched := []; written := [] |} in
  let rewritten :=
    deferYoutubeVideos config_without_cache (deferImages config_without_cache example_page) in
  includes "text/html,application/xhtml+xml" "text/html" = true
  /\ page_network (url page_request) = Some example_page
  /\ fst (doFetch page_network config_without_cache page_request w)
     = RespondWith (Some rewritten)
  /\ cache_match (url page_request)
       (caches_open (cacheName "content")
          (caches (snd (doFetch page_network config_without_cache page_request w))))
     = Some stale_page
  /\ stale_page <> rewritten
  /\ body stale_page <> body rewritten.
Proof.
  cbn zeta. split; [reflexivity|]. split; [reflexivity|]. split; [reflexivity|].
  split; [reflexivity|]. split; intros Heq; vm_compute in Heq; discriminate Heq.
Qed.

(** C2. For a request classified [image] or [static] that has a cache entry,
    the response is that entry and nothing is fetched from the network,
    whatever the network would answer (it may well be down). *)
Theorem cacheFirst_serves_cached (network : string -> option Response)
    (cfg : Config) (request : Request) (acceptHeader : string) (cached : Response)
    (w : World) :
  accept request = Some acceptHeader ->
  resourceType_of acceptHeader = image \/ resourceType_of acceptHeader = static ->
  caches_match (url request) (caches w) = Some cached ->
  exists w',
    doFetch network cfg request w = (RespondWith (Some cached), w')
    /\ fetched w' = fetched w.
Proof.
  intros Haccept Htype Hcached. unfold doFetch. rewrite Haccept.
  assert (forall resourceType,
            exists w',
              cacheFirstFlow network cfg resourceType request w
              = (Fulfilled (Some cached), w') /\ fetched w' = fetched w) as Hflow.
  { intros resourceType.
    unfold cacheFirstFlow, then_, catch_, resolve, fetchFromCache. rewrite Hcached.
    destruct (addToCache_stores_only_ok cfg (cacheName (type_name resourceType))
                (url request) cached w) as (Hfst & Hfetched & _).
    destruct (addToCache cfg _ _ _ w) as [res w']. cbn [fst snd] in *. subst res.
    exists w'. split; [reflexivity | exact Hfetched]. }
  destruct Htype as [-> | ->].
  - destruct (Hflow image) as (w' & -> & Hf). now exists w'.
  - destruct (Hflow static) as (w' & -> & Hf). now exists w'.
Qed.

Lemma cacheFirst_serves_cached_witness :
  exists w',
    doFetch no_network config logo_request
      {| caches := [(cacheName "image", [(url logo_request, logo)])];
         database := None; fetched := []; written := [] |}
    = (RespondWith (Some logo), w')
    /\ fetched w' = [].
Proof.
  apply (cacheFirst_serves_cached no_network config logo_request "image/png,image/*" logo
           {| caches := [(cacheName "image", [(url logo_request, logo)])];
              database := None; fetched := []; written := [] |});
    [reflexivity | left; reflexivity | reflexivity].
Defined.

(** ** Trimming a cache *)

Section Trimming.

Variable cfg : Config.
Variable limit : nat.
Hypothesis Hlimit : cache_maxItems cfg = Some limit.

Lemma cache_delete_first (key : string) (response : Response) (c : Cache) :
  ~ In key (cache_keys c) -> cache_delete key ((key, response) :: c) = c.
Proof.
  intros Hfresh. unfold cache_delete. cbn. rewrite String.eqb_refl. cbn.
  induction c as [|[k r] c IH]; cbn; [reflexivity|].
  cbn in Hfresh. destruct (String.eqb_spec k key) as [->|Hne]; [tauto|].
  cbn. f_equal. apply IH. tauto.
Qed.

(** With distinct keys the loop drops entries from the front, the oldest
    first, and stops as soon as the limit holds. *)
Lemma trimCache_loop_skipn (c : Cache) : forall fuel,
  NoDup (cache_keys c) -> List.length c <= fuel ->
  trimCache_loop cfg fuel c = skipn (List.length c - limit) c.
Proof.
  induction c as [|[k r] c IH]; intros fuel Hnd Hfuel.
  - destruct fuel; cbn; [reflexivity|]. rewrite Hlimit. reflexivity.
  - destruct fuel as [|fuel]; [cbn in Hfuel; lia|].
    cbn [trimCache_loop]. rewrite Hlimit. unfold cache_keys. rewrite length_map.
    cbn [within_limit]. cbn in Hnd. apply NoDup_cons_iff in Hnd as [Hfresh Hnd].
    destruct (Nat.leb_spec (List.length ((k, r) :: c)) limit) as [Hle|Hgt].
    + replace (List.length ((k, r) :: c) - limit) with 0 by lia. reflexivity.
    + cbn [map fst]. rewrite cache_delete_first by assumption.
      rewrite IH by (try assumption; cbn in Hfuel; lia).
      cbn [List.length] in *.
      replace (S (List.length c) - limit) with (S (List.length c - limit)) by lia.
      reflexivity.
Qed.

(** The same, whatever the keys: the loop ends within the limit. *)
Lemma trimCache_loop_within_limit (c : Cache) : forall fuel,
  List.length c <= fuel -> List.length (trimCache_loop cfg fuel c) <= limit.
Proof.
  remember (List.length c) as n eqn:Hn. revert c Hn.
  induction n as [n IH] using lt_wf_ind. intros c Hn fuel Hfuel.
  destruct fuel as [|fuel].
  - cbn. lia.
  - cbn [trimCache_loop]. rewrite Hlimit. unfold cache_keys. rewrite length_map.
    cbn [within_limit]. destruct (Nat.leb_spec (List.length c) limit) as [Hle|Hgt];
      [exact Hle|].
    destruct c as [|[k r] c]; [cbn in Hgt; lia|]. cbn [map fst].
    assert (List.length (cache_delete k ((k, r) :: c)) < n) as Hshorter.
    { unfold cache_delete. cbn. rewrite String.eqb_refl. cbn.
      pose proof (filter_length_le (fun entry => negb (String.eqb (fst entry) k)) c).
      cbn in Hn. lia. }
    apply (IH _ Hshorter _ eq_refl). lia.
Qed.

Lemma puts_in_order (entries : list (string * Response)) : forall c,
  NoDup (map fst entries) ->
  (forall key, In key (map fst entries) -> ~ In key (cache_keys c)) ->
  fold_left (fun acc entry => cache_put (fst entry) (snd entry) acc) entries c
  = c ++ entries.
Proof.
  induction entries as [|[k r] entries IH]; intros c Hnd Hdisj; cbn [fold_left fst snd].
  - now rewrite app_nil_r.
  - cbn in Hnd. apply NoDup_cons_iff in Hnd as [Hfresh Hnd].
    assert (cache_put k r c = c ++ [(k, r)]) as ->.
    { unfold cache_put. f_equal. unfold cache_delete.
      assert (~ In k (cache_keys c)) as Hk by (apply Hdisj; now left).
      clear - Hk. induction c as [|[k0 r0] c IH]; cbn; [reflexivity|].
      cbn in Hk. destruct (String.eqb_spec k0 k) as [->|Hne]; [tauto|].
      cbn. f_equal. apply IH. tauto. }
    rewrite IH; [now rewrite <- app_assoc | exact Hnd |].
    intros key Hkey. unfold cache_keys. rewrite map_app, in_app_iff. cbn.
    intros [Hin|[<-|[]]]; [|contradiction].
    apply (Hdisj key); [now right | exact Hin].
Qed.

End Trimming.

Lemma cache_match_absent (key : string) (c : Cache) :
  ~ In key (cache_keys c) -> cache_match key c = None.
Proof.
  induction c as [|[k r] c IH]; cbn; [reflexivity|]. intros Hk.
  destruct (String.eqb_spec k key); [tauto|]. apply IH. tauto.
Qed.

(** [trimCaches] trims every named cache, unless caching is disabled or
    [cache.maxItems] is unset or zero, in which case it does nothing. *)
Lemma trimCaches_gate (cfg : Config) (cs : CacheStorage) :
  cache_enabled cfg = false \/ cache_maxItems cfg = None \/ cache_maxItems cfg = Some 0 ->
  trimCaches cfg cs = cs.
Proof.
  unfold trimCaches. intros [-> | [-> | ->]]; [reflexivity | | ];
    now rewrite orb_true_r.
Qed.

(** X4. With caching enabled and a positive [cache.maxItems], [trimCaches]
    trims every named cache of the storage as [trimCache] does. *)
Theorem trimCaches_trims_each (cfg : Config) (limit : nat) (cs : CacheStorage)
    (name : string) :
  cache_enabled cfg = true -> cache_maxItems cfg = Some (S limit) ->
  NoDup (caches_keys cs) -> In name (caches_keys cs) ->
  caches_open name (trimCaches cfg cs)
  = trimCache_loop cfg (List.length (caches_open name cs)) (caches_open name cs).
Proof.
  intros Hen Hmax Hnd Hin. unfold trimCaches. rewrite Hen, Hmax. cbn [negb orb].
  assert (forall names acc,
            NoDup names ->
            caches_open name (fold_left (fun acc n => trimCache cfg n acc) names acc)
            = if in_dec string_dec name names
              then trimCache_loop cfg (List.length (caches_open name acc))
                     (caches_open name acc)
              else caches_open name acc) as Hfold.
  { induction names as [|n names IH]; intros acc Hnames; [reflexivity|].
    apply NoDup_cons_iff in Hnames as [Hfresh Hnames]. cbn [fold_left].
    rewrite IH by assumption. unfold trimCache.
    destruct (string_dec n name) as [->|Hne].
    - destruct (in_dec string_dec name names) as [Hn|_]; [contradiction|].
      destruct (in_dec string_dec name (name :: names)) as [_|Hn];
        [|exfalso; apply Hn; now left].
      now rewrite caches_open_update.
    - rewrite caches_open_update_other by assumption.
      destruct (in_dec string_dec name names) as [Hn|Hn];
        destruct (in_dec string_dec name (n :: names)) as [Hn'|Hn']; try reflexivity.
      + exfalso. apply Hn'. now right.
      + exfalso. destruct Hn' as [Heq|Hn']; [now apply Hne | now apply Hn]. }
  rewrite Hfold by assumption.
  destruct (in_dec string_dec name (caches_keys cs)); [reflexivity | contradiction].
Qed.

Lemma trimCaches_trims_each_witness :
  caches_open (cacheName "image")
    (trimCaches (config_with_maxItems 2)
       [(cacheName "content", [(url page_request, example_page)]);
        (cacheName "image", three_images)])
  = [("https://example.com/b.png", logo); ("https://example.com/c.png", logo)].
Proof.
  assert (NoDup (caches_keys [(cacheName "content", [(url page_request, example_page)]);
                              (cacheName "image", three_images)])) as Hnd.
  { apply NoDup_cons; [cbn; intuition discriminate|].
    apply NoDup_cons; [intros [] | apply NoDup_nil]. }
  rewrite (trimCaches_trims_each (config_with_maxItems 2) 1 _ (cacheName "image")
             eq_refl eq_refl Hnd (or_intror (or_introl eq_refl))).
  reflexivity.
Defined.

(** C5. With [cache.maxItems = N] and [N + 1] entries put into a cache, one
    after the other under distinct keys, trimming that cache leaves exactly
    [N] entries: all but the one put first.  More generally the loop deletes
    from the front of the insertion order, one key at a time, exactly until
    the limit holds. *)
Theorem trimCache_evicts_oldest (cfg : Config) (N : nat)
    (entries : list (string * Response)) (name : string) (cs : CacheStorage) :
  cache_maxItems cfg = Some N ->
  NoDup (map fst entries) ->
  List.length entries = S N ->
  caches_open name cs
  = fold_left (fun acc entry => cache_put (fst entry) (snd entry) acc) entries [] ->
  let trimmed := caches_open name (trimCache cfg name cs) in
  trimmed = tl entries
  /\ List.length trimmed = N
  /\ (forall oldest, hd_error entries = Some oldest ->
        cache_match (fst oldest) trimmed = None)
  /\ (forall c : Cache, NoDup (cache_keys c) ->
        trimCache_loop cfg (List.length c) c = skipn (List.length c - N) c
        /\ List.length (trimCache_loop cfg (List.length c) c) = Nat.min (List.length c) N).
Proof.
  intros Hmax Hnd Hlen Hfilled trimmed.
  rewrite puts_in_order in Hfilled by (try assumption; intros key _ []).
  cbn [app] in Hfilled.
  assert (trimmed = tl entries) as Htrimmed.
  { subst trimmed. unfold trimCache. rewrite caches_open_update, Hfilled.
    rewrite (trimCache_loop_skipn cfg N Hmax) by (try assumption; lia).
    rewrite Hlen. replace (S N - N) with 1 by lia.
    destruct entries; reflexivity. }
  split; [exact Htrimmed|]. split; [|split].
  - rewrite Htrimmed. destruct entries; cbn in *; lia.
  - intros oldest Hhd. rewrite Htrimmed. destruct entries as [|first rest];
      [discriminate|]. injection Hhd as <-. cbn in Hnd |- *.
    apply NoDup_cons_iff in Hnd as [Hfresh _]. now apply cache_match_absent.
  - intros c Hc. rewrite (trimCache_loop_skipn cfg N Hmax) by (try assumption; lia).
    split; [reflexivity|]. rewrite length_skipn. lia.
Qed.

Lemma trimCache_evicts_oldest_witness :
  NoDup (map fst three_images)
  /\ caches_open (cacheName "image")
       (trimCache (config_with_maxItems 2) (cacheName "image")
          [(cacheName "image",
            fold_left (fun acc entry => cache_put (fst entry) (snd entry) acc)
              three_images [])])
     = [("https://example.com/b.png", logo); ("https://example.com/c.png", logo)].
Proof.
  assert (NoDup (map fst three_images)) as Hnd.
  { repeat (apply NoDup_cons; [cbn; intuition discriminate|]). apply NoDup_nil. }
  split; [exact Hnd|].
  exact (proj1 (trimCache_evicts_oldest (config_with_maxItems 2) 2 three_images
                  (cacheName "image")
                  [(cacheName "image",
                    fold_left (fun acc entry => cache_put (fst entry) (snd entry) acc)
                      three_images [])]
                  eq_refl Hnd eq_refl eq_refl)).
Defined.

(** ** Replaying the queued analytics requests *)

Section Replay.

Variable network : string -> option Response.
Variable cfg : Config.
Variable now : Z.

Lemma retry_request_effect (w : World) (request : RetryRecord) :
  let w' := retry_request network cfg now w request in
  caches w' = caches w
  /\ written w' = written w
  /\ fetched w'
     = fetched w ++ (if expired cfg now request then [] else [replay_url now request])
  /\ database w'
     = if stays_queued network cfg now request then database w
       else option_map
              (filter (fun r => negb (String.eqb (record_url r) (record_url request))))
              (database w).
Proof.
  unfold retry_request, stays_queued, replay_failed, expired, replay_url, queue_time.
  destruct (now - timestamp request >? analytics_maxTime cfg)%Z; cbn [negb andb].
  - cbn. now rewrite app_nil_r.
  - unfold fetch.
    destruct (network (record_url request ++ "&qt=" ++ string_of_Z (now - timestamp request)))
      as [response|]; [|now cbn].
    destruct (400 <=? status response)%Z; now cbn.
Qed.

Lemma replay_effect (records : list RetryRecord) : forall w,
  let w' := fold_left (retry_request network cfg now) records w in
  fetched w'
  = fetched w ++ map (replay_url now) (filter (fun r => negb (expired cfg now r)) records)
  /\ database w'
     = option_map
         (filter (fun r => negb (existsb (String.eqb (record_url r))
                                   (deleted_urls network cfg now records))))
         (database w).
Proof.
  induction records as [|request records IH]; intros w; cbn zeta.
  - cbn. rewrite app_nil_r. split; [reflexivity|].
    destruct (database w) as [d|]; [|reflexivity]. cbn. f_equal.
    induction d; cbn; congruence.
  - cbn [fold_left]. destruct (IH (retry_request network cfg now w request)) as [Hf Hd].
    destruct (retry_request_effect w request) as (_ & _ & Hf1 & Hd1).
    cbn zeta in *. rewrite Hf, Hd, Hf1, Hd1. clear Hf Hd Hf1 Hd1. split.
    + cbn [filter]. destruct (expired cfg now request); cbn [negb map].
      * now rewrite app_nil_r.
      * now rewrite <- app_assoc.
    + unfold deleted_urls. cbn [filter].
      destruct (stays_queued network cfg now request); cbn [negb]; [reflexivity|].
      destruct (database w) as [d|]; [|reflexivity]. cbn [option_map map existsb].
      f_equal. clear. induction d as [|x d IHd]; [reflexivity|]. cbn [filter].
      destruct (String.eqb (record_url x) (record_url request)) eqn:E;
        cbn [negb orb filter]; [exact IHd|].
      destruct (existsb _ _); cbn [negb]; [exact IHd | now rewrite IHd].
Qed.

Lemma deleted_iff (records : list RetryRecord) (request : RetryRecord) :
  NoDup (map record_url records) -> In request records ->
  existsb (String.eqb (record_url request)) (deleted_urls network cfg now records)
  = negb (stays_queued network cfg now request).
Proof.
  intros Hnd Hin.
  assert (forall r, In r records -> record_url r = record_url request -> r = request)
    as Hinj.
  { clear - Hnd Hin. induction records as [|x records IH]; [destruct Hin|].
    cbn in Hnd. apply NoDup_cons_iff in Hnd as [Hfresh Hnd].
    intros r [<-|Hr] Heq; destruct Hin as [<-|Hin]; auto.
    - exfalso. apply Hfresh. rewrite Heq. now apply in_map.
    - exfalso. apply Hfresh. rewrite <- Heq. now apply in_map. }
  unfold deleted_urls. destruct (stays_queued network cfg now request) eqn:Hstay; cbn [negb].
  - apply existsb_false_iff. intros address Haddress.
    apply in_map_iff in Haddress as (r & <- & Hr). apply filter_In in Hr as [Hr Hdoomed].
    apply String.eqb_neq. intros Heq. symmetry in Heq.
    rewrite (Hinj r Hr Heq), Hstay in Hdoomed. discriminate.
  - apply existsb_exists. exists (record_url request). split; [|apply String.eqb_refl].
    apply in_map. apply filter_In. split; [exact Hin | now rewrite Hstay].
Qed.

End Replay.

(** Where [add] puts a record: after the records whose url is not greater
    than its own, before the first whose url is. *)
Lemma add_record_place (record : RetryRecord) (records : list RetryRecord) :
  exists before after,
    records = before ++ after
    /\ add_record record records = before ++ record :: after
    /\ Forall (fun r => String.ltb (record_url record) (record_url r) = false) before
    /\ match after with
       | [] => True
       | next :: _ => String.ltb (record_url record) (record_url next) = true
       end.
Proof.
  induction records as [|first rest IH]; cbn [add_record].
  - exists [], []. repeat split. constructor.
  - destruct (String.ltb (record_url record) (record_url first)) eqn:E.
    + exists [], (first :: rest). repeat split; [constructor | exact E].
    + destruct IH as (before & after & Hrest & Hadd & Hbefore & Hafter).
      exists (first :: before), after. rewrite Hadd, Hrest.
      repeat split; [now constructor | exact Hafter].
Qed.

Lemma in_add_record (record x : RetryRecord) (records : list RetryRecord) :
  In x (add_record record records) <-> x = record \/ In x records.
Proof.
  destruct (add_record_place record records) as (before & after & -> & -> & _).
  rewrite !in_app_iff. cbn [In]. intuition congruence.
Qed.

Lemma add_record_distinct (record : RetryRecord) (records : list RetryRecord) :
  ~ In (record_url record) (map record_url records) ->
  NoDup (map record_url records) ->
  NoDup (map record_url (add_record record records)).
Proof.
  destruct (add_record_place record records) as (before & after & -> & -> & _).
  rewrite !map_app. cbn [map]. intros Hfresh Hnd.
  apply (NoDup_Add (Add_app (record_url record) (map record_url before)
                      (map record_url after))).
  now split.
Qed.

(** The database is keyed by url ([keyPath: 'url'] in [openDatabase]):
    [store] and the deletions of a replay keep the stored urls distinct,
    which is the hypothesis of the replay theorem. *)
Lemma store_keeps_urls_distinct (now : Z) (address : string) (w w' : World)
    (records : list RetryRecord) :
  database w = Some records -> NoDup (map record_url records) ->
  store now address w = Some w' ->
  exists records', database w' = Some records' /\ NoDup (map record_url records').
Proof.
  intros Hdb Hnd. unfold store. rewrite Hdb. intros [= <-]. cbn [database].
  eexists. split; [reflexivity|].
  destruct (existsb (fun r => String.eqb (record_url r) address) records) eqn:E;
    [exact Hnd|].
  apply add_record_distinct; [|exact Hnd]. cbn [record_url].
  intros Ha. apply in_map_iff in Ha as (r & Hr & Hin).
  rewrite existsb_false_iff in E. specialize (E r Hin). cbn in E.
  rewrite Hr, String.eqb_refl in E. discriminate.
Qed.

Lemma NoDup_map_filter {A B : Type} (f : A -> B) (keep : A -> bool) (l : list A) :
  NoDup (map f l) -> NoDup (map f (filter keep l)).
Proof.
  induction l as [|x l IH]; cbn [map filter]; [constructor|]. intros Hnd.
  apply NoDup_cons_iff in Hnd as [Hfresh Hnd]. destruct (keep x); [|now apply IH].
  cbn [map]. apply NoDup_cons; [|now apply IH].
  intros Hin. apply Hfresh. apply in_map_iff in Hin as (y & Hy & Hin).
  apply filter_In in Hin as [Hin _]. apply in_map_iff. now exists y.
Qed.

Lemma retry_keeps_urls_distinct (network : string -> option Response) (cfg : Config)
    (now : Z) (w w' : World) (records : list RetryRecord) :
  database w = Some records -> NoDup (map record_url records) ->
  retryAnalyticsRequests network cfg now w = Some w' ->
  exists records', database w' = Some records' /\ NoDup (map record_url records').
Proof.
  intros Hdb Hnd. unfold retryAnalyticsRequests. rewrite Hdb. intros [= <-].
  destruct (replay_effect network cfg now records w) as [_ Hdatabase].
  cbn zeta in Hdatabase. rewrite Hdb in Hdatabase. cbn [option_map] in Hdatabase.
  eexists. split; [exact Hdatabase|]. now apply NoDup_map_filter.
Qed.

(** C4 (as amended). On replay, each stored record whose time in the queue
    exceeds [analytics.maxTime] is deleted and no request is made for it;
    for each record whose time in the queue is at most [analytics.maxTime]
    one request is made, for the record's url followed by [&qt=] and the
    time in the queue, and the record is deleted exactly when the answer has
    a status below 400: it stays queued when the fetch fails or the status
    is 400 or more. *)
Theorem replay_of_each_record (network : string -> option Response) (cfg : Config)
    (now : Z) (records : list RetryRecord) (w : World) (request : RetryRecord) :
  database w = Some records ->
  NoDup (map record_url records) ->
  In request records ->
  exists w' remaining,
    retryAnalyticsRequests network cfg now w = Some w'
    /\ database w' = Some remaining
    /\ fetched w'
       = fetched w
         ++ map (replay_url now) (filter (fun r => negb (expired cfg now r)) records)
    /\ ((queue_time now request > analytics_maxTime cfg)%Z ->
          ~ In request remaining
          /\ forall w0, fetched (retry_request network cfg now w0 request) = fetched w0)
    /\ ((queue_time now request <= analytics_maxTime cfg)%Z ->
          In (replay_url now request) (fetched w')
          /\ (forall w0, fetched (retry_request network cfg now w0 request)
                         = fetched w0 ++ [replay_url now request])
          /\ (~ In request remaining <->
              exists response,
                network (replay_url now request) = Some response
                /\ (status response < 400)%Z)).
Proof.
  intros Hdb Hnd Hin. unfold retryAnalyticsRequests. rewrite Hdb.
  destruct (replay_effect network cfg now records w) as [Hfetched Hdatabase].
  cbn zeta in *. rewrite Hdb in Hdatabase. cbn [option_map] in Hdatabase.
  eexists. eexists. split; [reflexivity|]. split; [exact Hdatabase|].
  split; [exact Hfetched|].
  assert (forall r, In r records ->
            (In r (filter (fun r => negb (existsb (String.eqb (record_url r))
                                            (deleted_urls network cfg now records)))
                     records)
             <-> stays_queued network cfg now r = true)) as Hremaining.
  { intros r Hr. rewrite filter_In, (deleted_iff network cfg now records r Hnd Hr).
    rewrite negb_involutive. tauto. }
  split.
  - intros Hold.
    assert (expired cfg now request = true) as Hexp by (unfold expired; lia).
    split.
    + rewrite (Hremaining request Hin). unfold stays_queued. rewrite Hexp. discriminate.
    + intros w0. destruct (retry_request_effect network cfg now w0 request) as (_ & _ & -> & _).
      rewrite Hexp. apply app_nil_r.
  - intros Hyoung.
    assert (expired cfg now request = false) as Hexp by (unfold expired; lia).
    split; [|split].
    + rewrite Hfetched. apply in_or_app. right. apply in_map. apply filter_In.
      split; [exact Hin | now rewrite Hexp].
    + intros w0. destruct (retry_request_effect network cfg now w0 request) as (_ & _ & -> & _).
      now rewrite Hexp.
    + rewrite (Hremaining request Hin). unfold stays_queued, replay_failed.
      rewrite Hexp. cbn [negb andb].
      destruct (network (replay_url now request)) as [response|].
      * destruct (Z.leb_spec 400 (status response)) as [Hge|Hlt]; split.
        -- intros Hnot. now contradiction Hnot.
        -- intros (r & Heq & Hr) _. injection Heq as <-. lia.
        -- intros _. exists response. split; [reflexivity | lia].
        -- intros _. discriminate.
      * split; [intros Hnot; now contradiction Hnot
               | intros (r & Heq & _); discriminate].
Qed.

Lemma replay_of_each_record_witness :
  exists w' remaining,
    retryAnalyticsRequests (fun _ => Some logo) config 1000 (world_with_queue [queued_beacon])
    = Some w'
    /\ database w' = Some remaining
    /\ fetched w'
       = ["https://www.google-analytics.com/collect?v=1&t=pageview&qt=1000"]
    /\ ~ In queued_beacon remaining.
Proof.
  assert (NoDup (map record_url [queued_beacon])) as Hnd
    by (apply NoDup_cons; [intros [] | apply NoDup_nil]).
  destruct (replay_of_each_record (fun _ => Some logo) config 1000 [queued_beacon]
              (world_with_queue [queued_beacon]) queued_beacon eq_refl Hnd
              (or_introl eq_refl))
    as (w' & remaining & Hrun & Hdb & Hfetched & _ & Hyoung).
  exists w', remaining. split; [exact Hrun|]. split; [exact Hdb|].
  split; [exact Hfetched|].
  apply Hyoung; [vm_compute; discriminate|].
  exists logo. split; [reflexivity | vm_compute; reflexivity].
Defined.

(** C4, as the claim states it, fails at the boundary: a record that has been
    queued for exactly [analytics.maxTime] is not deleted without a request;
    the request is made, and with the network down the record stays. *)
Lemma replay_at_max_age_is_attempted :
  let now := analytics_maxTime config in
  (queue_time now queued_beacon >= analytics_maxTime config)%Z
  /\ option_map fetched
       (retryAnalyticsRequests no_network config now (world_with_queue [queued_beacon]))
     = Some ["https://www.google-analytics.com/collect?v=1&t=pageview&qt=86400000"]
  /\ option_map database
       (retryAnalyticsRequests no_network config now (world_with_queue [queued_beacon]))
     = Some (Some [queued_beacon]).
Proof.
  cbn zeta. split; [vm_compute; discriminate|]. split; vm_compute; reflexivity.
Qed.

(** ** Strings, replacement templates and base64 *)

Open Scope string_scope.

Lemma append_assoc (a b c : string) : (a ++ b) ++ c = a ++ (b ++ c).
Proof. induction a as [|x a IH]; cbn; [reflexivity | now rewrite IH]. Qed.

Lemma append_empty_r (a : string) : a ++ "" = a.
Proof. induction a as [|x a IH]; cbn; [reflexivity | now rewrite IH]. Qed.

Lemma plain_app (a b : string) : plain (a ++ b) = plain a && plain b.
Proof.
  induction a as [|x a IH]; cbn; [reflexivity|].
  rewrite IH. now rewrite andb_assoc.
Qed.

(** A template without [$] is inserted as it stands. *)
Lemma substitute_plain (ngroups : nat) (caps : captures) (m before after t : string) :
  plain t = true -> substitute ngroups caps m before after t = t.
Proof.
  induction t as [|c t IH]; [reflexivity|]. cbn [plain substitute].
  intros H. apply andb_true_iff in H as [Hc Ht]. rewrite Hc. now rewrite IH.
Qed.

Lemma substitute_app_plain (ngroups : nat) (caps : captures)
    (m before after a t : string) :
  plain a = true ->
  substitute ngroups caps m before after (a ++ t)
  = a ++ substitute ngroups caps m before after t.
Proof.
  induction a as [|c a IH]; [reflexivity|]. cbn [plain append substitute].
  intros H. apply andb_true_iff in H as [Hc Ha]. rewrite Hc. now rewrite IH.
Qed.

Lemma base64_digit_plain (n : nat) : negb (Ascii.eqb (base64_digit n) "$") = true.
Proof.
  unfold base64_digit. do 64 (destruct n as [|n]; [reflexivity|]). reflexivity.
Qed.

Lemma plain_btoa (s : string) : plain (btoa s) = true.
Proof.
  remember (String.length s) as n eqn:Hn. revert s Hn.
  induction n as [n IH] using lt_wf_ind. intros s Hn.
  destruct s as [|a [|b [|c rest]]]; cbn [btoa]; cbn zeta; cbn [plain];
    rewrite ?base64_digit_plain; try reflexivity.
  cbn [andb]. apply (IH (String.length rest)); [cbn in Hn; lia | reflexivity].
Qed.

Lemma plain_newBase64Image (cfg : Config) (width height : string) :
  plain (newBase64Image cfg width height) = true.
Proof.
  unfold newBase64Image. cbn zeta. rewrite plain_app, plain_btoa. reflexivity.
Qed.

(** ** Searching and replacing *)

Lemma find_occurrence (pat s : string) (i : nat) :
  find pat s = Some i -> s = take i s ++ pat ++ drop (i + String.length pat) s.
Proof.
  assert (forall p t, prefix p t = true -> t = p ++ drop (String.length p) t) as Hprefix.
  { induction p as [|c p IH]; intros t Ht; [reflexivity|].
    destruct t as [|d t]; [discriminate|]. cbn in Ht.
    destruct (ascii_dec c d) as [->|]; [|discriminate]. cbn. f_equal. now apply IH. }
  revert i. induction s as [|c s IH]; intros i; cbn [find].
  - destruct (prefix pat "") eqn:E; [|discriminate]. intros [= <-]. cbn.
    now apply Hprefix.
  - destruct (prefix pat (String c s)) eqn:E.
    + intros [= <-]. now apply Hprefix.
    + destruct (find pat s) as [j|]; [|discriminate]. intros [= <-]. cbn. f_equal.
      now apply IH.
Qed.

(** Replacing an occurrence by a text without [$] that equals it changes
    nothing. *)
Lemma replace_string_same (s pat : string) :
  plain pat = true -> replace_string s pat pat = s.
Proof.
  intros Hplain. unfold replace_string. destruct (find pat s) as [i|] eqn:E; [|reflexivity].
  rewrite substitute_plain by assumption. symmetry. now apply find_occurrence.
Qed.

Lemma replace_regexp_once (re : RegExp) (s template : string) (m : Match) :
  exec re s = Some m ->
  matched m <> "" ->
  exec re (drop (index m + String.length (matched m)) s) = None ->
  replace_regexp s re template
  = take (index m) s
    ++ substitute (List.length (groups (pattern re))) (groups_of m) (matched m)
         (take (index m) s) (drop (index m + String.length (matched m)) s) template
    ++ drop (index m + String.length (matched m)) s.
Proof.
  intros Hexec Hnonempty Hrest. unfold replace_regexp. cbn [replace_loop].
  rewrite Hexec. cbn zeta. destruct (matched m) as [|c text] eqn:Hm; [contradiction|].
  cbn [append]. f_equal. f_equal.
  destruct (String.length s); cbn [replace_loop]; [reflexivity|].
  now rewrite Hrest.
Qed.

(** ** The image pass *)

(** A page with a single [<img], which carries the marker: the loop rewrites
    that element and stops. *)
Lemma changeImages_single (cfg : Config) (html : string) :
  indexOf html "<img" <> (-1)%Z ->
  (-1 <? indexOf (getTextPart html "<img" ">") "data-defer")%Z = true ->
  indexOf
    (substr html (indexOf html (getTextPart html "<img" ">") + 1)
       (Z.of_nat (String.length html))) "<img" = (-1)%Z ->
  changeImages cfg html
  = replace_string html (getTextPart html "<img" ">")
      (setImage cfg (getTextPart html "<img" ">")).
Proof.
  intros Hfound Hmarker Hlast. unfold changeImages.
  assert (String.length html <> 0) as Hfuel.
  { destruct html; [now contradiction Hfound | discriminate]. }
  revert Hfuel. generalize (String.length html) at 1 2. intros fuel Hfuel.
  destruct fuel as [|fuel]; [contradiction|].
  cbn [changeImages_loop]. apply Z.eqb_neq in Hfound. rewrite Hfound, Hmarker.
  cbn zeta. destruct fuel; cbn [changeImages_loop]; [reflexivity|].
  now rewrite Hlast.
Qed.

Lemma setImage_example (cfg : Config) :
  setImage cfg example_image
  = q "<img data-defer src='" ++ newBase64Image cfg "10" "10"
    ++ q "' data-defer-src='a.png' width='10' height='10'>".
Proof.
  unfold setImage.
  replace (first_group width_regexp example_image) with (Some "10")
    by (vm_compute; reflexivity).
  replace (first_group height_regexp example_image) with (Some "10")
    by (vm_compute; reflexivity).
  cbn [falsy String.eqb orb text_of].
  rewrite (replace_regexp_once src_regexp example_image _
             {| index := 16;
                matched := q "src='a.png' width='10' height='10'";
                groups_of := [(1, q "a.png' width='10' height='10")] |});
    [| vm_compute; reflexivity | vm_compute; discriminate | vm_compute; reflexivity ].
  cbn [index matched groups_of].
  rewrite (substitute_app_plain _ _ _ _ _ (q "src='")) by reflexivity.
  rewrite substitute_app_plain by apply plain_newBase64Image.
  generalize (newBase64Image cfg "10" "10") as placeholder. intros placeholder.
  rewrite !append_assoc.
  replace (take 16 example_image ++ q "src='" ++ placeholder
           ++ substitute (List.length (groups (pattern src_regexp)))
                [(1, q "a.png' width='10' height='10")]
                (q "src='a.png' width='10' height='10'") (take 16 example_image)
                (drop (16 + String.length (q "src='a.png' width='10' height='10'"))
                   example_image)
                (q "' data-defer-src='$1'")
           ++ drop (16 + String.length (q "src='a.png' width='10' height='10'"))
                example_image)
    with (q "<img data-defer src='" ++ placeholder
          ++ q "' data-defer-src='a.png' width='10' height='10'>");
    [reflexivity|].
  reflexivity.
Qed.


Lemma changeImages_example (cfg : Config) :
  changeImages cfg example_image
  = q "<img data-defer src='" ++ newBase64Image cfg "10" "10"
    ++ q "' data-defer-src='a.png' width='10' height='10'>".
Proof.
  rewrite changeImages_single;
    [| vm_compute; discriminate | vm_compute; reflexivity | vm_compute; reflexivity ].
  replace (getTextPart example_image "<img" ">") with example_image
    by (vm_compute; reflexivity).
  rewrite setImage_example. unfold replace_string.
  replace (find example_image example_image) with (Some 0) by (vm_compute; reflexivity).
  rewrite substitute_plain.
  - replace (drop (0 + String.length example_image) example_image) with ""
      by (vm_compute; reflexivity).
    cbn [take append]. now rewrite !append_empty_r.
  - rewrite !plain_app, plain_newBase64Image. reflexivity.
Qed.

(** The placeholder is a data URI in the base64 alphabet: no double quote
    can end the attribute it is written into. *)
Lemma lacks_app (c : ascii) (a b : string) : lacks c (a ++ b) = lacks c a && lacks c b.
Proof.
  induction a as [|x a IH]; cbn; [reflexivity|].
  rewrite IH. now rewrite andb_assoc.
Qed.

Lemma base64_digit_unquoted (n : nat) : negb (Ascii.eqb (base64_digit n) dquote) = true.
Proof.
  unfold base64_digit. do 64 (destruct n as [|n]; [reflexivity|]). reflexivity.
Qed.

Lemma lacks_dquote_btoa (s : string) : lacks dquote (btoa s) = true.
Proof.
  remember (String.length s) as n eqn:Hn. revert s Hn.
  induction n as [n IH] using lt_wf_ind. intros s Hn.
  destruct s as [|a [|b [|c rest]]]; cbn [btoa]; cbn zeta; cbn [lacks];
    rewrite ?base64_digit_unquoted; try reflexivity.
  cbn [andb]. apply (IH (String.length rest)); [cbn in Hn; lia | reflexivity].
Qed.

Lemma placeholder_unquoted (cfg : Config) (width height : string) :
  lacks dquote (newBase64Image cfg width height) = true.
Proof.
  unfold newBase64Image. cbn zeta. rewrite lacks_app, lacks_dquote_btoa. reflexivity.
Qed.

(** *** Elements without dimensions *)

Lemma find_none_step (pat s : string) :
  find pat s = None ->
  prefix pat s = false
  /\ match s with
     | EmptyString => True
     | String _ s' => find pat s' = None
     end.
Proof.
  destruct s as [|c s]; cbn [find].
  - destruct (prefix pat ""); [discriminate | auto].
  - destruct (prefix pat (String c s)); [discriminate|].
    destruct (find pat s); [discriminate | auto].
Qed.

(** A pattern that starts with a literal text matches only where that text
    stands. *)
Lemma rmatch_lit (text : string) : forall s caps k result,
  rmatch false (lit text) s caps k = Some result -> prefix text s = true.
Proof.
  induction text as [|c text IH]; intros s caps k result; cbn [lit rmatch].
  - intros _. now destruct s.
  - destruct s as [|a s]; [discriminate|]. unfold one_char, char_matches.
    destruct (Ascii.eqb_spec c a) as [->|]; [|discriminate].
    intros H. cbn [prefix]. destruct (ascii_dec a a); [|contradiction].
    now apply (IH s caps k result).
Qed.

Lemma exec_from_none (re : RegExp) (text : string) (r : regex) :
  pattern re = RSeq (lit text) r -> ignoreCase re = false ->
  forall s i, find text s = None -> exec_from re s i = None.
Proof.
  intros Hpattern Hcase. induction s as [|c s IH]; intros i Hfind;
    apply find_none_step in Hfind as [Hprefix Hrest]; cbn [exec_from];
    rewrite Hpattern, Hcase; cbn [rmatch].
  - destruct (rmatch false (lit text) "" [] _) as [[rest caps]|] eqn:E; [|reflexivity].
    apply rmatch_lit in E. congruence.
  - destruct (rmatch false (lit text) (String c s) [] _) as [[rest caps]|] eqn:E.
    + apply rmatch_lit in E. congruence.
    + now apply IH.
Qed.

Lemma first_group_width_none (image : string) :
  find (q "width='") image = None -> first_group width_regexp image = None.
Proof.
  intros H. unfold first_group, exec.
  now rewrite (exec_from_none width_regexp (q "width='") _ eq_refl eq_refl image 0 H).
Qed.

Lemma first_group_height_none (image : string) :
  find (q "height='") image = None -> first_group height_regexp image = None.
Proof.
  intros H. unfold first_group, exec.
  now rewrite (exec_from_none height_regexp (q "height='") _ eq_refl eq_refl image 0 H).
Qed.

Lemma setImage_without_dimension (cfg : Config) (image : string) :
  first_group width_regexp image = None \/ first_group height_regexp image = None ->
  setImage cfg image = image.
Proof.
  unfold setImage. intros [-> | ->]; cbn [falsy orb]; [reflexivity|].
  now rewrite orb_true_r.
Qed.

(** A page with a single [<img] whose element [setImage] leaves alone is
    left alone by the whole pass, provided the element holds no [$]: the loop
    writes the element back with [replace], which reads [$] in a replacement
    as a pattern. *)
Lemma changeImages_untouched (cfg : Config) (html : string) :
  indexOf html "<img" <> (-1)%Z ->
  indexOf
    (substr html (indexOf html (getTextPart html "<img" ">") + 1)
       (Z.of_nat (String.length html))) "<img" = (-1)%Z ->
  setImage cfg (getTextPart html "<img" ">") = getTextPart html "<img" ">" ->
  plain (getTextPart html "<img" ">") = true ->
  changeImages cfg html = html.
Proof.
  intros Hfound Hlast Hsame Hplain.
  destruct (-1 <? indexOf (getTextPart html "<img" ">") "data-defer")%Z eqn:Hmarker.
  - rewrite changeImages_single by assumption. rewrite Hsame.
    now apply replace_string_same.
  - unfold changeImages.
    assert (String.length html <> 0) as Hfuel.
    { destruct html; [now contradiction Hfound | discriminate]. }
    revert Hfuel. generalize (String.length html) at 1 2. intros fuel Hfuel.
    destruct fuel as [|fuel]; [contradiction|].
    cbn [changeImages_loop]. apply Z.eqb_neq in Hfound. rewrite Hfound, Hmarker.
    cbn zeta. destruct fuel; cbn [changeImages_loop]; [reflexivity|].
    now rewrite Hlast.
Qed.

(** The element of the README's example,
    [<img data-defer src='a.png' width='10' height='10'>] (apostrophes for
    double quotes), comes out of the image pass with the generated
    placeholder data URI for its [src] and with [a.png] for its
    [data-defer-src], the other attributes following unchanged: [setImage]
    does so on the element and [changeImages] on a page that is the element.
    Every element in whose text the search for [width='], digits and a
    quote, or the search for [height='], digits and a quote, finds nothing
    is returned unchanged by [setImage]: in particular every element in
    whose text [width='] or [height='] does not occur.  [changeImages]
    returns the marked elements of the examples, one without height and one
    without width, as they are. *)
Theorem image_pass_round_trip (cfg : Config) :
  setImage cfg example_image
  = q "<img data-defer src='" ++ newBase64Image cfg "10" "10"
    ++ q "' data-defer-src='a.png' width='10' height='10'>"
  /\ changeImages cfg example_image = setImage cfg example_image
  /\ lacks dquote (newBase64Image cfg "10" "10") = true
  /\ (forall image,
        first_group width_regexp image = None \/ first_group height_regexp image = None ->
        setImage cfg image = image)
  /\ (forall image,
        find (q "width='") image = None \/ find (q "height='") image = None ->
        setImage cfg image = image)
  /\ changeImages cfg image_without_height = image_without_height
  /\ changeImages cfg image_without_width = image_without_width.
Proof.
  split; [apply setImage_example|].
  split; [now rewrite changeImages_example, setImage_example|].
  split; [apply placeholder_unquoted|].
  split; [apply setImage_without_dimension|].
  assert (forall image,
            find (q "width='") image = None \/ find (q "height='") image = None ->
            setImage cfg image = image) as Habsent.
  { intros image [H|H]; apply setImage_without_dimension.
    - left. now apply first_group_width_none.
    - right. now apply first_group_height_none. }
  split; [exact Habsent|]. split.
  - apply changeImages_untouched;
      [vm_compute; discriminate | vm_compute; reflexivity | | vm_compute; reflexivity].
    apply Habsent. right. vm_compute. reflexivity.
  - apply changeImages_untouched;
      [vm_compute; discriminate | vm_compute; reflexivity | | vm_compute; reflexivity].
    apply Habsent. left. vm_compute. reflexivity.
Qed.

(** C9, at an element that carries the marker and has no [width]
    attribute, but another attribute whose name ends in [width]: the
    pattern of [setImage] is not anchored at the start of an attribute name
    and finds [width='10'] inside [data-width='10'], so the image pass
    rewrites the element, where the claim has it returned unchanged.  An
    element in which no attribute name ends in [height] or in [width] is
    returned unchanged, as the claim says. *)
Lemma setImage_reads_width_in_data_width :
  attribute_names image_with_data_width = ["data-defer"; "src"; "data-width"; "height"]
  /\ ~ In "width" (attribute_names image_with_data_width)
  /\ first_group width_regexp image_with_data_width = Some "10"
  /\ setImage config image_with_data_width
     = q "<img data-defer src='" ++ newBase64Image config "10" "10"
       ++ q "' data-defer-src='a.png' data-width='10' height='10'>"
  /\ changeImages config image_with_data_width = setImage config image_with_data_width
  /\ changeImages config image_with_data_width <> image_with_data_width
  /\ changeImages config image_without_height = image_without_height
  /\ changeImages config image_without_width = image_without_width.
Proof.
  split; [reflexivity|]. split.
  - vm_compute. intuition discriminate.
  - split; [reflexivity|]. split; [vm_compute; reflexivity|].
    split; [vm_compute; reflexivity|].
    split; [intros Heq; vm_compute in Heq; discriminate Heq|].
    split; vm_compute; reflexivity.
Qed.

(** The pass is not the identity on every element that lacks a dimension:
    [setImage] returns this one as it is, and writing it back turns its [$$]
    into [$]. *)
Example changeImages_reads_dollars :
  setImage config image_with_dollars = image_with_dollars
  /\ changeImages config image_with_dollars
     = q "<img data-defer src='a$b.png' width='10'>".
Proof. split; vm_compute; reflexivity. Qed.

(** ** The loop of [changeImages] ends

    The element the loop looks at occurs in [cloned], so [cloned] loses at
    least one character per iteration: once the fuel is the length of the
    page the result no longer depends on it. *)

Lemma length_take (n : nat) (s : string) :
  String.length (take n s) = Nat.min n (String.length s).
Proof.
  revert s. induction n as [|n IH]; intros [|c s]; cbn; auto.
Qed.

Lemma length_drop (n : nat) (s : string) :
  String.length (drop n s) = String.length s - n.
Proof.
  revert s. induction n as [|n IH]; intros [|c s]; cbn; auto.
Qed.

Lemma prefix_take (n : nat) (s : string) : prefix (take n s) s = true.
Proof.
  revert s. induction n as [|n IH]; intros [|c s]; cbn; auto.
  destruct (ascii_dec c c); [apply IH | contradiction].
Qed.

Lemma prefix_trans (a b c : string) :
  prefix a b = true -> prefix b c = true -> prefix a c = true.
Proof.
  revert b c. induction a as [|x a IH]; intros b c Hab Hbc; [now destruct c|].
  destruct b as [|y b]; [discriminate|]. destruct c as [|z c]; [discriminate|].
  cbn in *. destruct (ascii_dec x y) as [->|]; [|discriminate].
  destruct (ascii_dec y z) as [->|]; [|discriminate].
  destruct (ascii_dec z z); [|contradiction]. now apply (IH b c).
Qed.

Lemma find_complete (pat : string) (i : nat) : forall s,
  prefix pat (drop i s) = true -> exists j, find pat s = Some j.
Proof.
  induction i as [|i IH]; intros s H.
  - exists 0. destruct s; cbn [find drop] in *; now rewrite H.
  - destruct s as [|c s]; cbn [drop] in H.
    + exists 0. cbn [find]. now rewrite H.
    + cbn [find]. destruct (prefix pat (String c s)); [now exists 0|].
      destruct (IH s H) as [j ->]. now exists (S j).
Qed.

(** The element [getTextPart] cuts out occurs in the text. *)
Lemma getTextPart_occurs (text start stop : string) :
  indexOf text start <> (-1)%Z ->
  exists j, find (getTextPart text start stop) text = Some j.
Proof.
  intros Hfound.
  assert (exists i, indexOf text start = Z.of_nat i) as [i Hi].
  { unfold indexOf in *. destruct (find start text) as [i|];
      [now exists i | contradiction]. }
  unfold getTextPart, substr. rewrite Hi.
  assert ((Z.of_nat i <? 0)%Z = false) as -> by (apply Z.ltb_ge; lia).
  rewrite !Nat2Z.id.
  set (rest := take (String.length text) (drop i text)).
  cbn zeta. change (0 <? 0)%Z with false. cbn iota.
  change (Z.to_nat 0) with 0. change (drop 0 rest) with rest.
  apply (find_complete _ i).
  apply prefix_trans with rest; [apply prefix_take|]. apply prefix_take.
Qed.

Lemma changeImages_loop_shrinks (cloned element : string) (j : nat) :
  cloned <> "" -> find element cloned = Some j ->
  String.length
    (substr cloned (indexOf cloned element + 1) (Z.of_nat (String.length cloned)))
  < String.length cloned.
Proof.
  intros Hnonempty Hfind. unfold indexOf, substr. rewrite Hfind.
  assert ((Z.of_nat j + 1 <? 0)%Z = false) as -> by (apply Z.ltb_ge; lia).
  rewrite length_take, length_drop.
  destruct cloned; [contradiction|]. cbn [String.length]. lia.
Qed.

Lemma changeImages_loop_enough (cfg : Config) : forall fuel fuel' html cloned,
  String.length cloned <= fuel -> String.length cloned <= fuel' ->
  changeImages_loop fuel cfg html cloned = changeImages_loop fuel' cfg html cloned.
Proof.
  assert (forall fuel html, changeImages_loop fuel cfg html "" = html) as Hempty.
  { intros [|fuel] html; reflexivity. }
  induction fuel as [|fuel IH]; intros fuel' html cloned Hfuel Hfuel'.
  - destruct cloned; [|cbn in Hfuel; lia]. now rewrite Hempty.
  - destruct fuel' as [|fuel'].
    + destruct cloned; [|cbn in Hfuel'; lia]. now rewrite !Hempty.
    + cbn [changeImages_loop]. destruct (Z.eqb_spec (indexOf cloned "<img") (-1));
        [reflexivity|]. cbn zeta.
      destruct (getTextPart_occurs cloned "<img" ">") as [j Hj]; [assumption|].
      assert (cloned <> "") as Hnonempty by (intros ->; now apply n).
      pose proof (changeImages_loop_shrinks cloned _ j Hnonempty Hj) as Hshrinks.
      apply IH; lia.
Qed.

Lemma changeImages_exit_loop (cfg : Config) : forall fuel html cloned,
  String.length cloned <= fuel ->
  changeImages_exit (S fuel) cfg html cloned
  = Some (changeImages_loop fuel cfg html cloned).
Proof.
  induction fuel as [|fuel IH]; intros html cloned Hfuel.
  - destruct cloned; [reflexivity | cbn in Hfuel; lia].
  - cbn [changeImages_exit changeImages_loop].
    destruct (Z.eqb_spec (indexOf cloned "<img") (-1)); [reflexivity|]. cbn zeta.
    destruct (getTextPart_occurs cloned "<img" ">") as [j Hj]; [assumption|].
    assert (cloned <> "") as Hnonempty by (intros ->; now apply n).
    pose proof (changeImages_loop_shrinks cloned _ j Hnonempty Hj) as Hshrinks.
    apply IH. lia.
Qed.

(** X3. The loop of [changeImages] is left on every page: the test
    [-1 != origin] fails after at most as many iterations as the page has
    characters, and the page the loop has built by then is the result of
    [changeImages]. *)
Theorem changeImages_terminates (cfg : Config) (html : string) :
  changeImages_exit (S (String.length html)) cfg html html
  = Some (changeImages cfg html).
Proof.
  unfold changeImages. now apply changeImages_exit_loop.
Qed.

Open Scope list_scope.

(** ** Activation, beacons and saved data *)

Lemma indexOf_zero_prefix (s pat : string) :
  (indexOf s pat =? 0)%Z = prefix pat s.
Proof.
  unfold indexOf. destruct s as [|c s]; cbn [find].
  - now destruct (prefix pat "").
  - destruct (prefix pat (String c s)); [reflexivity|].
    destruct (find pat s) as [i|]; cbn [option_map]; [|reflexivity].
    apply Z.eqb_neq. lia.
Qed.

Lemma caches_delete_all (names : list string) : forall cs : CacheStorage,
  fold_left (fun acc oldKey => caches_delete oldKey acc) names cs
  = filter (fun named => negb (existsb (String.eqb (fst named)) names)) cs.
Proof.
  induction names as [|n names IH]; intros cs; cbn [fold_left existsb].
  - induction cs as [|x cs IHcs]; cbn [filter existsb negb]; [reflexivity | f_equal; exact IHcs].
  - rewrite IH. unfold caches_delete. clear IH.
    induction cs as [|x cs IHcs]; cbn [filter]; [reflexivity|].
    rewrite (String.eqb_sym (fst x) n).
    destruct (String.eqb n (fst x)); cbn [negb orb filter]; [exact IHcs|].
    destruct (existsb _ names); cbn [negb]; [exact IHcs | now rewrite IHcs].
Qed.

Lemma caches_open_filter (keep : string -> bool) (name : string) (cs : CacheStorage) :
  keep name = true ->
  caches_open name (filter (fun named => keep (fst named)) cs) = caches_open name cs.
Proof.
  intros Hkeep. induction cs as [|[n c] cs IH]; cbn [filter caches_open fst]; [reflexivity|].
  destruct (String.eqb_spec n name) as [->|Hne].
  - rewrite Hkeep. cbn [caches_open]. now rewrite String.eqb_refl.
  - destruct (keep n); cbn [caches_open]; [|exact IH].
    destruct (String.eqb_spec n name); [contradiction | exact IH].
Qed.

Lemma prefix_append (a b : string) : prefix a (a ++ b) = true.
Proof.
  induction a as [|c a IH]; cbn; [now destruct b|].
  destruct (ascii_dec c c); [exact IH | contradiction].
Qed.

Lemma purge_is_filter (running : string) (cs : CacheStorage) :
  purge running cs = filter (fun named => prefix running (fst named)) cs.
Proof.
  unfold purge. rewrite caches_delete_all. apply filter_ext_in.
  intros [n c] Hin. cbn [fst]. unfold old_keys.
  destruct (prefix running n) eqn:Hprefix.
  - apply negb_true_iff, existsb_false_iff. intros key Hkey.
    apply filter_In in Hkey as [_ Hkey]. rewrite indexOf_zero_prefix in Hkey.
    apply String.eqb_neq. intros <-. rewrite Hprefix in Hkey. discriminate.
  - apply negb_false_iff, existsb_exists. exists n. split; [|apply String.eqb_refl].
    apply filter_In. split.
    + unfold caches_keys. apply in_map_iff. now exists (n, c).
    + now rewrite indexOf_zero_prefix, Hprefix.
Qed.

(** X5. Activation leaves exactly the caches whose name starts with the
    version handed to it, in their order and with their entries; the caches
    the running worker names with [cacheName] are among them, so activation
    never empties a cache the worker itself fills, and a cache of any other
    name is gone afterwards. *)
Theorem activation_keeps_own_caches (running : string) (cs : CacheStorage) :
  purge running cs = filter (fun named => prefix running (fst named)) cs
  /\ (forall key, caches_open (cacheName key) (onActivate cs) = caches_open (cacheName key) cs)
  /\ (forall name, prefix version name = false -> caches_open name (onActivate cs) = []).
Proof.
  split; [apply purge_is_filter|]. unfold onActivate. rewrite purge_is_filter. split.
  - intros key. apply (caches_open_filter (prefix version)).
    unfold cacheName. apply prefix_append.
  - intros name Hname. induction cs as [|[n c] cs IH]; cbn [filter fst]; [reflexivity|].
    destruct (prefix version n) eqn:Hn; [|exact IH]. cbn [caches_open].
    destruct (String.eqb_spec n name) as [->|_]; [congruence | exact IH].
Qed.

(** X6. A request to the analytics collection endpoint is attempted on the
    network and, the database being open, recorded in it under its url
    whether the attempt succeeds or fails. *)
Theorem beacon_is_recorded (network : string -> option Response) (now : Z)
    (request : Request) (w : World) (records : list RetryRecord) :
  hostname request = "www.google-analytics.com"
  \/ hostname request = "ssl.google-analytics.com" ->
  pathname request = "/collect" ->
  database w = Some records ->
  exists records',
    database (snd (analyticsFetch network now request w)) = Some records'
    /\ In (url request) (map record_url records')
    /\ fetched (snd (analyticsFetch network now request w)) = fetched w ++ [url request]
    /\ fst (analyticsFetch network now request w)
       = match network (url request) with
         | Some response => RespondWith (Some response)
         | None => RespondWithError
         end.
Proof.
  intros Hhost Hpath Hdb. unfold analyticsFetch.
  assert (existsb (String.eqb (hostname request))
            ["www.google-analytics.com"; "ssl.google-analytics.com"] = true) as ->.
  { destruct Hhost as [-> | ->]; reflexivity. }
  rewrite Hpath. cbn [andb String.eqb Ascii.eqb Bool.eqb].
  unfold fetch, store. cbn [database].
  assert (forall rs : list RetryRecord,
            In (url request)
              (map record_url
                 (if existsb (fun r => String.eqb (record_url r) (url request)) rs
                  then rs
                  else add_record {| record_url := url request; timestamp := now |} rs)))
    as Hrecorded.
  { intros rs.
    destruct (existsb (fun r => String.eqb (record_url r) (url request)) rs) eqn:E.
    - apply existsb_exists in E as (r & Hin & Heq). apply String.eqb_eq in Heq.
      rewrite <- Heq. now apply in_map.
    - apply in_map_iff. exists {| record_url := url request; timestamp := now |}.
      split; [reflexivity|]. apply in_add_record. now left. }
  destruct (network (url request)) as [response|]; rewrite Hdb; cbn [fst snd database fetched];
    eexists; (split; [reflexivity|]); (split; [apply Hrecorded|]); split; reflexivity.
Qed.

Lemma beacon_is_recorded_witness :
  exists records',
    database (snd (analyticsFetch no_network 5 beacon_request empty_world)) = Some records'
    /\ In (url beacon_request) (map record_url records').
Proof.
  destruct (beacon_is_recorded no_network 5 beacon_request empty_world []
              (or_introl eq_refl) eq_refl eq_refl) as (records' & Hdb & Hin & _).
  exists records'. split; [exact Hdb | exact Hin].
Defined.

(** X7. When the client asks to save data and the url holds one of the
    configured [saveDataItems], the handler answers 408 with an empty body
    at once: nothing is fetched, cached or recorded. *)
Theorem save_data_is_answered_408 (network : string -> option Response)
    (self_origin : string) (cfg : Config) (now : Z) (request : Request) (w : World)
    (items : list string) (header item : string) :
  saveDataItems cfg = Some items ->
  save_data request = Some header -> header <> "" ->
  In item items -> includes (url request) item = true ->
  onFetch network self_origin cfg now request w
  = (RespondWith
       (Some {| status := 408; statusText := "Ignore request to save data.";
                headers := [("content-type", "text/plain;charset=UTF-8")];
               body := "" |}), w).
Proof.
  intros Hitems Hheader Hnonempty Hin Hincludes. unfold onFetch, shouldSaveData.
  rewrite Hitems, Hheader. cbn [falsy].
  apply String.eqb_neq in Hnonempty. rewrite Hnonempty.
  assert (existsb (fun i => includes (url request) i) items = true) as ->;
    [|reflexivity].
  apply existsb_exists. now exists item.
Qed.

Lemma save_data_is_answered_408_witness :
  fst (onFetch page_network "https://example.com" config_saving_data 0 fonts_request
         empty_world)
  = RespondWith
      (Some {| status := 408; statusText := "Ignore request to save data.";
               headers := [("content-type", "text/plain;charset=UTF-8")];
               body := "" |})
  /\ snd (onFetch page_network "https://example.com" config_saving_data 0 fonts_request
            empty_world)
     = empty_world.
Proof.
  rewrite (save_data_is_answered_408 page_network "https://example.com" config_saving_data
             0 fonts_request empty_world ["fonts.googleapis.com"] "on"
             "fonts.googleapis.com" eq_refl eq_refl);
    [split; reflexivity | discriminate | now left | reflexivity].
Defined.

(** ** The fetch flows when the network or the cache fails *)

Lemma resourceType_of_not_content (acceptHeader : string) :
  includes acceptHeader "text/html" = false ->
  resourceType_of acceptHeader
  = if includes acceptHeader "image" then image else static.
Proof.
  intros Hhtml. unfold resourceType_of.
  assert (indexOf acceptHeader "text/html" = (-1)%Z) as ->.
  { destruct (Z.eq_dec (indexOf acceptHeader "text/html") (-1)) as [E|E]; [exact E|].
    apply includes_indexOf in E. congruence. }
  cbn [Z.eqb negb Pos.eqb]. unfold includes, indexOf.
  destruct (find "image" acceptHeader) as [i|]; [|reflexivity].
  destruct (Z.eqb_spec (Z.of_nat i) (-1)); [lia | reflexivity].
Qed.

(** X8. A page request whose fetch fails is answered from the caches: with
    the entry stored for its url if there is one, else with the cached copy
    of the configured offline page, else with nothing (the page sees a
    network error).  One fetch was attempted; the caches and the database
    are as before. *)
Theorem content_falls_back_when_offline (network : string -> option Response)
    (cfg : Config) (request : Request) (acceptHeader : string) (w : World) :
  accept request = Some acceptHeader ->
  includes acceptHeader "text/html" = true ->
  network (url request) = None ->
  doFetch network cfg request w
  = (RespondWith
       match caches_match (url request) (caches w) with
       | Some cached => Some cached
       | None =>
           match offline cfg with
           | Some off =>
               match offline_page off with
               | Some page =>
                   if String.eqb page "" then None else caches_match page (caches w)
               | None => None
               end
           | None => None
           end
       end,
     {| caches := caches w; database := database w;
        fetched := fetched w ++ [url request]; written := written w |}).
Proof.
  intros Haccept Hhtml Hnet. apply resourceType_of_content in Hhtml.
  unfold doFetch. rewrite Haccept, Hhtml.
  unfold contentFlow, then_, catch_, resolve, fetch, fetchFromCache, offlineResponse.
  rewrite Hnet. cbn [caches].
  destruct (caches_match (url request) (caches w)) as [cached|]; [reflexivity|].
  destruct (offline cfg) as [off|]; [|reflexivity].
  unfold set_and_truthy, falsy, text_of.
  destruct (offline_page off) as [page|]; [|reflexivity].
  destruct (String.eqb page ""); reflexivity.
Qed.

Lemma content_falls_back_when_offline_witness :
  fst (doFetch no_network config page_request
         {| caches := [(cacheName "content", [(url page_request, stale_page)])];
            database := None; fetched := []; written := [] |})
  = RespondWith (Some stale_page).
Proof.
  rewrite (content_falls_back_when_offline no_network config page_request
             "text/html,application/xhtml+xml" _ eq_refl eq_refl eq_refl).
  reflexivity.
Defined.

(** X9. An image or static request that no cache answers goes to the
    network.  The network's answer is returned as it is, whatever its
    status, and is stored under the request's url in the cache of its type
    when it is ok and caching is enabled.  When the fetch fails, an image
    request gets the configured offline image as a fresh 200 response of
    type [image/svg+xml], and any other request gets nothing. *)
Theorem cacheFirst_miss (network : string -> option Response) (cfg : Config)
    (request : Request) (acceptHeader : string) (w : World) :
  accept request = Some acceptHeader ->
  includes acceptHeader "text/html" = false ->
  caches_match (url request) (caches w) = None ->
  let cacheKey := cacheName (if includes acceptHeader "image" then "image" else "static") in
  let attempted :=
    {| caches := caches w; database := database w;
       fetched := fetched w ++ [url request]; written := written w |} in
  (forall raw, network (url request) = Some raw ->
     doFetch network cfg request w
     = (RespondWith (Some raw),
        if ok raw && cache_enabled cfg
        then {| caches := caches_update cacheKey (cache_put (url request) raw) (caches w);
                database := database w;
                fetched := fetched w ++ [url request];
                written := written w ++ [(cacheKey, url request, raw)] |}
        else attempted))
  /\ (network (url request) = None ->
      doFetch network cfg request w
      = (RespondWith
           match offline cfg with
           | Some off =>
               match offline_image off with
               | Some svg =>
                   if includes acceptHeader "image" && negb (String.eqb svg "")
                   then Some {| status := 200; statusText := "";
                                headers := [("Content-Type", "image/svg+xml")];
                                body := svg |}
                   else None
               | None => None
               end
           | None => None
           end,
         attempted)).
Proof.
  intros Haccept Hhtml Hmiss cacheKey attempted.
  pose proof (resourceType_of_not_content acceptHeader Hhtml) as Htype.
  unfold doFetch. rewrite Haccept, Htype. subst cacheKey.
  split.
  - intros raw Hnet.
    destruct (includes acceptHeader "image");
      unfold cacheFirstFlow, then_, catch_, resolve, fetchFromCache, fetch, addToCache;
      rewrite Hmiss, Hnet; cbn [caches database fetched written type_name];
      destruct (ok raw && cache_enabled cfg); reflexivity.
  - intros Hnet.
    destruct (includes acceptHeader "image");
      unfold cacheFirstFlow, then_, catch_, resolve, fetchFromCache, fetch, offlineResponse;
      rewrite Hmiss, Hnet; destruct (offline cfg) as [off|]; try reflexivity;
      unfold set_and_truthy, falsy, text_of, new_Response;
      destruct (offline_image off) as [svg|]; try reflexivity.
    destruct (String.eqb svg ""); reflexivity.
Qed.

Lemma cacheFirst_miss_witness :
  doFetch not_found_network config logo_request empty_world
  = (RespondWith (Some not_found_page),
     {| caches := []; database := Some []; fetched := [url logo_request]; written := [] |}).
Proof.
  exact (proj1 (cacheFirst_miss not_found_network config logo_request "image/png,image/*"
                  empty_world eq_refl eq_refl eq_refl) not_found_page eq_refl).
Defined.

(** ** What a visit leaves in the caches *)

Lemma caches_match_none (key : string) (cs : CacheStorage) :
  caches_match key cs = None <-> forall n c, In (n, c) cs -> cache_match key c = None.
Proof.
  induction cs as [|[n c] cs IH]; cbn [caches_match].
  - split; [intros _ ? ? [] | reflexivity].
  - destruct (cache_match key c) as [r|] eqn:E.
    + split; [discriminate|]. intros H. rewrite <- E. apply (H n). now left.
    + rewrite IH. split.
      * intros H n' c' [Heq|Hin]; [injection Heq as <- <-; exact E | eauto].
      * intros H n' c' Hin. apply (H n'). now right.
Qed.

Lemma caches_match_update (name key : string) (r : Response) (cs : CacheStorage) :
  caches_match key cs = None ->
  caches_match key (caches_update name (cache_put key r) cs) = Some r.
Proof.
  induction cs as [|[n c] cs IH]; cbn [caches_match caches_update].
  - intros _. now rewrite cache_match_put_same.
  - destruct (cache_match key c) as [old|] eqn:E; [discriminate|]. intros Hrest.
    destruct (String.eqb n name); cbn [caches_match].
    + now rewrite cache_match_put_same.
    + rewrite E. now apply IH.
Qed.

(** X10. The first visit fills the cache.  For a url that no cache holds
    yet, a fetch that succeeds while caching is enabled makes the url
    available without the network: a page request that later finds the
    network down is answered with the rewritten page, and an image or static
    request whose first answer was ok is from then on answered with that
    answer and no fetch at all. *)
Theorem first_visit_fills_the_cache (network later : string -> option Response)
    (cfg : Config) (request : Request) (acceptHeader : string) (raw : Response)
    (w : World) :
  accept request = Some acceptHeader ->
  caches_match (url request) (caches w) = None ->
  network (url request) = Some raw ->
  cache_enabled cfg = true ->
  let visited := snd (doFetch network cfg request w) in
  (includes acceptHeader "text/html" = true ->
   later (url request) = None ->
   fst (doFetch later cfg request visited)
   = RespondWith (Some (deferYoutubeVideos cfg (deferImages cfg raw))))
  /\ (includes acceptHeader "text/html" = false ->
      ok raw = true ->
      fst (doFetch later cfg request visited) = RespondWith (Some raw)
      /\ fetched (snd (doFetch later cfg request visited)) = fetched visited).
Proof.
  intros Haccept Hmiss Hnet Hen visited. split.
  - intros Hhtml Hdown. apply resourceType_of_content in Hhtml.
    subst visited. unfold doFetch. rewrite Haccept, Hhtml.
    unfold contentFlow, then_, catch_, resolve, fetch, addToCache.
    rewrite Hnet, Hen.
    assert (ok (deferYoutubeVideos cfg (deferImages cfg raw)) = true) as ->
      by apply new_Response_ok.
    cbn [andb snd caches]. rewrite Hdown. unfold fetchFromCache. cbn [caches].
    now rewrite caches_match_update.
  - intros Hhtml Hok. pose proof (resourceType_of_not_content acceptHeader Hhtml) as Htype.
    subst visited. unfold doFetch. rewrite Haccept, Htype.
    assert (forall resourceType,
              let w1 := snd (let (s, w') := cacheFirstFlow network cfg resourceType request w in
                             match s with
                             | Fulfilled response => (RespondWith response, w')
                             | Rejected => (RespondWithError, w')
                             end) in
              cacheFirstFlow later cfg resourceType request w1
              = (Fulfilled (Some raw),
                 {| caches := caches_update (cacheName (type_name resourceType))
                                (cache_put (url request) raw) (caches w1);
                    database := database w1; fetched := fetched w1;
                    written := written w1
                               ++ [(cacheName (type_name resourceType), url request, raw)] |}))
      as Hflow.
    { intros resourceType.
      unfold cacheFirstFlow, then_, catch_, resolve, fetchFromCache, fetch, addToCache.
      rewrite Hmiss, Hnet, Hok, Hen. cbn [andb snd caches].
      rewrite caches_match_update by assumption. rewrite ?Hok, ?Hen. reflexivity. }
    destruct (includes acceptHeader "image").
    + specialize (Hflow image). cbn zeta in Hflow. rewrite Hflow. now split.
    + specialize (Hflow static). cbn zeta in Hflow. rewrite Hflow. now split.
Qed.

Lemma first_visit_fills_the_cache_witness :
  fst (doFetch no_network config page_request
         (snd (doFetch page_network config page_request empty_world)))
  = RespondWith (Some (deferYoutubeVideos config (deferImages config example_page))).
Proof.
  exact (proj1 (first_visit_fills_the_cache page_network no_network config page_request
                  "text/html,application/xhtml+xml" example_page empty_world
                  eq_refl eq_refl eq_refl eq_refl) eq_refl eq_refl).
Defined.

(** ** A hit refreshes the entry *)

Lemma cache_keys_put (key : string) (r : Response) (c : Cache) :
  cache_keys (cache_put key r c)
  = filter (fun k => negb (String.eqb k key)) (cache_keys c) ++ [key].
Proof.
  unfold cache_put, cache_keys, cache_delete. rewrite map_app. f_equal.
  induction c as [|[k x] c IH]; cbn [filter map fst]; [reflexivity|].
  destruct (String.eqb k key); cbn [negb map fst]; now rewrite IH.
Qed.

Lemma NoDup_filter_keys (keep : string -> bool) (keys : list string) :
  NoDup keys -> NoDup (filter keep keys).
Proof.
  induction keys as [|k keys IH]; cbn [filter]; [constructor|]. intros Hnd.
  apply NoDup_cons_iff in Hnd as [Hfresh Hnd]. destruct (keep k); [|now apply IH].
  apply NoDup_cons; [|now apply IH]. intros Hin. apply filter_In in Hin. tauto.
Qed.

Lemma cache_put_keeps_keys_distinct (key : string) (r : Response) (c : Cache) :
  NoDup (cache_keys c) -> NoDup (cache_keys (cache_put key r c)).
Proof.
  intros Hnd. rewrite cache_keys_put. apply NoDup_app.
  - now apply NoDup_filter_keys.
  - apply NoDup_cons; [intros [] | apply NoDup_nil].
  - intros k Hk [<-|[]]. apply filter_In in Hk as [_ Hk].
    now rewrite String.eqb_refl in Hk.
Qed.

Lemma cache_match_skipn_last (key : string) (r : Response) (older : Cache) (n : nat) :
  cache_match key older = None ->
  n <= List.length older ->
  cache_match key (skipn n (older ++ [(key, r)])) = Some r.
Proof.
  revert n. induction older as [|[k x] older IH]; intros n Hmiss Hn.
  - destruct n; [|cbn in Hn; lia]. cbn. now rewrite String.eqb_refl.
  - cbn [cache_match] in Hmiss. destruct (String.eqb k key) eqn:E; [discriminate|].
    destruct n as [|n]; cbn [skipn app cache_match].
    + rewrite E. apply (IH 0); [exact Hmiss | lia].
    + apply IH; [exact Hmiss | cbn in Hn; lia].
Qed.

(** X11. An image or static request that a cache answers puts the answer
    back: when the cached response is ok and caching is enabled it is stored
    again under the request's url in the cache of the request's type, where
    it becomes the newest entry.  Trimming that cache to a positive
    [cache.maxItems] afterwards keeps it, whatever else is evicted: eviction
    goes by the time an entry was last served, not by the time it was first
    stored. *)
Theorem cache_hit_refreshes_entry (network : string -> option Response) (cfg : Config)
    (request : Request) (acceptHeader : string) (cached : Response) (w : World)
    (limit : nat) :
  accept request = Some acceptHeader ->
  includes acceptHeader "text/html" = false ->
  caches_match (url request) (caches w) = Some cached ->
  ok cached = true ->
  cache_enabled cfg = true ->
  cache_maxItems cfg = Some (S limit) ->
  let cacheKey := cacheName (if includes acceptHeader "image" then "image" else "static") in
  NoDup (cache_keys (caches_open cacheKey (caches w))) ->
  let served := caches (snd (doFetch network cfg request w)) in
  served = caches_update cacheKey (cache_put (url request) cached) (caches w)
  /\ caches_open cacheKey served
     = cache_delete (url request) (caches_open cacheKey (caches w))
       ++ [(url request, cached)]
  /\ cache_match (url request) (caches_open cacheKey (trimCache cfg cacheKey served))
     = Some cached.
Proof.
  intros Haccept Hhtml Hhit Hok Hen Hmax cacheKey Hnd served.
  pose proof (resourceType_of_not_content acceptHeader Hhtml) as Htype.
  assert (served = caches_update cacheKey (cache_put (url request) cached) (caches w))
    as Hserved.
  { subst served cacheKey. unfold doFetch. rewrite Haccept, Htype.
    destruct (includes acceptHeader "image");
      unfold cacheFirstFlow, then_, catch_, resolve, fetchFromCache, addToCache;
      rewrite Hhit, Hok, Hen; reflexivity. }
  split; [exact Hserved|]. rewrite Hserved.
  split; [now rewrite caches_open_update|].
  unfold trimCache. rewrite !caches_open_update.
  rewrite (trimCache_loop_skipn cfg (S limit) Hmax);
    [| now apply cache_put_keeps_keys_distinct | lia].
  unfold cache_put. apply cache_match_skipn_last; [apply cache_match_delete_same|].
  rewrite length_app. cbn [List.length]. lia.
Qed.

Lemma cache_hit_refreshes_entry_witness :
  let w := {| caches := [(cacheName "image", three_images)];
              database := None; fetched := []; written := [] |} in
  let request :=
    {| url := "https://example.com/a.png"; origin := "https://example.com";
       hostname := "example.com"; pathname := "/a.png"; method := "GET";
       accept := Some "image/png,image/*"; save_data := None |} in
  cache_keys
    (caches_open (cacheName "image")
       (trimCache (config_with_maxItems 2) (cacheName "image")
          (caches (snd (doFetch no_network (config_with_maxItems 2) request w)))))
  = ["https://example.com/c.png"; "https://example.com/a.png"].
Proof.
  cbn zeta.
  assert (NoDup (cache_keys three_images)) as Hnd.
  { repeat (apply NoDup_cons; [cbn; intuition discriminate|]). apply NoDup_nil. }
  destruct (cache_hit_refreshes_entry no_network (config_with_maxItems 2)
              {| url := "https://example.com/a.png"; origin := "https://example.com";
                 hostname := "example.com"; pathname := "/a.png"; method := "GET";
                 accept := Some "image/png,image/*"; save_data := None |}
              "image/png,image/*" logo
              {| caches := [(cacheName "image", three_images)];
                 database := None; fetched := []; written := [] |} 1
              eq_refl eq_refl eq_refl eq_refl eq_refl eq_refl Hnd) as (Hserved & _ & _).
  rewrite Hserved. reflexivity.
Defined.

(** ** Requests the worker leaves alone *)

(** X12. A request that is not a GET, or that goes to another origin, is
    not answered by the worker, unless it is a request to save data on or an
    analytics beacon: the handler returns without [respondWith], and nothing
    is fetched, cached or recorded. *)
Theorem other_requests_are_not_handled (network : string -> option Response)
    (self_origin : string) (cfg : Config) (now : Z) (request : Request) (w : World) :
  shouldSaveData cfg request = false ->
  method request <> "GET" \/ origin request <> self_origin ->
  analytics_enabled cfg = false
  \/ pathname request <> "/collect"
  \/ (hostname request <> "www.google-analytics.com"
      /\ hostname request <> "ssl.google-analytics.com") ->
  onFetch network self_origin cfg now request w = (NotHandled, w).
Proof.
  intros Hsave Hforeign Hplain. unfold onFetch. rewrite Hsave.
  assert (shouldHandleFetch self_origin cfg request = false) as ->.
  { unfold shouldHandleFetch, criteria. cbn [app filter snd].
    destruct (negb (String.eqb "sw.min.js" (pathname request))); cbn [negb];
      destruct Hforeign as [Hmethod|Horigin].
    - assert (String.eqb "GET" (method request) = false) as ->; [|reflexivity].
      apply String.eqb_neq. congruence.
    - apply String.eqb_neq in Horigin. rewrite Horigin. cbn [negb].
      destruct (String.eqb "GET" (method request)); reflexivity.
    - reflexivity.
    - reflexivity. }
  destruct (analytics_enabled cfg) eqn:Hanalytics; [|reflexivity].
  unfold analyticsFetch. destruct Hplain as [Hoff|[Hpath|[Hwww Hssl]]].
  - discriminate.
  - assert (String.eqb "/collect" (pathname request) = false) as ->.
    { apply String.eqb_neq. congruence. }
    now rewrite andb_false_r.
  - cbn [existsb]. apply String.eqb_neq in Hwww, Hssl. now rewrite Hwww, Hssl.
Qed.

Lemma other_requests_are_not_handled_witness :
  onFetch page_network "https://example.com" config 0
    {| url := "https://example.com/form"; origin := "https://example.com";
       hostname := "example.com"; pathname := "/form"; method := "POST";
       accept := Some "text/html"; save_data := None |} empty_world
  = (NotHandled, empty_world).
Proof.
  apply other_requests_are_not_handled;
    [reflexivity | left; discriminate | right; left; discriminate].
Defined.

(** ** Prefetching *)

Lemma cache_match_put_other (key other : string) (r : Response) (c : Cache) :
  key <> other -> cache_match other (cache_put key r c) = cache_match other c.
Proof.
  intros Hne. unfold cache_put. rewrite cache_match_app. cbn [cache_match].
  apply String.eqb_neq in Hne. rewrite Hne.
  assert (cache_match other (cache_delete key c) = cache_match other c) as ->.
  { unfold cache_delete. induction c as [|[k x] c IH]; cbn [filter cache_match fst];
      [reflexivity|].
    destruct (String.eqb k key) eqn:Ek; cbn [negb cache_match].
    - apply String.eqb_eq in Ek. subst k. now rewrite Hne.
    - destruct (String.eqb k other); [reflexivity | exact IH]. }
  now destruct (cache_match other c).
Qed.

Lemma prefetch_one_effect (network : string -> option Response) (cfg : Config)
    (w : World) (address : string) :
  let stored :=
    match network address with
    | Some response => ok response && cache_enabled cfg
    | None => false
    end in
  fetched (prefetch_one network cfg w address) = fetched w ++ [address]
  /\ database (prefetch_one network cfg w address) = database w
  /\ caches (prefetch_one network cfg w address)
     = match network address with
       | Some response =>
           if stored
           then caches_update (cacheName "content") (cache_put address response) (caches w)
           else caches w
       | None => caches w
       end.
Proof.
  unfold prefetch_one, then_, fetch, addToCache.
  destruct (network address) as [response|]; cbn zeta; [|repeat split].
  destruct (ok response && cache_enabled cfg); repeat split.
Qed.

Lemma prefetch_other_urls (network : string -> option Response) (cfg : Config)
    (other : string) (urls : list string) : forall w,
  ~ In other urls ->
  cache_match other
    (caches_open (cacheName "content") (caches (fold_left (prefetch_one network cfg) urls w)))
  = cache_match other (caches_open (cacheName "content") (caches w)).
Proof.
  induction urls as [|address urls IH]; intros w Hother; [reflexivity|].
  cbn [fold_left]. rewrite IH by (intros Hin; apply Hother; now right).
  destruct (prefetch_one_effect network cfg w address) as (_ & _ & ->).
  destruct (network address) as [response|]; [|reflexivity].
  destruct (ok response && cache_enabled cfg); [|reflexivity].
  rewrite caches_open_update. apply cache_match_put_other.
  intros ->. apply Hother. now left.
Qed.

(** X13. [prefetch] does nothing when prefetching is disabled.  Otherwise
    it fetches every url of the list once, in order, and leaves the database
    alone; with caching enabled each url answered with an ok response is
    afterwards held by the content cache with that response as the network
    gave it (a prefetched page is not rewritten), and the entries of the
    content cache for urls outside the list are as before. *)
Theorem prefetch_stores_the_raw_response (network : string -> option Response)
    (cfg : Config) (urls : list string) (w : World) :
  (prefetch_enabled cfg = false -> prefetch network cfg urls w = w)
  /\ (prefetch_enabled cfg = true ->
      fetched (prefetch network cfg urls w) = fetched w ++ urls
      /\ database (prefetch network cfg urls w) = database w
      /\ (forall address raw,
            cache_enabled cfg = true -> In address urls ->
            network address = Some raw -> ok raw = true ->
            cache_match address
              (caches_open (cacheName "content") (caches (prefetch network cfg urls w)))
            = Some raw)
      /\ (forall other,
            ~ In other urls ->
            cache_match other
              (caches_open (cacheName "content") (caches (prefetch network cfg urls w)))
            = cache_match other (caches_open (cacheName "content") (caches w)))).
Proof.
  unfold prefetch. split; [now intros ->|]. intros ->. cbn [negb].
  split; [|split; [|split]].
  - revert w. induction urls as [|address urls IH]; intros w; cbn [fold_left].
    + now rewrite app_nil_r.
    + rewrite IH. destruct (prefetch_one_effect network cfg w address) as (-> & _).
      now rewrite <- app_assoc.
  - revert w. induction urls as [|address urls IH]; intros w; cbn [fold_left];
      [reflexivity|].
    rewrite IH. now destruct (prefetch_one_effect network cfg w address) as (_ & -> & _).
  - intros address raw Hen. revert w.
    induction urls as [|first urls IH]; intros w Hin Hnet Hok; [destruct Hin|].
    cbn [fold_left]. destruct (in_dec string_dec address urls) as [Hlater|Hlast].
    + now apply IH.
    + destruct Hin as [->|Hin]; [|contradiction].
      rewrite prefetch_other_urls by assumption.
      destruct (prefetch_one_effect network cfg w address) as (_ & _ & ->).
      rewrite Hnet, Hok, Hen. cbn [andb].
      now rewrite caches_open_update, cache_match_put_same.
  - intros other Hother. now apply prefetch_other_urls.
Qed.

Lemma prefetch_stores_the_raw_response_witness :
  cache_match (url page_request)
    (caches_open (cacheName "content")
       (caches (prefetch page_network config [url page_request] empty_world)))
  = Some example_page
  /\ body example_page <> body (deferImages config example_page).
Proof.
  split.
  - apply (proj2 (prefetch_stores_the_raw_response page_network config [url page_request]
                    empty_world) eq_refl);
      [reflexivity | now left | reflexivity | reflexivity].
  - intros Heq. vm_compute in Heq. discriminate Heq.
Defined.

(** ** The queue of analytics requests *)

(** X14. A beacon that meets no open database is still sent, but the page
    is told it failed: recording throws, both in the success and in the
    failure branch, so the answer of the network is lost and nothing is
    queued. *)
Theorem beacon_without_database_fails (network : string -> option Response) (now : Z)
    (request : Request) (w : World) :
  hostname request = "www.google-analytics.com"
  \/ hostname request = "ssl.google-analytics.com" ->
  pathname request = "/collect" ->
  database w = None ->
  analyticsFetch network now request w
  = (RespondWithError,
     {| caches := caches w; database := None;
        fetched := fetched w ++ [url request]; written := written w |}).
Proof.
  intros Hhost Hpath Hdb. unfold analyticsFetch.
  assert (existsb (String.eqb (hostname request))
            ["www.google-analytics.com"; "ssl.google-analytics.com"] = true) as ->.
  { destruct Hhost as [-> | ->]; reflexivity. }
  rewrite Hpath. cbn [andb String.eqb Ascii.eqb Bool.eqb].
  unfold fetch, store. destruct (network (url request)); cbn [database]; now rewrite Hdb.
Qed.

Lemma beacon_without_database_fails_witness :
  fst (analyticsFetch (fun _ => Some logo) 5 beacon_request
         {| caches := []; database := None; fetched := []; written := [] |})
  = RespondWithError.
Proof.
  now rewrite (beacon_without_database_fails (fun _ => Some logo) 5 beacon_request
                 {| caches := []; database := None; fetched := []; written := [] |}
                 (or_introl eq_refl) eq_refl eq_refl).
Defined.

(** X15. A url is queued once: recording a url that the database already
    holds changes nothing, so the record keeps the time of the first
    attempt, and the time in the queue a replay reports counts from then.
    A url the database does not hold yet gets a record with the time of the
    attempt, which the store lists by its key: after the records whose url
    is not greater, before the first record whose url is greater; the other
    records stay as they are. *)
Theorem store_keeps_the_first_record (first later : Z) (address : string)
    (w recorded : World) :
  store first address w = Some recorded ->
  store later address recorded = Some recorded
  /\ exists records,
       database recorded = Some records
       /\ In address (map record_url records)
       /\ (forall records0, database w = Some records0 ->
             ~ In address (map record_url records0) ->
             exists before after,
               records0 = before ++ after
               /\ records
                  = before ++ {| record_url := address; timestamp := first |} :: after
               /\ Forall (fun r => String.ltb address (record_url r) = false) before
               /\ match after with
                  | [] => True
                  | next :: _ => String.ltb address (record_url next) = true
                  end).
Proof.
  unfold store. destruct (database w) as [records0|] eqn:Hdb; [|discriminate].
  intros [= <-]. cbn [database caches fetched written].
  set (records :=
         if existsb (fun r => String.eqb (record_url r) address) records0
         then records0
         else add_record {| record_url := address; timestamp := first |} records0).
  assert (existsb (fun r => String.eqb (record_url r) address) records = true) as Hheld.
  { subst records.
    destruct (existsb (fun r => String.eqb (record_url r) address) records0) eqn:E;
      [exact E|].
    apply existsb_exists. exists {| record_url := address; timestamp := first |}.
    split; [apply in_add_record; now left | apply String.eqb_refl]. }
  split; [now rewrite Hheld|]. exists records. split; [reflexivity|]. split.
  - apply existsb_exists in Hheld as (r & Hin & Heq). apply String.eqb_eq in Heq.
    rewrite <- Heq. now apply in_map.
  - intros records1 [= <-] Hfresh. subst records.
    destruct (existsb (fun r => String.eqb (record_url r) address) records0) eqn:E.
    + exfalso. apply Hfresh. apply existsb_exists in E as (r & Hin & Heq).
      apply String.eqb_eq in Heq. rewrite <- Heq. now apply in_map.
    + exact (add_record_place {| record_url := address; timestamp := first |} records0).
Qed.

Lemma store_keeps_the_first_record_witness :
  store 9 (url beacon_request) (world_with_queue [queued_beacon])
  = Some (world_with_queue [queued_beacon]).
Proof.
  exact (proj1 (store_keeps_the_first_record 0 9 (url beacon_request)
                  (world_with_queue []) (world_with_queue [queued_beacon]) eq_refl)).
Defined.

(** X16. A beacon that was sent with success is sent again.  It is
    recorded like one that failed, so the next replay within
    [analytics.maxTime] requests its url once more, with [&qt=] and the time
    since the first sending. *)
Theorem successful_beacon_is_sent_again (network : string -> option Response)
    (cfg : Config) (sent now : Z) (request : Request) (response : Response)
    (records : list RetryRecord) (w : World) :
  hostname request = "www.google-analytics.com"
  \/ hostname request = "ssl.google-analytics.com" ->
  pathname request = "/collect" ->
  database w = Some records ->
  ~ In (url request) (map record_url records) ->
  network (url request) = Some response ->
  (now - sent <= analytics_maxTime cfg)%Z ->
  let answered := analyticsFetch network sent request w in
  fst answered = RespondWith (Some response)
  /\ exists replayed,
       retryAnalyticsRequests network cfg now (snd answered) = Some replayed
       /\ In (url request ++ "&qt=" ++ string_of_Z (now - sent))%string (fetched replayed).
Proof.
  intros Hhost Hpath Hdb Hfresh Hnet Hyoung answered.
  assert (answered
          = (RespondWith (Some response),
             {| caches := caches w;
                database :=
                  Some (add_record {| record_url := url request; timestamp := sent |}
                          records);
                fetched := fetched w ++ [url request];
                written := written w |})) as ->.
  { subst answered. unfold analyticsFetch.
    assert (existsb (String.eqb (hostname request))
              ["www.google-analytics.com"; "ssl.google-analytics.com"] = true) as ->.
    { destruct Hhost as [-> | ->]; reflexivity. }
    rewrite Hpath. cbn [andb String.eqb Ascii.eqb Bool.eqb].
    unfold fetch, store. rewrite Hnet. cbn [database caches fetched written]. rewrite Hdb.
    assert (existsb (fun r => String.eqb (record_url r) (url request)) records = false)
      as ->; [|reflexivity].
    apply existsb_false_iff. intros r Hin. apply String.eqb_neq. intros Heq.
    apply Hfresh. rewrite <- Heq. now apply in_map. }
  split; [reflexivity|]. cbn [snd]. unfold retryAnalyticsRequests. cbn [database].
  eexists. split; [reflexivity|].
  match goal with
  | |- In _ (fetched (fold_left _ ?rs ?w0)) =>
      destruct (replay_effect network cfg now rs w0) as [Hfetched _]
  end.
  cbn zeta in Hfetched. rewrite Hfetched. apply in_or_app. right.
  change (url request ++ "&qt=" ++ string_of_Z (now - sent))%string
    with (replay_url now {| record_url := url request; timestamp := sent |}).
  apply in_map. apply filter_In. split; [apply in_add_record; now left|].
  unfold expired, queue_time. cbn [timestamp]. apply negb_true_iff.
  rewrite Z.gtb_ltb. apply Z.ltb_ge. lia.
Qed.

Lemma successful_beacon_is_sent_again_witness :
  exists replayed,
    retryAnalyticsRequests (fun _ => Some logo) config 1000
      (snd (analyticsFetch (fun _ => Some logo) 0 beacon_request empty_world))
    = Some replayed
    /\ In "https://www.google-analytics.com/collect?v=1&t=pageview&qt=1000"
         (fetched replayed).
Proof.
  destruct (successful_beacon_is_sent_again (fun _ => Some logo) config 0 1000
              beacon_request logo [] empty_world (or_introl eq_refl) eq_refl eq_refl
              (fun H => H) eq_refl) as (_ & replayed & Hrun & Hin).
  - vm_compute. discriminate.
  - exists replayed. split; [exact Hrun | exact Hin].
Defined.

(** ** Cutting text *)

Open Scope string_scope.

Lemma take_all (n : nat) (s : string) : String.length s <= n -> take n s = s.
Proof.
  revert n. induction s as [|c s IH]; intros [|n] H; cbn in *; try reflexivity; try lia.
  f_equal. apply IH. lia.
Qed.

Lemma drop_0 (s : string) : drop 0 s = s.
Proof. now destruct s. Qed.

Lemma find_none_drop (pat : string) (n : nat) : forall s,
  find pat s = None -> find pat (drop n s) = None.
Proof.
  induction n as [|n IH]; intros s H; [now rewrite drop_0|].
  destruct s as [|c s]; [exact H|]. cbn [drop]. apply IH.
  now apply find_none_step in H as [_ H].
Qed.

Lemma find_none_take (pat : string) (n : nat) : forall s,
  find pat s = None -> find pat (take n s) = None.
Proof.
  induction n as [|n IH]; intros s H.
  - apply find_none_step in H as [Hprefix _]. destruct s; cbn [take find] in *.
    + now rewrite Hprefix.
    + destruct pat; [discriminate | reflexivity].
  - destruct s as [|c s]; [exact H|].
    pose proof H as H'. apply find_none_step in H' as [Hprefix Hrest].
    cbn [take find].
    destruct (prefix pat (String c (take n s))) eqn:E.
    + assert (prefix pat (String c s) = true) as Hp; [|congruence].
      apply prefix_trans with (String c (take n s)); [exact E|].
      apply (prefix_take (S n) (String c s)).
    + now rewrite (IH s Hrest).
Qed.

Lemma find_none_substr (pat s : string) (start len : Z) :
  find pat s = None -> find pat (substr s start len) = None.
Proof.
  intros H. unfold substr. now apply find_none_take, find_none_drop.
Qed.

(** X18. [getTextPart] cuts from the first [start] through the first
    character of the first [end] that follows, both included.  When no [end]
    follows it gives the empty text; when [start] does not occur it looks at
    the last character of the text only. *)
Theorem getTextPart_cases (text start stop : string) :
  let from :=
    match find start text with
    | Some i => i
    | None => String.length text - 1
    end in
  getTextPart text start stop
  = match find stop (drop from text) with
    | Some j => take (S j) (drop from text)
    | None => ""
    end.
Proof.
  cbn zeta. unfold getTextPart.
  assert (substr text (indexOf text start) (Z.of_nat (String.length text))
          = drop match find start text with
                 | Some i => i
                 | None => String.length text - 1
                 end text) as ->.
  { unfold substr, indexOf. rewrite Nat2Z.id.
    destruct (find start text) as [i|].
    - assert ((Z.of_nat i <? 0)%Z = false) as -> by (apply Z.ltb_ge; lia).
      rewrite Nat2Z.id. apply take_all. rewrite length_drop. lia.
    - change (-1 <? 0)%Z with true. cbn iota.
      replace (Z.to_nat (Z.max (Z.of_nat (String.length text) + -1) 0))
        with (String.length text - 1) by lia.
      apply take_all. rewrite length_drop. lia. }
  generalize (drop match find start text with
                   | Some i => i
                   | None => String.length text - 1
                   end text) as rest.
  intros rest. unfold substr, indexOf. change (0 <? 0)%Z with false. cbn iota.
  change (Z.to_nat 0) with 0. rewrite drop_0.
  destruct (find stop rest) as [j|].
  - replace (Z.to_nat (Z.of_nat j + 1)) with (S j) by lia. reflexivity.
  - reflexivity.
Qed.

(** ** Pages without markers *)

Lemma starts_with_lit (ci : bool) (text : string) : forall s caps k,
  rmatch ci (lit text) s caps k
  = if starts_with ci text s then k (drop (String.length text) s) caps else None.
Proof.
  induction text as [|c text IH]; intros s caps k; cbn [lit rmatch starts_with].
  - now rewrite drop_0.
  - destruct s as [|a s]; [reflexivity|]. unfold one_char.
    destruct (char_matches ci c a); [|reflexivity]. cbn [andb String.length drop].
    apply IH.
Qed.

Lemma search_none_step (ci : bool) (pat s : string) :
  search ci pat s = None ->
  starts_with ci pat s = false
  /\ match s with
     | EmptyString => True
     | String _ s' => search ci pat s' = None
     end.
Proof.
  destruct s as [|c s]; cbn [search].
  - destruct (starts_with ci pat ""); [discriminate | auto].
  - destruct (starts_with ci pat (String c s)); [discriminate|].
    destruct (search ci pat s); [discriminate | auto].
Qed.

Lemma exec_from_without (re : RegExp) (text : string) (r : regex) :
  pattern re = RSeq (lit text) r ->
  forall s i, search (ignoreCase re) text s = None -> exec_from re s i = None.
Proof.
  intros Hpattern. induction s as [|c s IH]; intros i Hsearch;
    apply search_none_step in Hsearch as [Hstart Hrest]; cbn [exec_from];
    rewrite Hpattern; cbn [rmatch]; rewrite starts_with_lit, Hstart;
    [reflexivity | now apply IH].
Qed.

Lemma replace_regexp_without (re : RegExp) (s template : string) :
  exec re s = None -> replace_regexp s re template = s.
Proof.
  intros H. unfold replace_regexp. cbn [replace_loop]. now rewrite H.
Qed.

Lemma changeImages_loop_without_marker (cfg : Config) (html : string) :
  forall fuel cloned,
    find "data-defer" cloned = None -> changeImages_loop fuel cfg html cloned = html.
Proof.
  induction fuel as [|fuel IH]; intros cloned Hcloned; [reflexivity|].
  cbn [changeImages_loop]. destruct (indexOf cloned "<img" =? -1)%Z; [reflexivity|].
  cbn zeta.
  assert (indexOf (getTextPart cloned "<img" ">") "data-defer" = (-1)%Z) as ->.
  { assert (find "data-defer" (getTextPart cloned "<img" ">") = None) as Hpart.
    { unfold getTextPart. now apply find_none_substr, find_none_substr. }
    unfold indexOf. now rewrite Hpart. }
  change (-1 <? -1)%Z with false. cbn iota. apply IH. now apply find_none_substr.
Qed.

Lemma text_headers_again (hs : list (string * string)) :
  text_headers (text_headers hs) = text_headers hs.
Proof.
  unfold text_headers at 2. destruct (has_header "content-type" hs) eqn:E.
  - unfold text_headers. now rewrite E.
  - assert (has_header "content-type" [("content-type", "text/plain;charset=UTF-8")]
            = true) as Hnamed by reflexivity.
    unfold text_headers, has_header in *. rewrite existsb_app, Hnamed.
    now rewrite orb_true_r, E.
Qed.

(** X19. A page in which the text [data-defer] does not occur comes out of
    the image pass as it went in, and a page in which [<iframe ] does not
    occur in any letter case comes out of the video pass as it went in.  A
    response that holds neither keeps its body through both stages, and its
    headers when they name a content type; when they name none, the
    response that comes out has one more header, the content type of plain
    text.  Its status becomes 200 and its status text empty. *)
Theorem pages_without_markers_pass_unchanged (cfg : Config) (response : Response) :
  (forall html, includes html "data-defer" = false -> changeImages cfg html = html)
  /\ (forall html, search true "<iframe " html = None ->
        replace_regexp html youtube_regexp youtube_template = html)
  /\ (includes (body response) "data-defer" = false ->
      search true "<iframe " (body response) = None ->
      deferYoutubeVideos cfg (deferImages cfg response)
      = {| status := 200; statusText := "";
           headers :=
             if has_header "content-type" (headers response) then headers response
             else (headers response
                   ++ [("content-type", "text/plain;charset=UTF-8")])%list;
           body := body response |}).
Proof.
  assert (forall html, includes html "data-defer" = false -> changeImages cfg html = html)
    as Himages.
  { intros html Hmarker. unfold changeImages. apply changeImages_loop_without_marker.
    unfold includes in Hmarker. now destruct (find "data-defer" html). }
  assert (forall html, search true "<iframe " html = None ->
            replace_regexp html youtube_regexp youtube_template = html) as Hvideos.
  { intros html Hframe. apply replace_regexp_without. unfold exec.
    now apply (exec_from_without youtube_regexp "<iframe " _ eq_refl). }
  split; [exact Himages|]. split; [exact Hvideos|].
  intros Hmarker Hframe. unfold deferYoutubeVideos, deferImages, new_Response.
  cbn [body headers]. rewrite (Himages _ Hmarker), text_headers_again.
  fold (text_headers (headers response)).
  destruct (defer_youtube_enabled cfg); [|reflexivity]. now rewrite (Hvideos _ Hframe).
Qed.

(** ** The placeholder *)

Lemma is_base64_digit (n : nat) : is_base64 (base64_digit n) = true.
Proof.
  unfold base64_digit. do 64 (destruct n as [|n]; [reflexivity|]). reflexivity.
Qed.

Lemma every_btoa (s : string) : every is_base64 (btoa s) = true.
Proof.
  remember (String.length s) as n eqn:Hn. revert s Hn.
  induction n as [n IH] using lt_wf_ind. intros s Hn.
  destruct s as [|a [|b [|c rest]]]; cbn [btoa]; cbn zeta; cbn [every];
    rewrite ?is_base64_digit; try reflexivity.
  cbn [andb]. apply (IH (String.length rest)); [cbn in Hn; lia | reflexivity].
Qed.

Lemma length_btoa (s : string) :
  String.length (btoa s) = 4 * ((String.length s + 2) / 3).
Proof.
  remember (String.length s) as n eqn:Hn. revert s Hn.
  induction n as [n IH] using lt_wf_ind. intros s Hn.
  destruct s as [|a [|b [|c rest]]]; cbn [btoa]; cbn zeta; cbn [String.length] in *;
    subst n; try reflexivity.
  rewrite (IH (String.length rest)) by (lia || reflexivity).
  replace (S (S (S (String.length rest))) + 2) with ((String.length rest + 2) + 1 * 3) by lia.
  rewrite Nat.div_add by lia. lia.
Qed.

Lemma length_append (a b : string) :
  String.length (a ++ b) = String.length a + String.length b.
Proof. induction a as [|c a IH]; cbn; [reflexivity | now rewrite IH]. Qed.

Lemma every_lacks (p : ascii -> bool) (c : ascii) (s : string) :
  p c = false -> every p s = true -> lacks c s = true.
Proof.
  intros Hc. induction s as [|a s IH]; cbn [every lacks]; [reflexivity|].
  intros H. apply andb_true_iff in H as [Ha Hs]. rewrite (IH Hs), andb_true_r.
  apply negb_true_iff. apply Ascii.eqb_neq. intros ->. congruence.
Qed.

(** X20. Whatever the dimensions and the colour (which comes from the
    configuration and may hold any text), the placeholder is the prefix
    [data:image/svg+xml;base64,] followed by base64 characters only, four
    for every three characters of the svg element: it holds no double quote,
    no [$], no [<] and no [>], so it cannot end the attribute or the tag it
    is written into, and, used in a replacement, stands for itself. *)
Theorem placeholder_is_base64 (cfg : Config) (width height : string) :
  exists payload,
    newBase64Image cfg width height = "data:image/svg+xml;base64," ++ payload
    /\ every is_base64 payload = true
    /\ String.length payload
       = 4 * ((173 + 2 * String.length width + 2 * String.length height
               + String.length (defer_images_color cfg) + 2) / 3)
    /\ lacks dquote (newBase64Image cfg width height) = true
    /\ lacks "$" (newBase64Image cfg width height) = true
    /\ lacks "<" (newBase64Image cfg width height) = true
    /\ lacks ">" (newBase64Image cfg width height) = true.
Proof.
  unfold newBase64Image. cbn zeta. eexists. split; [reflexivity|].
  split; [apply every_btoa|]. split.
  - rewrite length_btoa. f_equal. f_equal. f_equal.
    rewrite !length_append. cbn [String.length q]. lia.
  - repeat split; rewrite lacks_app; cbn [lacks andb];
      (apply (every_lacks is_base64); [reflexivity | apply every_btoa]).
Qed.

(** ** The matcher on symbolic text *)

Lemma clear_captures_nil (caps : captures) : clear_captures [] caps = caps.
Proof.
  unfold clear_captures. induction caps as [|p caps IH]; cbn [filter existsb negb];
    [reflexivity | f_equal; exact IH].
Qed.

(** A greedy repetition of one character test searches as [longest_run]
    does. *)
Lemma rmatch_star_one (ci : bool) (r : regex) (p : ascii -> bool) (s : string)
    (caps : captures) (k : string -> captures -> option (string * captures)) :
  groups r = [] ->
  (forall s0 c0 k0, rmatch ci r s0 c0 k0 = one_char p s0 c0 k0) ->
  rmatch ci (RStar r) s caps k = longest_run p s (fun s1 => k s1 caps).
Proof.
  intros Hgroups Hone. cbn [rmatch].
  match goal with |- ?f (String.length s) s caps = _ => set (loop := f) end.
  assert (forall fuel s0, String.length s0 <= fuel ->
            loop fuel s0 caps = longest_run p s0 (fun s1 => k s1 caps)) as Hloop.
  { induction fuel as [|fuel IH]; intros s0 Hfuel.
    - destruct s0; [reflexivity | cbn in Hfuel; lia].
    - unfold loop at 1. fold loop. rewrite Hgroups, clear_captures_nil, Hone.
      destruct s0 as [|a s0]; [reflexivity|].
      unfold one_char. cbn [longest_run].
      destruct (p a); [|reflexivity].
      assert (Nat.ltb (String.length s0) (String.length (String a s0)) = true) as ->
        by (apply Nat.ltb_lt; cbn; lia).
      rewrite IH by (cbn in Hfuel; lia).
      now destruct (longest_run p s0 (fun s1 => k s1 caps)). }
  now apply Hloop.
Qed.

Lemma rmatch_star_any (ci : bool) (s : string) (caps : captures)
    (k : string -> captures -> option (string * captures)) :
  rmatch ci (RStar RAny) s caps k = longest_run same_line s (fun s1 => k s1 caps).
Proof. now apply rmatch_star_one. Qed.

Lemma drop_drop (n m : nat) : forall s, drop m (drop n s) = drop (n + m) s.
Proof.
  induction n as [|n IH]; intros s; [now rewrite drop_0|].
  destruct s as [|c s]; cbn [drop plus]; [now destruct m | apply IH].
Qed.

(** A match needs its continuation to succeed somewhere in what is left. *)
Lemma rmatch_fails (ci : bool) (r : regex) : forall s caps k,
  (forall n c1, k (drop n s) c1 = None) -> rmatch ci r s caps k = None.
Proof.
  assert (forall test s caps (k : string -> captures -> option (string * captures)),
            (forall n c1, k (drop n s) c1 = None) -> one_char test s caps k = None)
    as Hone.
  { intros test [|a s] caps k Hk; [reflexivity|]. cbn [one_char].
    destruct (test a); [|reflexivity]. apply (Hk 1). }
  induction r as [c| | |ranges| |r1 IH1 r2 IH2|r1 IH1|g r1 IH1]; intros s caps k Hk;
    cbn [rmatch]; try (now apply Hone).
  - specialize (Hk 0 caps). now rewrite drop_0 in Hk.
  - apply IH1. intros n c1. apply IH2. intros m c2. rewrite drop_drop. apply Hk.
  - match goal with |- ?f (String.length s) s caps = _ => set (loop := f) end.
    assert (forall fuel n c0, loop fuel (drop n s) c0 = None) as Hloop.
    { induction fuel as [|fuel IHfuel]; intros n c0; [apply Hk|].
      unfold loop at 1. fold loop. rewrite IH1; [apply Hk|].
      intros m c1. destruct (Nat.ltb _ _); [|reflexivity].
      rewrite drop_drop. apply IHfuel. }
    specialize (Hloop (String.length s) 0 caps). now rewrite drop_0 in Hloop.
  - apply IH1. intros n c1. apply Hk.
Qed.

(** The leftmost match of a pattern that starts with a literal text begins
    at the first place where that text stands, if the pattern matches
    there. *)
Lemma exec_from_at (re : RegExp) (text : string) (r : regex) :
  pattern re = RSeq (lit text) r ->
  forall s i n rest caps,
    search (ignoreCase re) text s = Some n ->
    rmatch (ignoreCase re) (pattern re) (drop n s) []
      (fun rest caps => Some (rest, caps)) = Some (rest, caps) ->
    exec_from re s i
    = Some {| index := i + n;
              matched := take (String.length (drop n s) - String.length rest) (drop n s);
              groups_of := caps |}.
Proof.
  intros Hpattern. induction s as [|c s IH]; intros i n rest caps Hsearch Hmatch.
  - cbn [search] in Hsearch. destruct (starts_with (ignoreCase re) text ""); [|discriminate].
    injection Hsearch as <-. cbn [drop] in *. cbn [exec_from]. rewrite Hmatch.
    now rewrite Nat.add_0_r.
  - cbn [search] in Hsearch.
    destruct (starts_with (ignoreCase re) text (String c s)) eqn:Hstart.
    + injection Hsearch as <-. rewrite drop_0 in *. cbn [exec_from]. rewrite Hmatch.
      now rewrite Nat.add_0_r.
    + destruct (search (ignoreCase re) text s) as [n'|] eqn:Hrest; [|discriminate].
      injection Hsearch as <-. cbn [drop] in *. cbn [exec_from].
      rewrite Hpattern at 1. cbn [rmatch]. rewrite starts_with_lit, Hstart.
      rewrite (IH (S i) n' rest caps eq_refl Hmatch). now rewrite Nat.add_succ_r.
Qed.

Lemma drop_append (a b : string) : drop (String.length a) (a ++ b) = b.
Proof. induction a as [|c a IH]; cbn; [apply drop_0 | exact IH]. Qed.

Lemma take_append (a b : string) : take (String.length a) (a ++ b) = a.
Proof.
  induction a as [|c a IH]; cbn; [now destruct b | now rewrite IH].
Qed.

Lemma lacks_drop (c : ascii) (n : nat) : forall s,
  lacks c s = true -> lacks c (drop n s) = true.
Proof.
  induction n as [|n IH]; intros s H; [now rewrite drop_0|].
  destruct s as [|a s]; [exact H|]. cbn [drop]. apply IH.
  cbn [lacks] in H. now apply andb_true_iff in H.
Qed.

Lemma char_matches_dquote (a : ascii) : char_matches true dquote a = Ascii.eqb dquote a.
Proof.
  destruct a as [[] [] [] [] [] [] [] []]; reflexivity.
Qed.

Lemma longest_run_skips {A : Type} (p : ascii -> bool) (u v : string)
    (k : string -> option A) (result : A) :
  every p u = true ->
  longest_run p v k = Some result ->
  longest_run p (u ++ v) k = Some result.
Proof.
  intros Hu Hv. induction u as [|a u IH]; [exact Hv|].
  cbn [every] in Hu. apply andb_true_iff in Hu as [Ha Hu].
  cbn [append longest_run]. rewrite Ha. now rewrite (IH Hu).
Qed.

Lemma longest_run_fails {A : Type} (p : ascii -> bool) (s : string)
    (k : string -> option A) :
  (forall n, k (drop n s) = None) -> longest_run p s k = None.
Proof.
  induction s as [|a s IH]; intros Hk; cbn [longest_run].
  - apply (Hk 0).
  - rewrite IH by (intros n; apply (Hk (S n))).
    specialize (Hk 0). rewrite drop_0 in Hk. rewrite Hk.
    now destruct (p a).
Qed.

Lemma rmatch_seq (ci : bool) (r1 r2 : regex) (s : string) (caps : captures)
    (k : string -> captures -> option (string * captures)) :
  rmatch ci (RSeq r1 r2) s caps k
  = rmatch ci r1 s caps (fun s1 c1 => rmatch ci r2 s1 c1 k).
Proof. reflexivity. Qed.

Lemma rmatch_group_star_any (ci : bool) (g : nat) (s : string) (caps : captures)
    (k : string -> captures -> option (string * captures)) :
  rmatch ci (RGroup g (RStar RAny)) s caps k
  = longest_run same_line s
      (fun s1 => k s1 ((g, take (String.length s - String.length s1) s) :: caps)).
Proof.
  exact (rmatch_star_any ci s caps
           (fun s1 c1 => k s1 ((g, take (String.length s - String.length s1) s) :: c1))).
Qed.

(** The pattern of [setImage] on the text that follows [src=']: the search
    ends at the last double quote, and the second group takes no part. *)
Lemma src_regexp_match (middle tail : string) :
  every same_line middle = true ->
  lacks dquote tail = true ->
  rmatch true (pattern src_regexp) (q "src='" ++ middle ++ String dquote tail) []
    (fun rest caps => Some (rest, caps))
  = Some (tail, [(1, middle)]).
Proof.
  intros Hline Htail.
  change (pattern src_regexp)
    with (RSeq (lit (q "src='"))
            (RSeq (RGroup 1 (RStar RAny))
               (RSeq (RStar (RGroup 2 (RSeq (RChar "?") (plus (RClass [("0"%char, "9"%char)])))))
                  (RSeq (RChar dquote) REmpty)))).
  rewrite rmatch_seq, starts_with_lit.
  change (starts_with true (q "src='") (q "src='" ++ middle ++ String dquote tail))
    with true. cbn iota.
  change (drop (String.length (q "src='")) (q "src='" ++ middle ++ String dquote tail))
    with (middle ++ String dquote tail).
  rewrite rmatch_seq, rmatch_group_star_any.
  apply longest_run_skips; [exact Hline|].
  cbn [longest_run]. change (same_line dquote) with true. cbn iota.
  rewrite longest_run_fails.
  - replace (String.length (middle ++ String dquote tail) - String.length (String dquote tail))
      with (String.length middle) by (rewrite length_append; lia).
    rewrite take_append. cbn [rmatch String.length].
    unfold one_char at 1. cbn [groups plus app clear_captures filter existsb fst Nat.eqb negb].
    change (char_matches true "?" dquote) with false. cbn iota.
    unfold one_char. rewrite char_matches_dquote, Ascii.eqb_refl. reflexivity.
  - intros n. rewrite rmatch_seq. apply rmatch_fails. intros m c1. rewrite drop_drop.
    cbn [rmatch]. unfold one_char.
    pose proof (lacks_drop dquote (n + m) tail Htail) as Hlacks.
    destruct (drop (n + m) tail) as [|a rest]; [reflexivity|].
    cbn [lacks] in Hlacks. apply andb_true_iff in Hlacks as [Ha _].
    rewrite char_matches_dquote, Ascii.eqb_sym.
    apply negb_true_iff in Ha. now rewrite Ha.
Qed.

Lemma search_without_dquote (s : string) :
  lacks dquote s = true -> search true (q "src='") s = None.
Proof.
  induction s as [|a s IH]; intros Hs; [reflexivity|].
  cbn [search]. cbn [lacks] in Hs. apply andb_true_iff in Hs as [Ha Hs].
  rewrite (IH Hs). cbn [option_map].
  assert (starts_with true (q "src='") (String a s) = false) as ->; [|reflexivity].
  destruct s as [|b [|c [|d [|e s]]]]; cbn [q starts_with Ascii.eqb];
    rewrite ?andb_false_r; try reflexivity.
  cbn [lacks] in Hs. rewrite !andb_true_iff in Hs. destruct Hs as (_ & _ & _ & He & _).
  change (if Ascii.eqb "'" "'" then dquote else "'"%char) with dquote.
  rewrite char_matches_dquote, Ascii.eqb_sym. apply negb_true_iff in He. rewrite He.
  cbn [andb]. now rewrite !andb_false_r.
Qed.

Lemma every_app (p : ascii -> bool) (a b : string) :
  every p (a ++ b) = every p a && every p b.
Proof.
  induction a as [|x a IH]; cbn; [reflexivity|]. rewrite IH. now rewrite andb_assoc.
Qed.

Lemma source_template (ngroups : nat) (middle m before after : string) :
  substitute (S ngroups) [(1, middle)] m before after (q "' data-defer-src='$1'")
  = q "' data-defer-src='" ++ middle ++ q "'".
Proof. reflexivity. Qed.

(** X21. [setImage] on an element that has both dimensions: the first
    [src='] of the element (in any letter case) is followed by the
    placeholder for those dimensions, and what stood between that [src='] and
    the last double quote of the element goes, as it is, into a new
    [data-defer-src] attribute; nothing else changes.  When [src] is the last
    quoted attribute this is its value; when other quoted attributes follow,
    the first quote after the placeholder ends the new [src] and the
    attributes that followed still follow.  A [?] and digits at the end of
    the value stay in it: the second group of the pattern never takes part. *)
Theorem setImage_moves_the_source (cfg : Config) (pre middle tail : string) :
  let image := pre ++ q "src='" ++ middle ++ q "'" ++ tail in
  let width := first_group width_regexp image in
  let height := first_group height_regexp image in
  search true (q "src='") image = Some (String.length pre) ->
  every same_line middle = true ->
  lacks dquote tail = true ->
  falsy width = false ->
  falsy height = false ->
  setImage cfg image
  = pre ++ q "src='" ++ newBase64Image cfg (text_of width) (text_of height)
    ++ q "' data-defer-src='" ++ middle ++ q "'" ++ tail.
Proof.
  intros image width height Hfirst Hline Htail Hwidth Hheight.
  unfold setImage. fold width height. rewrite Hwidth, Hheight. cbn [orb].
  generalize (newBase64Image cfg (text_of width) (text_of height))
             (plain_newBase64Image cfg (text_of width) (text_of height)).
  intros placeholder Hplain.
  assert (drop (String.length pre) image = q "src='" ++ middle ++ String dquote tail)
    as Hdrop by apply drop_append.
  assert (exec src_regexp image
          = Some {| index := String.length pre;
                    matched := q "src='" ++ middle ++ q "'";
                    groups_of := [(1, middle)] |}) as Hexec.
  { unfold exec.
    rewrite (exec_from_at src_regexp (q "src='") _ eq_refl image 0 (String.length pre)
               tail [(1, middle)] Hfirst).
    - rewrite Hdrop. cbn [plus]. f_equal. f_equal.
      replace (String.length (q "src='" ++ middle ++ String dquote tail) - String.length tail)
        with (String.length (q "src='" ++ middle ++ q "'")).
      + rewrite <- (take_append (q "src='" ++ middle ++ q "'") tail) at 2.
        rewrite !append_assoc. reflexivity.
      + rewrite !length_append. cbn [String.length q]. lia.
    - rewrite Hdrop. now apply src_regexp_match. }
  assert (drop (String.length pre + String.length (q "src='" ++ middle ++ q "'")) image = tail)
    as Hafter.
  { rewrite <- drop_drop, Hdrop.
    replace (q "src='" ++ middle ++ String dquote tail)
      with ((q "src='" ++ middle ++ q "'") ++ tail) by (now rewrite !append_assoc).
    apply drop_append. }
  rewrite (replace_regexp_once src_regexp image _ _ Hexec); cbn [index matched groups_of].
  - rewrite Hafter. unfold image at 1. rewrite take_append.
    rewrite (substitute_app_plain _ _ _ _ _ (q "src='")) by reflexivity.
    rewrite substitute_app_plain by exact Hplain.
    change (List.length (groups (pattern src_regexp))) with 2.
    rewrite source_template. rewrite !append_assoc. reflexivity.
  - destruct (q "src='" ++ middle ++ q "'") eqn:E; [discriminate E | discriminate].
  - rewrite Hafter. unfold exec.
    apply (exec_from_without src_regexp (q "src='") _ eq_refl).
    now apply search_without_dquote.
Qed.

Lemma setImage_moves_the_source_witness :
  setImage config (q "<img data-defer class='hero' src='a.png?42' width='640' height='480'>")
  = q "<img data-defer class='hero' src='" ++ newBase64Image config "640" "480"
    ++ q "' data-defer-src='a.png?42' width='640' height='480'>".
Proof.
  exact (setImage_moves_the_source config (q "<img data-defer class='hero' ")
           (q "a.png?42' width='640' height='480") ">"
           eq_refl eq_refl eq_refl eq_refl eq_refl).
Defined.

(** ** The image pass on a page *)

Lemma find_first (pat : string) (n : nat) : forall s,
  find pat s = Some n ->
  prefix pat (drop n s) = true /\ forall i, i < n -> prefix pat (drop i s) = false.
Proof.
  induction n as [|n IH]; intros s Hfind.
  - rewrite drop_0. split; [|intros i Hi; lia].
    destruct s as [|c s]; cbn [find] in Hfind.
    + now destruct (prefix pat "").
    + destruct (prefix pat (String c s)); [reflexivity|].
      destruct (find pat s); discriminate.
  - destruct s as [|c s]; cbn [find] in Hfind.
    + destruct (prefix pat ""); discriminate.
    + destruct (prefix pat (String c s)) eqn:Hhere; [discriminate|].
      destruct (find pat s) as [m|] eqn:Hrest; [|discriminate].
      injection Hfind as ->. destruct (IH s Hrest) as [Hat Hbefore].
      split; [exact Hat|]. intros [|i] Hi; [exact Hhere|]. apply Hbefore. lia.
Qed.

Lemma find_at (pat : string) (n : nat) : forall s,
  n <= String.length s ->
  prefix pat (drop n s) = true ->
  (forall i, i < n -> prefix pat (drop i s) = false) ->
  find pat s = Some n.
Proof.
  induction n as [|n IH]; intros s Hn Hat Hbefore.
  - rewrite drop_0 in Hat. destruct s; cbn [find]; now rewrite Hat.
  - destruct s as [|c s]; [cbn in Hn; lia|]. cbn [find].
    pose proof (Hbefore 0 (Nat.lt_0_succ n)) as Hhere. rewrite drop_0 in Hhere.
    rewrite Hhere. cbn [drop] in Hat.
    rewrite (IH s); [reflexivity | cbn in Hn; lia | exact Hat |].
    intros i Hi. apply (Hbefore (S i)). lia.
Qed.

Lemma find_closing (c : ascii) (inner rest : string) :
  lacks c inner = true ->
  find (String c "") (inner ++ String c rest) = Some (String.length inner).
Proof.
  induction inner as [|a inner IH]; cbn [lacks append find prefix String.length].
  - intros _. destruct (ascii_dec c c); [|contradiction]. now destruct rest.
  - intros H. apply andb_true_iff in H as [Ha Hinner]. rewrite (IH Hinner).
    destruct (ascii_dec c a) as [->|_]; [|reflexivity].
    now rewrite Ascii.eqb_refl in Ha.
Qed.

(** X22. On a page with a single [<img] element the image pass rewrites
    that element in place, when it carries the marker, and leaves the text
    before and after it alone; without the marker the page is returned as it
    is.  The rewritten element is written with [replace], so this needs it
    to hold no [$]. *)
Theorem changeImages_rewrites_in_place (cfg : Config)
    (before attributes after : string) :
  let element := "<img" ++ attributes ++ ">" in
  let page := before ++ element ++ after in
  find "<img" page = Some (String.length before) ->
  lacks ">" attributes = true ->
  find "<img" (drop 1 (element ++ after)) = None ->
  (includes element "data-defer" = true -> plain (setImage cfg element) = true) ->
  changeImages cfg page
  = before
    ++ (if includes element "data-defer" then setImage cfg element else element)
    ++ after.
Proof.
  intros element page Hfirst Hclosing Hlast Hplain.
  assert (drop (String.length before) page = element ++ after) as Hdrop
    by apply drop_append.
  assert (getTextPart page "<img" ">" = element) as Hpart.
  { unfold getTextPart, substr, indexOf. rewrite Hfirst.
    assert ((Z.of_nat (String.length before) <? 0)%Z = false) as ->
      by (apply Z.ltb_ge; lia).
    rewrite !Nat2Z.id, Hdrop.
    rewrite (take_all (String.length page) (element ++ after))
      by (unfold page; rewrite !length_append; lia).
    cbn zeta. change (0 <? 0)%Z with false. cbn iota. change (Z.to_nat 0) with 0.
    rewrite drop_0.
    assert (element ++ after = ("<img" ++ attributes) ++ String ">" after) as Hshape.
    { unfold element. now rewrite !append_assoc. }
    rewrite Hshape, find_closing by (rewrite lacks_app, Hclosing; reflexivity).
    replace (Z.to_nat (Z.of_nat (String.length ("<img" ++ attributes)) + 1))
      with (String.length element)
      by (unfold element; rewrite !length_append; cbn [String.length]; lia).
    rewrite <- Hshape. apply take_append. }
  assert (find element page = Some (String.length before)) as Hwhere.
  { destruct (find_first _ _ _ Hfirst) as [_ Hbefore].
    apply find_at.
    - unfold page. rewrite length_append. lia.
    - rewrite Hdrop. apply prefix_append.
    - intros i Hi. destruct (prefix element (drop i page)) eqn:E; [|reflexivity].
      rewrite <- (Hbefore i Hi). symmetry.
      apply prefix_trans with element; [apply (prefix_append "<img") | exact E]. }
  assert (substr page (indexOf page element + 1) (Z.of_nat (String.length page))
          = drop 1 (element ++ after)) as Hnext.
  { unfold substr, indexOf. rewrite Hwhere.
    assert ((Z.of_nat (String.length before) + 1 <? 0)%Z = false) as ->
      by (apply Z.ltb_ge; lia).
    rewrite Nat2Z.id.
    replace (Z.to_nat (Z.of_nat (String.length before) + 1))
      with (String.length before + 1) by lia.
    rewrite <- drop_drop, Hdrop. apply take_all. rewrite length_drop.
    unfold page. rewrite !length_append. lia. }
  assert ((indexOf page "<img" =? -1)%Z = false) as Hfound.
  { unfold indexOf. rewrite Hfirst. apply Z.eqb_neq. lia. }
  assert (String.length page <> 0) as Hfuel.
  { unfold page, element. rewrite !length_append. cbn [String.length]. lia. }
  unfold changeImages. revert Hfuel. generalize (String.length page) at 1 2.
  intros fuel Hfuel. destruct fuel as [|fuel]; [contradiction|].
  cbn [changeImages_loop]. rewrite Hfound, Hpart, Hnext. cbn zeta.
  assert (forall html, changeImages_loop fuel cfg html (drop 1 (element ++ after)) = html)
    as Hstop.
  { intros html. destruct fuel; cbn [changeImages_loop]; [reflexivity|].
    unfold indexOf. now rewrite Hlast. }
  rewrite Hstop. unfold includes, indexOf in *.
  destruct (find "data-defer" element) as [i|].
  - assert ((-1 <? Z.of_nat i)%Z = true) as -> by (apply Z.ltb_lt; lia).
    unfold replace_string. rewrite Hwhere. cbn zeta.
    rewrite substitute_plain by (now apply Hplain).
    unfold page at 1. rewrite take_append. f_equal. f_equal.
    rewrite <- drop_drop, Hdrop. apply drop_append.
  - reflexivity.
Qed.

Lemma changeImages_rewrites_in_place_witness :
  changeImages config
    (q "<h1>Photos</h1><p><img data-defer class='hero' src='a.png?42' width='640' height='480'></p>")
  = q "<h1>Photos</h1><p>"
    ++ setImage config
         (q "<img data-defer class='hero' src='a.png?42' width='640' height='480'>")
    ++ "</p>".
Proof.
  assert (plain (setImage config
                   (q "<img data-defer class='hero' src='a.png?42' width='640' height='480'>"))
          = true) as Hplain by (vm_compute; reflexivity).
  exact (changeImages_rewrites_in_place config (q "<h1>Photos</h1><p>")
           (q " data-defer class='hero' src='a.png?42' width='640' height='480'")
           "</p>" eq_refl eq_refl eq_refl (fun _ => Hplain)).
Defined.

(** ** The video pass on a page *)

Lemma starts_with_append (pat rest : string) :
  starts_with true pat (pat ++ rest) = true.
Proof.
  induction pat as [|c pat IH]; [reflexivity|]. cbn [append starts_with].
  rewrite IH. unfold char_matches. now rewrite Ascii.eqb_refl.
Qed.

Lemma search_none_everywhere (ci : bool) (pat : string) (n : nat) : forall s,
  search ci pat s = None -> starts_with ci pat (drop n s) = false.
Proof.
  induction n as [|n IH]; intros s H; apply search_none_step in H as [Hstart Hrest].
  - now rewrite drop_0.
  - destruct s as [|c s]; [exact Hstart|]. cbn [drop]. now apply IH.
Qed.

(** The fixed text between the first and the second group of the pattern. *)
Lemma youtube_address_match (r : regex) (tail : string) (caps : captures)
    (k : string -> captures -> option (string * captures)) :
  rmatch true
    (RSeq (lit (q " src='https://www"))
       (RSeq RAny (RSeq (lit "youtube") (RSeq RAny (RSeq (lit "com/embed/") r)))))
    (q " src='https://www.youtube.com/embed/" ++ tail) caps k
  = rmatch true r tail caps k.
Proof. reflexivity. Qed.

Lemma rmatch_char (ci : bool) (c : ascii) (s : string) (caps : captures)
    (k : string -> captures -> option (string * captures)) :
  rmatch ci (RChar c) s caps k = one_char (char_matches ci c) s caps k.
Proof. reflexivity. Qed.

Lemma rmatch_group_plus_class (g : nat) (ranges : list (ascii * ascii)) (id rest : string)
    (caps : captures) (k : string -> captures -> option (string * captures))
    (stop : ascii) (result : string * captures) :
  id <> "" ->
  every (class_matches true ranges) id = true ->
  class_matches true ranges stop = false ->
  k (String stop rest) ((g, id) :: caps) = Some result ->
  rmatch true (RGroup g (plus (RClass ranges))) (id ++ String stop rest) caps k
  = Some result.
Proof.
  intros Hnonempty Hid Hstop Hk. destruct id as [|a id]; [contradiction|].
  cbn [every] in Hid. apply andb_true_iff in Hid as [Ha Hid].
  unfold plus. cbn [rmatch]. unfold one_char at 1. cbn [append]. rewrite Ha.
  match goal with
  | |- ?f (String.length ?m) ?m caps = _ =>
      change (f (String.length m) m caps)
        with (rmatch true (RStar (RClass ranges)) m caps
                (fun s1 c1 =>
                   k s1 ((g, take (String.length (String a m) - String.length s1)
                               (String a m)) :: c1)))
  end.
  rewrite (rmatch_star_one true (RClass ranges) (class_matches true ranges))
    by reflexivity.
  apply longest_run_skips; [exact Hid|]. cbn [longest_run]. rewrite Hstop.
  replace (String.length (String a (id ++ String stop rest))
           - String.length (String stop rest))
    with (String.length (String a id))
    by (cbn [String.length]; rewrite length_append; cbn [String.length]; lia).
  change (String a (id ++ String stop rest)) with (String a id ++ String stop rest).
  now rewrite take_append.
Qed.

Lemma youtube_template_filled (ngroups : nat) (attributes id rest m before after : string) :
  substitute (S (S (S ngroups))) [(3, rest); (2, id); (1, attributes)] m before after
    youtube_template
  = youtube_wrapper attributes id rest.
Proof. reflexivity. Qed.

(** X23. The video pass on a page with one YouTube frame.  A frame that
    has attributes before its [src], a video id of letters, digits and
    hyphens, a space and further attributes after the [src], is replaced by
    the wrapper of the source with the attributes before, the id and the
    attributes after filled in; the text before and after the frame stays.
    The attributes before [src] run to the last [ src='https://www] of the
    line and the attributes after it to the last [></iframe>], which here
    are the frame's own. *)
Theorem youtube_frame_is_wrapped (before attributes id rest after : string) :
  let frame :=
    "<iframe " ++ attributes ++ q " src='https://www.youtube.com/embed/" ++ id
    ++ q "' " ++ rest ++ "></iframe>" in
  let page := before ++ frame ++ after in
  search true "<iframe " page = Some (String.length before) ->
  every same_line attributes = true ->
  every same_line rest = true ->
  id <> "" ->
  every is_video_id_char id = true ->
  search true (q " src='https://www")
    (drop 1 (q " src='https://www.youtube.com/embed/" ++ id ++ q "' " ++ rest
             ++ "></iframe>" ++ after)) = None ->
  search true "></iframe>" (drop 1 ("></iframe>" ++ after)) = None ->
  search true "<iframe " after = None ->
  replace_regexp page youtube_regexp youtube_template
  = before ++ youtube_wrapper attributes id rest ++ after.
Proof.
  intros frame page Hfirst Hattributes Hrest Hnonempty Hid Hsource Hclose Hlast.
  assert (drop (String.length before) page = frame ++ after) as Hdrop
    by apply drop_append.
  set (address := q " src='https://www.youtube.com/embed/").
  set (closing := "></iframe>").
  assert (frame ++ after
          = "<iframe " ++ attributes ++ address ++ id
            ++ String dquote (String " " (rest ++ closing ++ after)))
    as Hshape.
  { unfold frame. fold address closing. rewrite !append_assoc. reflexivity. }
  assert (rmatch true (pattern youtube_regexp) (frame ++ after) []
            (fun rest0 caps => Some (rest0, caps))
          = Some (after, [(3, rest); (2, id); (1, attributes)])) as Hmatch.
  { rewrite Hshape.
    change (pattern youtube_regexp)
      with (RSeq (lit "<iframe ")
              (RSeq (RGroup 1 (RStar RAny))
                 (RSeq (lit (q " src='https://www"))
                    (RSeq RAny (RSeq (lit "youtube") (RSeq RAny (RSeq (lit "com/embed/")
                       (RSeq (RGroup 2 (plus (RClass [("a"%char, "z"%char);
                                                       ("0"%char, "9"%char);
                                                       ("-"%char, "-"%char)])))
                          (RSeq (RChar dquote) (RSeq (RChar " ")
                             (RSeq (RGroup 3 (RStar RAny))
                                (RSeq (lit "></iframe>") REmpty)))))))))))).
    rewrite rmatch_seq, starts_with_lit, starts_with_append, drop_append.
    rewrite rmatch_seq, rmatch_group_star_any.
    apply longest_run_skips; [exact Hattributes|].
    assert (exists c tail, address ++ id ++ String dquote (String " " (rest ++ closing ++ after))
                           = String c tail /\ same_line c = true) as (c & tail & Hcut & Hc).
    { eexists. eexists. split; [reflexivity | reflexivity]. }
    rewrite Hcut. cbn [longest_run]. rewrite Hc. rewrite longest_run_fails.
    - rewrite <- Hcut.
      replace (String.length
                 (attributes ++ address ++ id
                  ++ String dquote (String " " (rest ++ closing ++ after)))
               - String.length
                   (address ++ id ++ String dquote (String " " (rest ++ closing ++ after))))
        with (String.length attributes) by (rewrite (length_append attributes); lia).
      rewrite take_append. unfold address. rewrite youtube_address_match.
      rewrite rmatch_seq.
      apply rmatch_group_plus_class; [exact Hnonempty | exact Hid | reflexivity |].
      rewrite rmatch_seq, rmatch_char. unfold one_char.
      rewrite char_matches_dquote, Ascii.eqb_refl.
      rewrite rmatch_seq, rmatch_char. unfold one_char.
      change (char_matches true " " " ") with true. cbn iota.
      rewrite rmatch_seq, rmatch_group_star_any.
      apply longest_run_skips; [exact Hrest|].
      change (closing ++ after) with (String ">" (drop 1 (closing ++ after))).
      cbn [longest_run]. change (same_line ">") with true. cbn iota.
      rewrite longest_run_fails.
      + change (String ">" (drop 1 (closing ++ after))) with (closing ++ after).
        rewrite rmatch_seq, starts_with_lit. unfold closing at 1 2.
        rewrite starts_with_append, drop_append. cbn [rmatch].
        replace (String.length (rest ++ closing ++ after)
                 - String.length (closing ++ after))
          with (String.length rest) by (rewrite (length_append rest); lia).
        now rewrite take_append.
      + intros n. rewrite rmatch_seq, starts_with_lit. unfold closing.
        now rewrite (search_none_everywhere true "></iframe>" n _ Hclose).
    - intros n.
      assert (tail
              = drop 1 (address ++ id
                        ++ String dquote (String " " (rest ++ closing ++ after))))
        as -> by (now rewrite Hcut).
      rewrite rmatch_seq, starts_with_lit.
      rewrite (search_none_everywhere true (q " src='https://www") n); [reflexivity|].
      unfold address, closing. exact Hsource. }
  assert (exec youtube_regexp page
          = Some {| index := String.length before; matched := frame;
                    groups_of := [(3, rest); (2, id); (1, attributes)] |}) as Hexec.
  { unfold exec.
    rewrite (exec_from_at youtube_regexp "<iframe " _ eq_refl page 0 (String.length before)
               after [(3, rest); (2, id); (1, attributes)] Hfirst).
    - rewrite Hdrop. cbn [plus]. f_equal. f_equal.
      replace (String.length (frame ++ after) - String.length after)
        with (String.length frame) by (rewrite length_append; lia).
      apply take_append.
    - rewrite Hdrop. exact Hmatch. }
  assert (drop (String.length before + String.length frame) page = after) as Hafter.
  { rewrite <- drop_drop, Hdrop. apply drop_append. }
  rewrite (replace_regexp_once youtube_regexp page _ _ Hexec); cbn [index matched groups_of].
  - rewrite Hafter. unfold page at 1. rewrite take_append.
    change (List.length (groups (pattern youtube_regexp))) with 3.
    now rewrite youtube_template_filled.
  - unfold frame. discriminate.
  - rewrite Hafter. unfold exec.
    now apply (exec_from_without youtube_regexp "<iframe " _ eq_refl).
Qed.

Lemma youtube_frame_is_wrapped_witness :
  replace_regexp
    (q "<p><iframe width='560' height='315' src='https://www.youtube.com/embed/dQw4w9WgXcQ' frameborder='0' allowfullscreen></iframe></p>")
    youtube_regexp youtube_template
  = "<p>"
    ++ youtube_wrapper (q "width='560' height='315'") "dQw4w9WgXcQ"
         (q "frameborder='0' allowfullscreen")
    ++ "</p>".
Proof.
  assert ("dQw4w9WgXcQ" <> "") as Hnonempty by discriminate.
  exact (youtube_frame_is_wrapped "<p>" (q "width='560' height='315'") "dQw4w9WgXcQ"
           (q "frameborder='0' allowfullscreen") "</p>"
           eq_refl eq_refl eq_refl Hnonempty eq_refl eq_refl eq_refl eq_refl).
Defined.

(** ** Invariants of the worker, from event to event *)

Open Scope list_scope.

Lemma onFetch_stores_only_ok (network : string -> option Response) (self_origin : string)
    (cfg : Config) (now : Z) (request : Request) (w : World) :
  stores_only_ok cfg w (snd (onFetch network self_origin cfg now request w)).
Proof.
  unfold onFetch. destruct (shouldSaveData cfg request);
    [now apply stores_only_ok_refl|].
  destruct (shouldHandleFetch self_origin cfg request);
    [apply doFetch_stores_only_ok|].
  destruct (analytics_enabled cfg);
    [apply analyticsFetch_stores_only_ok | now apply stores_only_ok_refl].
Qed.

Lemma caches_ok_filter (keep : string * Cache -> bool) (cs : CacheStorage) :
  caches_ok cs -> caches_ok (filter keep cs).
Proof.
  unfold caches_ok. rewrite !Forall_forall. intros H named Hin.
  apply filter_In in Hin as [Hin _]. now apply H.
Qed.

Lemma trimCache_loop_ok (cfg : Config) : forall fuel c,
  Forall (fun entry => ok (snd entry) = true) c ->
  Forall (fun entry => ok (snd entry) = true) (trimCache_loop cfg fuel c).
Proof.
  induction fuel as [|fuel IH]; intros c Hc; [exact Hc|]. cbn [trimCache_loop].
  destruct (within_limit _ _); [exact Hc|].
  destruct (cache_keys c) as [|first keys]; [exact Hc|]. apply IH.
  unfold cache_delete. rewrite Forall_forall in *. intros entry Hin.
  apply filter_In in Hin as [Hin _]. now apply Hc.
Qed.

Lemma trimCaches_ok (cfg : Config) (cs : CacheStorage) :
  caches_ok cs -> caches_ok (trimCaches cfg cs).
Proof.
  unfold trimCaches. destruct (_ || _); [trivial|].
  generalize (caches_keys cs) as names. intros names. revert cs.
  induction names as [|name names IH]; intros cs Hcs; [exact Hcs|].
  cbn [fold_left]. apply IH. unfold trimCache. apply caches_update_ok; [|exact Hcs].
  intros c. apply trimCache_loop_ok.
Qed.

Lemma replay_keeps_caches (network : string -> option Response) (cfg : Config) (now : Z)
    (records : list RetryRecord) : forall w,
  caches (fold_left (retry_request network cfg now) records w) = caches w.
Proof.
  induction records as [|request records IH]; intros w; [reflexivity|].
  cbn [fold_left]. rewrite IH.
  now destruct (retry_request_effect network cfg now w request) as (-> & _).
Qed.

Lemma retry_keeps_caches (network : string -> option Response) (cfg : Config) (now : Z)
    (w replayed : World) :
  retryAnalyticsRequests network cfg now w = Some replayed -> caches replayed = caches w.
Proof.
  unfold retryAnalyticsRequests. destruct (database w) as [records|]; [|discriminate].
  intros [= <-]. apply replay_keeps_caches.
Qed.

Section Invariants.

Variable network : string -> option Response.
Variable self_origin : string.
Variable read : option value -> Config.
Variable beyond : string -> bool.
Variable clients : list string.
Variable stored : list RetryRecord.

Lemma replay_caches (settings : option value) (now : Z) (w replayed : World) :
  replay network read beyond settings now w = Some replayed -> caches replayed = caches w.
Proof.
  unfold replay. destruct (missing beyond "analytics" settings).
  - destruct (database w); [|discriminate]. now intros [= <-].
  - apply retry_keeps_caches.
Qed.

Lemma handle_keeps_caches_ok (event : Event) (st : Worker) :
  caches_ok (caches (world st)) ->
  caches_ok (caches (world (handle network self_origin read beyond clients stored event st))).
Proof.
  intros Hok. destruct event as [now request|now data| |now|]; cbn [handle].
  - destruct (missing beyond "cache" (settings st)); [exact Hok|].
    destruct (_ && _); [exact Hok|]. cbn [world].
    apply (stores_only_ok_caches_ok (read (settings st)) (world st)); [|exact Hok].
    apply onFetch_stores_only_ok.
  - unfold onMessage. destruct (String.eqb (command data) "setConfig").
    + unfold setConfig.
      set (merged := merged_settings (settings st) (message_config data)).
      set (cfg := read merged).
      destruct (missing beyond "cache" merged); [exact Hok|].
      set (trimmed := {| caches := trimCaches cfg (caches (world st));
                         database := database (world st);
                         fetched := fetched (world st);
                         written := written (world st) |}).
      assert (caches_ok (caches trimmed)) as Htrimmed by (now apply trimCaches_ok).
      destruct (missing beyond "prefetch" merged || _); [exact Htrimmed|].
      unfold sendMessage, openDatabase. cbn [world].
      destruct (prefetch_enabled cfg); [|exact Htrimmed].
      destruct (prefetch_items cfg) as [items|]; [|exact Htrimmed].
      apply (stores_only_ok_caches_ok cfg trimmed); [|exact Htrimmed].
      apply prefetch_stores_only_ok.
    + destruct (String.eqb (command data) "prefetch").
      * destruct (missing beyond "prefetch" (settings st)); [exact Hok|]. cbn [world].
        apply (stores_only_ok_caches_ok (read (settings st)) (world st)); [|exact Hok].
        apply prefetch_stores_only_ok.
      * destruct (String.eqb (command data) "reconnected"); [|exact Hok].
        destruct (replay network read beyond (settings st) now (world st))
          as [replayed|] eqn:E; [|exact Hok].
        cbn [world]. now rewrite (replay_caches _ _ _ _ E).
  - cbn [world caches]. unfold onActivate. rewrite purge_is_filter.
    now apply caches_ok_filter.
  - destruct (Nat.eqb (opening st) 0); [exact Hok|]. unfold onsuccess. cbn [world].
    match goal with
    | |- context [replay _ _ _ _ _ ?w] =>
        destruct (replay network read beyond (settings st) now w) as [replayed|] eqn:E
    end; [|exact Hok].
    now rewrite (replay_caches _ _ _ _ E).
  - destruct (Nat.eqb (opening st) 0); exact Hok.
Qed.

(** X24. Whatever events the worker handles (fetches, messages,
    activations, the answers to its requests to open the database, in any
    order and under any configuration), if every response held by the
    caches is ok to begin with, every response held by the caches is ok
    afterwards. *)
Theorem caches_hold_only_ok_responses (events : list Event) (st : Worker) :
  caches_ok (caches (world st)) ->
  caches_ok
    (caches (world (run network self_origin read beyond clients stored events st))).
Proof.
  unfold run. revert st. induction events as [|event events IH]; intros st Hok;
    [exact Hok|].
  cbn [fold_left]. apply IH. now apply handle_keeps_caches_ok.
Qed.

Lemma doFetch_database (cfg : Config) (request : Request) (w : World) :
  database (snd (doFetch network cfg request w)) = database w.
Proof.
  unfold doFetch. destruct (accept request) as [acceptHeader|]; [|reflexivity].
  assert (forall resourceType,
            database (snd (cacheFirstFlow network cfg resourceType request w))
            = database w) as Hfirst.
  { intros resourceType.
    unfold cacheFirstFlow, then_, catch_, resolve, fetchFromCache, fetch, addToCache,
      offlineResponse.
    destruct (caches_match (url request) (caches w)) as [cached|].
    - destruct (ok cached && cache_enabled cfg); reflexivity.
    - destruct (network (url request)) as [raw|].
      + destruct (ok raw && cache_enabled cfg); reflexivity.
      + destruct (offline cfg) as [off|]; [|reflexivity].
        destruct resourceType; try reflexivity;
          match goal with |- context [if ?b then _ else _] => destruct b end;
          reflexivity. }
  destruct (resourceType_of acceptHeader).
  - unfold contentFlow, then_, catch_, resolve, fetchFromCache, fetch, addToCache,
      offlineResponse.
    destruct (network (url request)) as [raw|].
    + destruct (ok _ && cache_enabled cfg); reflexivity.
    + cbn [caches]. destruct (caches_match (url request) (caches w)); [reflexivity|].
      destruct (offline cfg) as [off|]; [|reflexivity].
      destruct (set_and_truthy (offline_page off)); reflexivity.
  - specialize (Hfirst image).
    destruct (cacheFirstFlow network cfg image request w) as [[r|] w']; exact Hfirst.
  - specialize (Hfirst static).
    destruct (cacheFirstFlow network cfg static request w) as [[r|] w']; exact Hfirst.
Qed.

Lemma prefetch_database (cfg : Config) (urls : list string) (w : World) :
  database (prefetch network cfg urls w) = database w.
Proof.
  unfold prefetch. destruct (negb (prefetch_enabled cfg)); [reflexivity|].
  revert w. induction urls as [|address urls IH]; intros w; [reflexivity|].
  cbn [fold_left]. rewrite IH.
  now destruct (prefetch_one_effect network cfg w address) as (_ & -> & _).
Qed.

Lemma retry_distinct (cfg : Config) (now : Z) (w replayed : World) :
  distinct_urls w ->
  retryAnalyticsRequests network cfg now w = Some replayed -> distinct_urls replayed.
Proof.
  intros Hw Hrun records Hdb.
  destruct (database w) as [records0|] eqn:Hdb0;
    [|unfold retryAnalyticsRequests in Hrun; rewrite Hdb0 in Hrun; discriminate].
  destruct (retry_keeps_urls_distinct network cfg now w replayed records0 Hdb0
              (Hw _ Hdb0) Hrun) as (records' & Hdb' & Hnd).
  congruence.
Qed.

Lemma replay_distinct (settings : option value) (now : Z) (w replayed : World) :
  distinct_urls w ->
  replay network read beyond settings now w = Some replayed -> distinct_urls replayed.
Proof.
  intros Hw. unfold replay. destruct (missing beyond "analytics" settings).
  - destruct (database w); [|discriminate]. now intros [= <-].
  - now apply retry_distinct.
Qed.

Lemma setConfig_database (newConfig : value) (st : Worker) :
  database (world (setConfig network read beyond clients newConfig st))
  = database (world st).
Proof.
  unfold setConfig.
  destruct (missing beyond "cache" _); [reflexivity|].
  destruct (missing beyond "prefetch" _ || _); [reflexivity|].
  unfold sendMessage, openDatabase. cbn [world].
  destruct (prefetch_enabled _); [|reflexivity].
  destruct (prefetch_items _); [|reflexivity]. now rewrite prefetch_database.
Qed.

Lemma onsuccess_distinct (now : Z) (st : Worker) :
  NoDup (map record_url stored) ->
  distinct_urls (world st) ->
  distinct_urls (world (onsuccess network read beyond stored now st)).
Proof.
  intros Hstored Hst. unfold onsuccess. cbn [world].
  match goal with
  | |- context [replay _ _ _ _ _ ?w] => set (opened := w)
  end.
  assert (distinct_urls opened) as Hopened.
  { intros records. subst opened. cbn [database]. intros [= <-].
    destruct (database (world st)) as [records0|] eqn:E; [now apply Hst | exact Hstored]. }
  destruct (replay network read beyond (settings st) now opened) as [replayed|] eqn:E;
    [|exact Hopened].
  now apply (replay_distinct (settings st) now opened).
Qed.

Lemma handle_keeps_urls_distinct (event : Event) (st : Worker) :
  NoDup (map record_url stored) ->
  distinct_urls (world st) ->
  distinct_urls (world (handle network self_origin read beyond clients stored event st)).
Proof.
  intros Hstored Hst. destruct event as [now request|now data| |now|]; cbn [handle].
  - destruct (missing beyond "cache" (settings st)); [exact Hst|].
    destruct (_ && _); [exact Hst|]. cbn [world].
    unfold onFetch. destruct (shouldSaveData _ request); [exact Hst|].
    destruct (shouldHandleFetch _ _ request).
    + intros records. rewrite doFetch_database. apply Hst.
    + destruct (analytics_enabled _); [|exact Hst]. unfold analyticsFetch.
      destruct (_ && _); [|exact Hst].
      assert (forall w1 : World, distinct_urls w1 ->
                forall w2, store now (url request) w1 = Some w2 -> distinct_urls w2)
        as Hstore.
      { intros w1 Hw1 w2 Hrun records Hdb.
        destruct (database w1) as [records1|] eqn:Hdb1;
          [|unfold store in Hrun; rewrite Hdb1 in Hrun; discriminate].
        destruct (store_keeps_urls_distinct now (url request) w1 w2 records1 Hdb1
                    (Hw1 _ Hdb1) Hrun) as (records' & Hdb' & Hnd).
        congruence. }
      assert (distinct_urls (snd (fetch network (url request) (world st)))) as Hfetched.
      { unfold fetch. destruct (network (url request)); exact Hst. }
      destruct (fetch network (url request) (world st)) as [[response|] w1];
        cbn [snd] in *;
        destruct (store now (url request) w1) as [w2|] eqn:E; cbn [snd];
        try exact Hfetched; now apply (Hstore w1 Hfetched).
  - unfold onMessage. destruct (String.eqb (command data) "setConfig").
    + intros records. rewrite setConfig_database. apply Hst.
    + destruct (String.eqb (command data) "prefetch").
      * destruct (missing beyond "prefetch" (settings st)); [exact Hst|]. cbn [world].
        intros records. rewrite prefetch_database. apply Hst.
      * destruct (String.eqb (command data) "reconnected"); [|exact Hst].
        destruct (replay network read beyond (settings st) now (world st))
          as [replayed|] eqn:E; [|exact Hst].
        cbn [world]. now apply (replay_distinct (settings st) now (world st)).
  - exact Hst.
  - destruct (Nat.eqb (opening st) 0); [exact Hst|]. now apply onsuccess_distinct.
  - destruct (Nat.eqb (opening st) 0); exact Hst.
Qed.

(** X25. The urls queued for replay stay pairwise distinct, whatever events
    the worker handles, provided they are distinct in the database as the
    worker finds it: this is what the replay of each record relies on. *)
Theorem queued_urls_stay_distinct (events : list Event) (st : Worker)
    (records : list RetryRecord) :
  NoDup (map record_url stored) ->
  (forall records0, database (world st) = Some records0 ->
     NoDup (map record_url records0)) ->
  database (world (run network self_origin read beyond clients stored events st))
  = Some records ->
  NoDup (map record_url records).
Proof.
  intros Hstored Hst. unfold run. revert st Hst records.
  induction events as [|event events IH]; intros st Hst; [exact Hst|].
  cbn [fold_left]. apply IH. now apply handle_keeps_urls_distinct.
Qed.

Lemma setConfig_settings_posted (newConfig : value) (st : Worker) :
  settings (setConfig network read beyond clients newConfig st)
  = merged_settings (settings st) newConfig
  /\ posted (setConfig network read beyond clients newConfig st)
     = posted st ++ told read beyond clients (merged_settings (settings st) newConfig).
Proof.
  unfold setConfig, told, throws.
  destruct (missing beyond "cache" _); cbn [orb settings posted];
    [now rewrite app_nil_r|].
  destruct (missing beyond "prefetch" _ || _); cbn [settings posted];
    [now rewrite app_nil_r|].
  split; reflexivity.
Qed.

(** X26. The configuration accumulates: after any events it is the object
    the worker had, with the configurations of the [setConfig] messages
    merged in, one after the other, and nothing else changes it.  The
    clients are told [isConfigured], every client each time, once for each
    of these messages at which [setConfig] does not throw, and are told
    nothing else: [setConfig] throws before it tells them when it finds the
    section [cache] or the section [prefetch] of the merged configuration
    [null], or [prefetch.items] no array while prefetching is enabled. *)
Theorem configuration_accumulates (events : list Event) (st : Worker) :
  let st' := run network self_origin read beyond clients stored events st in
  settings st' = fold_left merged_settings (configurations events) (settings st)
  /\ posted st'
     = posted st ++ flat_map (told read beyond clients) (configured (configurations events) (settings st))
  /\ (Forall (fun merged => throws read beyond merged = false)
        (configured (configurations events) (settings st)) ->
      posted st'
      = posted st
        ++ flat_map (fun _ => map (fun client => (client, "isConfigured")) clients)
             (configurations events)).
Proof.
  cbn zeta.
  assert (settings (run network self_origin read beyond clients stored events st)
          = fold_left merged_settings (configurations events) (settings st)
          /\ posted (run network self_origin read beyond clients stored events st)
             = posted st
               ++ flat_map (told read beyond clients) (configured (configurations events) (settings st)))
    as [Hsettings Hposted].
  { unfold run. revert st. induction events as [|event events IH]; intros st.
    - cbn. now rewrite app_nil_r.
    - cbn [fold_left].
      destruct (IH (handle network self_origin read beyond clients stored event st))
        as [Hsettings Hposted].
      rewrite Hsettings, Hposted. clear IH Hsettings Hposted.
      assert (configurations (event :: events)
              = configurations [event] ++ configurations events) as ->.
      { unfold configurations. cbn [flat_map]. now rewrite app_nil_r. }
      destruct event as [now request|now data| |now|];
        cbn [handle configurations flat_map app].
      + destruct (missing beyond "cache" (settings st)); [split; reflexivity|].
        destruct (_ && _); split; reflexivity.
      + unfold onMessage. destruct (String.eqb (command data) "setConfig").
        * destruct (setConfig_settings_posted (message_config data) st) as [-> ->].
          cbn [app fold_left configured flat_map].
          split; [reflexivity | now rewrite <- app_assoc].
        * cbn [app]. destruct (String.eqb (command data) "prefetch").
          { destruct (missing beyond "prefetch" (settings st)); split; reflexivity. }
          destruct (String.eqb (command data) "reconnected"); [|split; reflexivity].
          destruct (replay _ _ _ _ _ _); split; reflexivity.
      + split; reflexivity.
      + destruct (Nat.eqb (opening st) 0); split; reflexivity.
      + destruct (Nat.eqb (opening st) 0); split; reflexivity. }
  split; [exact Hsettings|]. split; [exact Hposted|].
  intros Hall. rewrite Hposted. f_equal. clear Hsettings Hposted.
  revert Hall. generalize (settings st) as config0.
  induction (configurations events) as [|newConfig configs IH]; intros config0 Hall;
    [reflexivity|].
  cbn [configured flat_map] in *. inversion_clear Hall as [|? ? Hmerged Hrest].
  rewrite (IH _ Hrest). f_equal. unfold told. now rewrite Hmerged.
Qed.

Lemma replay_keeps_database_open (settings : option value) (now : Z) (w replayed : World) :
  replay network read beyond settings now w = Some replayed ->
  database w <> None /\ database replayed <> None.
Proof.
  unfold replay. destruct (missing beyond "analytics" settings).
  - destruct (database w) eqn:Hdb; [|discriminate]. intros [= <-].
    split; [discriminate | now rewrite Hdb].
  - unfold retryAnalyticsRequests. destruct (database w) as [records|] eqn:Hdb;
      [|discriminate].
    intros [= <-]. destruct (replay_effect network (read settings) now records w)
      as [_ Hdatabase].
    cbn zeta in Hdatabase. rewrite Hdatabase, Hdb. split; discriminate.
Qed.

Lemma onFetch_database (cfg : Config) (now : Z) (request : Request) (w : World) :
  (database w <> None ->
   database (snd (onFetch network self_origin cfg now request w)) <> None)
  /\ (database w = None ->
      database (snd (onFetch network self_origin cfg now request w)) = None).
Proof.
  unfold onFetch. destruct (shouldSaveData _ request); [tauto|].
  destruct (shouldHandleFetch _ _ request); [rewrite doFetch_database; tauto|].
  destruct (analytics_enabled _); [|tauto]. unfold analyticsFetch.
  destruct (_ && _); [|tauto]. unfold fetch, store.
  destruct (network (url request)); cbn [database];
    destruct (database w); cbn [snd database]; split; congruence.
Qed.

(** The database is opened by the success of a request to open it, and by
    nothing else; the requests are made by [setConfig], and by nothing
    else. *)
Lemma handle_database (event : Event) (st : Worker) :
  let st' := handle network self_origin read beyond clients stored event st in
  (database (world st) <> None -> database (world st') <> None)
  /\ (match event with
      | OpenSuccess _ => opening st = 0
      | _ => True
      end ->
      database (world st) = None -> database (world st') = None)
  /\ (configurations [event] = [] -> opening st' <= opening st).
Proof.
  destruct event as [now request|now data| |now|]; cbn [handle configurations flat_map app].
  - destruct (missing beyond "cache" (settings st)); [cbn zeta; auto|].
    destruct (_ && _); [cbn zeta; auto|]. cbn [world opening].
    destruct (onFetch_database (read (settings st)) now request (world st)) as [Hopen Hclosed].
    auto.
  - unfold onMessage. destruct (String.eqb (command data) "setConfig").
    + cbn zeta. rewrite setConfig_database. split; [auto|]. split; [auto | discriminate].
    + cbn [app]. destruct (String.eqb (command data) "prefetch").
      * destruct (missing beyond "prefetch" (settings st)); [cbn zeta; auto|].
        cbn [world opening]. rewrite prefetch_database. auto.
      * destruct (String.eqb (command data) "reconnected"); [|cbn zeta; auto].
        destruct (replay network read beyond (settings st) now (world st))
          as [replayed|] eqn:E; [|cbn zeta; auto].
        cbn [world opening]. destruct (replay_keeps_database_open _ _ _ _ E) as [Hwas His].
        split; [auto|]. split; [intros _ Hclosed; contradiction | auto].
  - cbn [world database opening]. auto.
  - destruct (Nat.eqb_spec (opening st) 0) as [Hzero|Hpending]; [cbn zeta; auto|].
    unfold onsuccess. cbn [world opening]. split; [|split; [intros Hzero; contradiction | lia]].
    intros _.
    match goal with
    | |- context [replay _ _ _ _ _ ?w] =>
        destruct (replay network read beyond (settings st) now w) as [replayed|] eqn:E
    end; [now apply replay_keeps_database_open in E | discriminate].
  - destruct (Nat.eqb (opening st) 0); cbn [onerror world opening]; [auto|].
    split; [auto|]. split; [auto | lia].
Qed.

(** X27. The queue works only after the page has configured the worker
    and the browser has opened the database.  A worker that has no database
    and has asked for none stays without it as long as no [setConfig]
    message comes, whatever else it handles; it stays without it whatever
    it handles as long as no request to open it succeeds.  Once open the
    database stays open.  [setConfig] asks for it unless it throws before
    (the merged configuration has a section [cache] or [prefetch] that is
    [null], or [prefetch.items] that are no array while prefetching is
    enabled), and the database is open once this request has succeeded.  A
    request that fails leaves the worker without the database. *)
Theorem database_opens_with_setConfig (events : list Event) (st : Worker) :
  let st' := run network self_origin read beyond clients stored events st in
  (configurations events = [] -> opening st = 0 -> database (world st) = None ->
   database (world st') = None)
  /\ (Forall (fun event => match event with OpenSuccess _ => False | _ => True end) events ->
      database (world st) = None -> database (world st') = None)
  /\ (database (world st) <> None -> database (world st') <> None)
  /\ (forall now newConfig,
        let merged := merged_settings (settings st) newConfig in
        let asked := setConfig network read beyond clients newConfig st in
        (throws read beyond merged = false ->
         opening asked = S (opening st)
         /\ database
              (world (handle network self_origin read beyond clients stored
                        (OpenSuccess now) asked)) <> None)
        /\ (throws read beyond merged = true ->
            opening asked = opening st /\ database (world asked) = database (world st)))
  /\ database (world (handle network self_origin read beyond clients stored OpenError st))
     = database (world st).
Proof.
  cbn zeta. split; [|split; [|split; [|split]]].
  - unfold run. revert st. induction events as [|event events IH]; intros st;
      [auto|].
    cbn [fold_left].
    assert (configurations (event :: events)
            = configurations [event] ++ configurations events) as ->.
    { unfold configurations. cbn [flat_map]. now rewrite app_nil_r. }
    intros Hnone Hzero Hclosed. apply app_eq_nil in Hnone as [Hnone1 Hnone2].
    destruct (handle_database event st) as (_ & Hstays & Hopening). cbn zeta in *.
    apply IH; [exact Hnone2 | specialize (Hopening Hnone1); lia |].
    apply Hstays; [|exact Hclosed]. now destruct event.
  - unfold run. revert st. induction events as [|event events IH]; intros st;
      [auto|].
    cbn [fold_left]. intros Hall Hclosed. inversion_clear Hall as [|? ? Hevent Hrest].
    destruct (handle_database event st) as (_ & Hstays & _). cbn zeta in *.
    apply IH; [exact Hrest|]. apply Hstays; [|exact Hclosed].
    now destruct event.
  - unfold run. revert st. induction events as [|event events IH]; intros st;
      [auto|].
    cbn [fold_left]. intros Hopen. apply IH.
    now apply (handle_database event st).
  - intros now newConfig. split.
    + intros Hruns. unfold throws in Hruns.
      apply orb_false_iff in Hruns as [Hruns Hitems].
      apply orb_false_iff in Hruns as [Hcache Hprefetch].
      assert (opening (setConfig network read beyond clients newConfig st)
              = S (opening st)) as Hasked.
      { unfold setConfig. now rewrite Hcache, Hprefetch, Hitems. }
      split; [exact Hasked|]. cbn [handle]. rewrite Hasked. cbn [Nat.eqb].
      unfold onsuccess. cbn [world].
      match goal with
      | |- context [replay _ _ _ ?s _ ?w] =>
          destruct (replay network read beyond s now w) as [replayed|] eqn:E
      end; [now apply replay_keeps_database_open in E | discriminate].
    + intros Hthrows. rewrite setConfig_database. split; [|reflexivity].
      unfold throws in Hthrows. unfold setConfig.
      destruct (missing beyond "cache" _); [reflexivity|].
      cbn [orb] in Hthrows. now rewrite Hthrows.
  - cbn [handle]. now destruct (Nat.eqb (opening st) 0).
Qed.

End Invariants.

(** A page that configures the worker and a database that opens: the
    beacon that fails afterwards is queued.  A configuration that takes the
    section [cache] away makes [setConfig] throw: the configuration is
    merged, no request to open the database is made and no client is
    told.  So does a configuration whose [prefetch.items] is a text, under
    the default configuration, in which prefetching is enabled. *)
Example setConfig_then_success :
  database
    (world
       (run no_network "https://example.com" (fun _ => config) (fun _ => false)
          ["window"] []
          [MessageEvent 0 {| command := "setConfig"; message_config := example_override;
                             message_urls := [] |};
           OpenSuccess 1; FetchEvent 2 beacon_request]
          started))
  = Some [{| record_url := url beacon_request; timestamp := 2 |}]
  /\ (let thrown :=
        run no_network "https://example.com" (fun _ => config) (fun _ => false)
          ["window"] []
          [MessageEvent 0 {| command := "setConfig";
                             message_config := VObject [("cache", VNull)];
                             message_urls := [] |};
           OpenSuccess 1; FetchEvent 2 beacon_request]
          started in
      property (match settings thrown with Some merged => merged | None => VNull end)
        "cache" = Own VNull
      /\ posted thrown = [] /\ opening thrown = 0 /\ database (world thrown) = None)
  /\ (let thrown :=
        setConfig no_network (fun _ => config) (fun _ => false) ["window"]
          (VObject [("prefetch", VObject [("items", VString "offline")])]) started in
      posted thrown = [] /\ opening thrown = 0).
Proof. split; [|split; repeat split]; vm_compute; reflexivity. Qed.

Lemma caches_hold_only_ok_responses_witness :
  caches_ok
    (caches
       (world
          (run page_network "https://example.com" (fun _ => config_with_maxItems 1)
             (fun _ => false) ["window"] []
             [FetchEvent 0 page_request;
              MessageEvent 1 {| command := "setConfig"; message_config := example_override;
                                message_urls := [] |};
              OpenSuccess 2; ActivateEvent]
             started))).
Proof.
  apply caches_hold_only_ok_responses. constructor.
Defined.

Lemma queued_urls_stay_distinct_witness :
  exists records,
    database
      (world
         (run no_network "https://example.com" (fun _ => config) (fun _ => false)
            ["window"] []
            [MessageEvent 0 {| command := "setConfig"; message_config := VUndefined;
                               message_urls := [] |};
             OpenSuccess 0; FetchEvent 1 beacon_request; FetchEvent 2 beacon_request]
            started))
    = Some records
    /\ NoDup (map record_url records)
    /\ List.length records = 1.
Proof.
  eexists. split; [vm_compute; reflexivity|]. split; [|reflexivity].
  apply (queued_urls_stay_distinct no_network "https://example.com" (fun _ => config)
           (fun _ => false) ["window"] []
           [MessageEvent 0 {| command := "setConfig"; message_config := VUndefined;
                              message_urls := [] |};
            OpenSuccess 0; FetchEvent 1 beacon_request; FetchEvent 2 beacon_request]
           started);
    [constructor | intros records0 H; discriminate H | vm_compute; reflexivity].
Defined.

(** ** The page side *)

Open Scope string_scope.

(** X28. The page never offers for prefetching a link whose address does
    not start with the page's origin, the page's own address, a link marked
    [data-no-prefetch] or [download], or a link with a target.  A link to a
    fragment of the page is not offered either, as long as the page's own
    address holds no [#]; when it does, a link to another fragment of the
    page passes the test, whatever its attributes are other than
    [data-no-prefetch] and [download]. *)
Theorem same_page_and_marked_links_are_not_prefetched (location : Location) (link : Link) :
  (isPrefetchable location link = true ->
   prefix (location_origin location) (link_href link) = true
   /\ link_href link <> location_href location
   /\ ~ In "data-no-prefetch" (link_attributes link)
   /\ ~ In "download" (link_attributes link)
   /\ link_target link = "")
  /\ (forall fragment,
        lacks "#" (location_href location) = true ->
        link_href link = location_href location ++ "#" ++ fragment ->
        isPrefetchable location link = false)
  /\ (forall page here there,
        lacks "#" page = true ->
        prefix (location_origin location) page = true ->
        location_href location = page ++ "#" ++ here ->
        link_href link = page ++ "#" ++ there ->
        here <> there ->
        ~ In "data-no-prefetch" (link_attributes link) ->
        ~ In "download" (link_attributes link) ->
        link_target link = "" ->
        isPrefetchable location link = true).
Proof.
  unfold isPrefetchable. split; [|split].
  - destruct (_ || _) eqn:E; [discriminate|]. intros _.
    rewrite !orb_false_iff in E.
    destruct E as (((((Horigin & Hsame) & Hmarked) & _) & Htarget) & Hdownload).
    apply negb_false_iff in Horigin. rewrite Z.eqb_sym, indexOf_zero_prefix in Horigin.
    apply negb_false_iff, String.eqb_eq in Htarget.
    apply String.eqb_neq in Hsame.
    rewrite existsb_false_iff in Hmarked, Hdownload.
    repeat split; try assumption.
    + intros Hin. specialize (Hmarked _ Hin). now rewrite String.eqb_refl in Hmarked.
    + intros Hin. specialize (Hdownload _ Hin). now rewrite String.eqb_refl in Hdownload.
  - intros fragment Hplain Hhref.
    assert (indexOf (link_href link) "#"
            = Z.of_nat (String.length (location_href location))) as ->.
    { unfold indexOf. rewrite Hhref. change ("#" ++ fragment) with (String "#" fragment).
      now rewrite (find_closing "#" (location_href location) fragment Hplain). }
    rewrite Z.eqb_refl. now rewrite !orb_true_r.
  - intros page here there Hplain Horigin Hpage Hhref Hother Hmarked Hdownload Htarget.
    assert (forall name, ~ In name (link_attributes link) ->
              existsb (String.eqb name) (link_attributes link) = false) as Hnone.
    { intros name Hname. apply existsb_false_iff. intros other Hin.
      apply String.eqb_neq. intros ->. now apply Hname. }
    assert (indexOf (link_href link) (location_origin location) = 0%Z) as ->.
    { pose proof (indexOf_zero_prefix (link_href link) (location_origin location)) as H.
      rewrite Hhref in *.
      rewrite (prefix_trans _ page _ Horigin (prefix_append page _)) in H.
      now apply Z.eqb_eq in H. }
    assert (indexOf (link_href link) "#" = Z.of_nat (String.length page)) as ->.
    { unfold indexOf. rewrite Hhref. change ("#" ++ there) with (String "#" there).
      now rewrite (find_closing "#" page there Hplain). }
    rewrite (Hnone _ Hmarked), (Hnone _ Hdownload), Htarget, Hpage, Hhref.
    cbn [negb orb String.eqb Z.eqb].
    assert (String.eqb (page ++ "#" ++ there) (page ++ "#" ++ here) = false) as ->.
    { apply String.eqb_neq. intros Heq. apply Hother.
      assert (forall a b c : string, a ++ b = a ++ c -> b = c) as Hcancel.
      { induction a as [|x a IH]; intros b c H; [exact H|]. injection H as H. now apply IH. }
      apply Hcancel in Heq. now injection Heq. }
    assert ((Z.of_nat (String.length (page ++ "#" ++ here)) =? Z.of_nat (String.length page))%Z
            = false) as ->; [|reflexivity].
    apply Z.eqb_neq. rewrite length_append. cbn [String.length append]. lia.
Qed.

(** ** The limit on the size of the caches *)

Open Scope list_scope.

Lemma trimCache_bound (cfg : Config) (limit : nat) (n name : string) (cs : CacheStorage) :
  cache_maxItems cfg = Some limit ->
  List.length (caches_open name (trimCache cfg n cs))
  <= List.length (caches_open name cs)
  /\ (name = n -> List.length (caches_open name (trimCache cfg n cs)) <= limit).
Proof.
  intros Hmax. unfold trimCache. destruct (string_dec n name) as [->|Hne].
  - rewrite caches_open_update. split.
    + assert (forall fuel c, List.length (trimCache_loop cfg fuel c) <= List.length c)
        as Hshorter; [|apply Hshorter].
      induction fuel as [|fuel IH]; intros c; cbn [trimCache_loop]; [lia|].
      destruct (within_limit _ _); [lia|].
      destruct (cache_keys c) as [|first keys]; [lia|].
      etransitivity; [apply IH|]. unfold cache_delete. apply filter_length_le.
    + intros _. now apply (trimCache_loop_within_limit cfg limit Hmax).
  - rewrite caches_open_update_other by assumption. split; [lia | congruence].
Qed.

Lemma trimCaches_bound (cfg : Config) (limit : nat) (name : string) (cs : CacheStorage) :
  cache_enabled cfg = true -> cache_maxItems cfg = Some (S limit) ->
  List.length (caches_open name (trimCaches cfg cs)) <= S limit.
Proof.
  intros Hen Hmax. unfold trimCaches. rewrite Hen, Hmax. cbn [negb orb].
  assert (forall names acc,
            List.length
              (caches_open name (fold_left (fun acc n => trimCache cfg n acc) names acc))
            <= List.length (caches_open name acc)
            /\ (In name names ->
                List.length
                  (caches_open name (fold_left (fun acc n => trimCache cfg n acc) names acc))
                <= S limit)) as Hfold.
  { induction names as [|n names IH]; intros acc; cbn [fold_left].
    - split; [lia | intros []].
    - destruct (IH (trimCache cfg n acc)) as [Hle Hin].
      destruct (trimCache_bound cfg (S limit) n name acc Hmax) as [Hle1 Hin1].
      split; [lia|]. intros [->|Hlater]; [|now apply Hin].
      specialize (Hin1 eq_refl). lia. }
  destruct (in_dec string_dec name (caches_keys cs)) as [Hin|Hout].
  - now apply Hfold.
  - destruct (Hfold (caches_keys cs) cs) as [Hle _].
    assert (caches_open name cs = []) as Hnone.
    { clear - Hout. induction cs as [|[n c] cs IH]; [reflexivity|]. cbn in *.
      destruct (String.eqb_spec n name); [tauto | apply IH; tauto]. }
    rewrite Hnone in Hle. cbn in Hle. lia.
Qed.

Lemma caches_open_match_none (key name : string) (cs : CacheStorage) :
  caches_match key cs = None -> cache_match key (caches_open name cs) = None.
Proof.
  induction cs as [|[n c] cs IH]; cbn [caches_match caches_open]; [reflexivity|].
  destruct (cache_match key c) eqn:E; [discriminate|]. intros Hrest.
  destruct (String.eqb n name); [exact E | now apply IH].
Qed.

Lemma cache_put_new (key : string) (r : Response) (c : Cache) :
  cache_match key c = None -> cache_put key r c = c ++ [(key, r)].
Proof.
  intros Hmiss. unfold cache_put. f_equal. unfold cache_delete.
  induction c as [|[k x] c IH]; [reflexivity|]. cbn [cache_match] in Hmiss.
  cbn [filter fst]. destruct (String.eqb k key); [discriminate|]. cbn [negb].
  now rewrite IH.
Qed.

(** X29. The limit on the size of the caches holds when the page has just
    configured the worker, and only then.  After [setConfig] with the
    section [cache] in place, caching enabled, a positive [cache.maxItems]
    and no [prefetch.items], no cache holds more entries than the limit.
    The fetch handler does not trim: an image or static request for a url
    not yet cached, answered with an ok response, makes its cache one entry
    larger whatever the limit is. *)
Theorem limit_holds_after_setConfig (network : string -> option Response)
    (read : option value -> Config) (beyond : string -> bool) (clients : list string) :
  (forall newConfig st limit name,
     let merged := merged_settings (settings st) newConfig in
     let cfg := read merged in
     missing beyond "cache" merged = false ->
     cache_enabled cfg = true ->
     cache_maxItems cfg = Some (S limit) ->
     prefetch_enabled cfg = false \/ prefetch_items cfg = None ->
     List.length
       (caches_open name
          (caches (world (setConfig network read beyond clients newConfig st))))
     <= S limit)
  /\ (forall cfg request acceptHeader raw w,
        accept request = Some acceptHeader ->
        includes acceptHeader "text/html" = false ->
        caches_match (url request) (caches w) = None ->
        network (url request) = Some raw ->
        ok raw = true ->
        cache_enabled cfg = true ->
        let cacheKey :=
          cacheName (if includes acceptHeader "image" then "image" else "static") in
        List.length (caches_open cacheKey (caches (snd (doFetch network cfg request w))))
        = S (List.length (caches_open cacheKey (caches w)))).
Proof.
  split.
  - intros newConfig st limit name merged cfg Hcache Hen Hmax Hprefetch.
    unfold setConfig. fold merged. fold cfg. rewrite Hcache.
    destruct (missing beyond "prefetch" merged || _);
      [cbn [world caches]; now apply trimCaches_bound|].
    unfold sendMessage, openDatabase. cbn [world].
    assert (forall trimmed : World,
              caches (if prefetch_enabled cfg
                      then match prefetch_items cfg with
                           | Some items => prefetch network cfg items trimmed
                           | None => trimmed
                           end
                      else trimmed) = caches trimmed) as ->.
    { intros trimmed. destruct Hprefetch as [-> | ->]; [reflexivity|].
      now destruct (prefetch_enabled cfg). }
    cbn [caches]. now apply trimCaches_bound.
  - intros cfg request acceptHeader raw w Haccept Hhtml Hmiss Hnet Hok Hen cacheKey.
    pose proof (resourceType_of_not_content acceptHeader Hhtml) as Htype.
    assert (caches (snd (doFetch network cfg request w))
            = caches_update cacheKey (cache_put (url request) raw) (caches w)) as ->.
    { subst cacheKey. unfold doFetch. rewrite Haccept, Htype.
      destruct (includes acceptHeader "image");
        unfold cacheFirstFlow, then_, catch_, resolve, fetchFromCache, fetch, addToCache;
        rewrite Hmiss, Hnet, Hok, Hen; reflexivity. }
    rewrite caches_open_update, cache_put_new by (now apply caches_open_match_none).
    rewrite length_app. cbn [List.length]. lia.
Qed.

Lemma limit_holds_after_setConfig_witness :
  let st :=
    {| settings := Some config_literal;
       world := {| caches := [(cacheName "image", three_images)]; database := None;
                   fetched := []; written := [] |};
       posted := []; opening := 0 |} in
  List.length
    (caches_open (cacheName "image")
       (caches (world (setConfig no_network (fun _ => config_with_maxItems 2)
                         (fun _ => false) [] VUndefined st))))
  <= 2.
Proof.
  intros st.
  apply (proj1 (limit_holds_after_setConfig no_network (fun _ => config_with_maxItems 2)
                  (fun _ => false) []) VUndefined st 1 (cacheName "image") eq_refl eq_refl
           eq_refl).
  now right.
Defined.
